(** * Reader mode (resources/resource_protocol/reader-mode.js)

    A shallow embedding of the reader-mode script and of the part of the
    DOM it drives, followed by the properties of the script.

    The script is one immediately-invoked function.  It reads the live
    document, picks a content node, deep-clones it, strips the clone and
    rebuilds head and body from the clone.  The embedding keeps what the
    properties depend on:

    - nodes have an identity ([node_id]); a static NodeList is a list of
      identities, and removing a node detaches it but keeps it (and its
      subtree) reachable through the identities held by such lists;
    - [parentNode], [firstChild], [removeChild], [appendChild],
      [cloneNode], [querySelectorAll] act on one shared store of trees;
    - host faults (a property read on [null], [removeChild] on a node that
      is not a child) are results of their own, as are loops that exhaust
      their fuel;
    - numbers are exact rationals: every score of the script is a multiple
      of 1/100 far inside the range where doubles are exact on integers,
      and rounding of the quotient by 100 is not modelled;
    - strings are sequences of 8-bit code units; [toLowerCase] folds the
      letters A-Z only;
    - elements are HTML elements: [className] and [id] are the strings of
      the attributes [class] and [id], and [tagName] is the upper-cased
      local name;
    - [innerText] depends on the rendering of the page and is left to the
      host: the script is a function of it. *)

From Stdlib Require Import String Ascii QArith Qminmax Lia Lqa.
From stdpp Require Import base tactics option list.

Open Scope string_scope.
Open Scope list_scope.

(** ** Strings and regular expressions *)

Module JsString.

Definition lower_ascii (c : ascii) : ascii :=
  let n := nat_of_ascii c in
  if (65 <=? n)%nat && (n <=? 90)%nat then ascii_of_nat (n + 32) else c.

Definition upper_ascii (c : ascii) : ascii :=
  let n := nat_of_ascii c in
  if (97 <=? n)%nat && (n <=? 122)%nat then ascii_of_nat (n - 32) else c.

Fixpoint toLowerCase (s : string) : string :=
  match s with
  | EmptyString => EmptyString
  | String c r => String (lower_ascii c) (toLowerCase r)
  end.

Fixpoint toUpperCase (s : string) : string :=
  match s with
  | EmptyString => EmptyString
  | String c r => String (upper_ascii c) (toUpperCase r)
  end.

(** [includes lit s]: the literal [lit] occurs somewhere in [s]. *)
Fixpoint includes (lit s : string) : bool :=
  String.prefix lit s ||
  match s with
  | EmptyString => false
  | String _ r => includes lit r
  end.

(** The regular expressions of the script are alternations of literals,
    [/a|b|c/]; [test] is [RegExp.prototype.test]: some alternative occurs
    in the subject. *)
Definition regex := list string.

Definition test (re : regex) (s : string) : bool :=
  existsb (fun lit => includes lit s) re.

(** A string in a condition is true when it is not empty. *)
Definition truthy (s : string) : bool :=
  match s with EmptyString => false | _ => true end.

End JsString.
Import JsString.

(** ** The DOM store *)

Definition node_id := nat.

Inductive node_data :=
| Element (localName : string) (attributes : list (string * string))
| Text (data : string).

(** Trees in first-child / next-sibling form: a [forest] is a sequence of
    sibling nodes, each with the forest of its children.  The store of a
    document is the forest of its roots: the document element first if
    the page was loaded that way, and every detached tree. *)
Inductive forest :=
| Nil
| Node (id : node_id) (nd : node_data) (childNodes nextSibling : forest).

Fixpoint fapp (a b : forest) : forest :=
  match a with
  | Nil => b
  | Node i d k s => Node i d k (fapp s b)
  end.

(** All nodes of a forest in tree order. *)
Fixpoint nodes (f : forest) : list (node_id * node_data) :=
  match f with
  | Nil => []
  | Node i d k s => (i, d) :: nodes k ++ nodes s
  end.

Definition ids (f : forest) : list node_id := (nodes f).*1.
Arguments ids : simpl never.

(** The identities of the top-level siblings of a forest. *)
Fixpoint tops (f : forest) : list node_id :=
  match f with
  | Nil => []
  | Node i _ _ s => i :: tops s
  end.

(** The node with identity [x]: its data and its children. *)
Fixpoint lookup_node (x : node_id) (f : forest) : option (node_data * forest) :=
  match f with
  | Nil => None
  | Node i d k s =>
      if (i =? x)%nat then Some (d, k)
      else match lookup_node x k with
           | Some r => Some r
           | None => lookup_node x s
           end
  end.

(** [find_parent up x f]: where [x] sits in [f], the identity of its parent
    ([up] for the top-level siblings of [f]). *)
Fixpoint find_parent (up : option node_id) (x : node_id) (f : forest)
  : option (option node_id) :=
  match f with
  | Nil => None
  | Node i d k s =>
      if (i =? x)%nat then Some up
      else match find_parent (Some i) x k with
           | Some r => Some r
           | None => find_parent up x s
           end
  end.

(** [cut c f] is [f] without the subtrees rooted at [c]; [cutoff c f] is
    those subtrees, as detached roots. *)
Fixpoint cut (c : node_id) (f : forest) : forest :=
  match f with
  | Nil => Nil
  | Node i d k s =>
      if (i =? c)%nat then cut c s else Node i d (cut c k) (cut c s)
  end.

Fixpoint cutoff (c : node_id) (f : forest) : forest :=
  match f with
  | Nil => Nil
  | Node i d k s =>
      if (i =? c)%nat then Node i d k (cutoff c s)
      else fapp (cutoff c k) (cutoff c s)
  end.

(** [graft p sub f] appends the trees [sub] after the last child of [p]. *)
Fixpoint graft (p : node_id) (sub : forest) (f : forest) : forest :=
  match f with
  | Nil => Nil
  | Node i d k s =>
      Node i d (if (i =? p)%nat then fapp (graft p sub k) sub else graft p sub k)
             (graft p sub s)
  end.

(** [set_kids x new f] replaces the children of [x]. *)
Fixpoint set_kids (x : node_id) (new : forest) (f : forest) : forest :=
  match f with
  | Nil => Nil
  | Node i d k s =>
      Node i d (if (i =? x)%nat then new else set_kids x new k) (set_kids x new s)
  end.

(** [update x g f] rewrites the data of [x]. *)
Fixpoint update (x : node_id) (g : node_data -> node_data) (f : forest) : forest :=
  match f with
  | Nil => Nil
  | Node i d k s =>
      Node i (if (i =? x)%nat then g d else d) (update x g k) (update x g s)
  end.

(** A deep copy with fresh identities [n], [n+1], ... in tree order; the
    second component is the next unused identity. *)
Fixpoint relabel (n : node_id) (f : forest) : forest * node_id :=
  match f with
  | Nil => (Nil, n)
  | Node _ d k s =>
      let (k', n1) := relabel (S n) k in
      let (s', n2) := relabel n1 s in
      (Node n d k' s', n2)
  end.

(** ** Attributes, reflected properties and selectors *)

Fixpoint assoc (k : string) (l : list (string * string)) : option string :=
  match l with
  | [] => None
  | (k', v) :: r => if (k' =? k)%string then Some v else assoc k r
  end.

Fixpoint assoc_set (k v : string) (l : list (string * string))
  : list (string * string) :=
  match l with
  | [] => [(k, v)]
  | (k', v') :: r =>
      if (k' =? k)%string then (k, v) :: r else (k', v') :: assoc_set k v r
  end.

Definition attr (k : string) (nd : node_data) : option string :=
  match nd with
  | Element _ a => assoc k a
  | Text _ => None
  end.

Definition set_attr (k v : string) (nd : node_data) : node_data :=
  match nd with
  | Element t a => Element t (assoc_set k v a)
  | Text s => Text s
  end.

(** [el.className] and [el.id] reflect the attributes [class] and [id],
    and are the empty string when the attribute is absent. *)
Definition className (nd : node_data) : string := default "" (attr "class" nd).
Definition elemId (nd : node_data) : string := default "" (attr "id" nd).

(** [el.tagName] of an HTML element is its local name in upper case. *)
Definition tagName (nd : node_data) : string :=
  match nd with
  | Element t _ => toUpperCase t
  | Text _ => ""
  end.

Definition is_element (nd : node_data) : bool :=
  match nd with Element _ _ => true | Text _ => false end.

(** The selectors the script uses: a type selector, an attribute-equals
    selector, the universal selector, and comma-separated lists of them. *)
Inductive simple_selector :=
| SType (name : string)
| SAttrEq (name value : string)
| SAny.

Definition selector := list simple_selector.

Definition matches1 (s : simple_selector) (nd : node_data) : bool :=
  match nd with
  | Text _ => false
  | Element t a =>
      match s with
      | SType name => (t =? name)%string
      | SAttrEq k v =>
          match assoc k a with Some v' => (v' =? v)%string | None => false end
      | SAny => true
      end
  end.

Definition matches (sel : selector) (nd : node_data) : bool :=
  existsb (fun s => matches1 s nd) sel.

Definition select (sel : selector) (l : list (node_id * node_data)) : list node_id :=
  (filter (fun p => matches sel p.2 = true) l).*1.

(** ** The document and the effects of the script *)

(** What the script does to the page besides editing the DOM. *)
Inductive effect :=
| Reload
| ScrollTo (x y : Z).

(** [store] holds every tree the script can reach, live or detached;
    [fresh] is the identity the next created node receives;
    [documentElement], [doc_head] and [doc_body] are the nodes behind
    [document], [document.head] and [document.body]; [doc_title] is the
    host property [document.title]. *)
Record document := {
  store : forest;
  fresh : node_id;
  documentElement : node_id;
  doc_head : node_id;
  doc_body : node_id;
  doc_title : string;
  effects : list effect
}.

Definition with_store (d : document) (f : forest) : document :=
  {| store := f; fresh := fresh d; documentElement := documentElement d;
     doc_head := doc_head d; doc_body := doc_body d;
     doc_title := doc_title d; effects := effects d |}.

Definition with_alloc (d : document) (f : forest) (n : node_id) : document :=
  {| store := f; fresh := n; documentElement := documentElement d;
     doc_head := doc_head d; doc_body := doc_body d;
     doc_title := doc_title d; effects := effects d |}.

Definition with_title (d : document) (s : string) : document :=
  {| store := store d; fresh := fresh d; documentElement := documentElement d;
     doc_head := doc_head d; doc_body := doc_body d;
     doc_title := s; effects := effects d |}.

Definition with_effect (d : document) (e : effect) : document :=
  {| store := store d; fresh := fresh d; documentElement := documentElement d;
     doc_head := doc_head d; doc_body := doc_body d;
     doc_title := doc_title d; effects := effects d ++ [e] |}.

Inductive fault :=
| TypeError
| NotFoundError
| HierarchyRequestError.

(** A run ends normally with a value and a document, throws, or exhausts
    the fuel of one of its [while] loops. *)
Inductive outcome (A : Type) :=
| Done (a : A) (d : document)
| Throw (e : fault)
| OutOfFuel.
Arguments Done {A} a d.
Arguments Throw {A} e.
Arguments OutOfFuel {A}.

Definition M (A : Type) := document -> outcome A.

Definition ret {A} (a : A) : M A := fun d => Done a d.

Definition bind {A B} (m : M A) (k : A -> M B) : M B :=
  fun d =>
    match m d with
    | Done a d' => k a d'
    | Throw e => Throw e
    | OutOfFuel => OutOfFuel
    end.

Definition gets {A} (g : document -> A) : M A := fun d => Done (g d) d.

Definition throw {A} (e : fault) : M A := fun _ => Throw e.

Notation "'let*' x ':=' m 'in' k" := (bind m (fun x => k))
  (at level 10, x name, m at level 100, k at level 200).
Notation "m1 '>>' m2" := (bind m1 (fun _ => m2))
  (at level 100, m2 at level 200, right associativity).

(** *** Reads *)

Definition data_of (f : forest) (x : node_id) : node_data :=
  match lookup_node x f with
  | Some (d, _) => d
  | None => Text ""
  end.

Definition children_of (f : forest) (x : node_id) : forest :=
  match lookup_node x f with
  | Some (_, k) => k
  | None => Nil
  end.

(** [x.parentNode]; [None] is [null]. *)
Definition parentNode (f : forest) (x : node_id) : option node_id :=
  match find_parent None x f with
  | Some (Some p) => Some p
  | _ => None
  end.

(** [x.querySelectorAll(sel)]: the descendants of [x] that match, in tree
    order, as a static list. *)
Definition querySelectorAll (f : forest) (x : node_id) (sel : selector)
  : list node_id :=
  select sel (nodes (children_of f x)).

(** [document.querySelectorAll(sel)] ranges over the document element and
    its descendants. *)
Definition document_nodes (d : document) : list (node_id * node_data) :=
  match lookup_node (documentElement d) (store d) with
  | Some (dt, k) => (documentElement d, dt) :: nodes k
  | None => []
  end.

Definition document_querySelectorAll (d : document) (sel : selector)
  : list node_id :=
  select sel (document_nodes d).

Definition document_querySelector (d : document) (sel : selector)
  : option node_id :=
  match document_querySelectorAll d sel with
  | [] => None
  | x :: _ => Some x
  end.

(** *** Host operations *)

(** A method call on a reference that is not a node of the store is the
    script's call on [null]; text nodes have no attribute methods. *)
Definition getAttribute (x : node_id) (k : string) : M (option string) :=
  fun d =>
    match lookup_node x (store d) with
    | Some (Element _ a, _) => Done (assoc k a) d
    | _ => Throw TypeError
    end.

Definition setAttribute (x : node_id) (k v : string) : M unit :=
  fun d =>
    match lookup_node x (store d) with
    | Some (Element _ _, _) =>
        Done tt (with_store d (update x (set_attr k v) (store d)))
    | _ => Throw TypeError
    end.

Definition firstChild (x : node_id) : M (option node_id) :=
  fun d =>
    match lookup_node x (store d) with
    | Some (_, Nil) => Done None d
    | Some (_, Node c _ _ _) => Done (Some c) d
    | None => Throw TypeError
    end.

(** [p.removeChild(c)]: [c] leaves its parent and becomes a detached root;
    NotFoundError when [c] is not a child of [p]. *)
Definition removeChild (p c : node_id) : M unit :=
  fun d =>
    match find_parent None c (store d) with
    | Some (Some p') =>
        if (p' =? p)%nat
        then Done tt (with_store d (fapp (cut c (store d)) (cutoff c (store d))))
        else Throw NotFoundError
    | _ => Throw NotFoundError
    end.

(** [p.appendChild(c)]: [c] is taken from wherever it is and becomes the
    last child of [p]; HierarchyRequestError when [p] is not an element or
    lies inside [c]. *)
Definition appendChild (p c : node_id) : M unit :=
  fun d =>
    match lookup_node p (store d), lookup_node c (store d) with
    | None, _ | _, None => Throw TypeError
    | Some _, Some _ =>
        match lookup_node p (cut c (store d)) with
        | Some (Element _ _, _) =>
            Done tt (with_store d (graft p (cutoff c (store d)) (cut c (store d))))
        | _ => Throw HierarchyRequestError
        end
    end.

(** [document.createElement(name)]: a detached element without attributes
    or children; the name is lower-cased. *)
Definition createElement (name : string) : M node_id :=
  fun d =>
    Done (fresh d)
         (with_alloc d
            (fapp (store d) (Node (fresh d) (Element (toLowerCase name) []) Nil Nil))
            (S (fresh d))).

(** [x.textContent = s]: the children of [x] are detached and replaced by
    one text node, or by nothing when [s] is empty. *)
Definition set_textContent (x : node_id) (s : string) : M unit :=
  fun d =>
    match lookup_node x (store d) with
    | Some (_, old) =>
        if truthy s
        then Done tt (with_alloc d
               (fapp (set_kids x (Node (fresh d) (Text s) Nil Nil) (store d)) old)
               (S (fresh d)))
        else Done tt (with_store d (fapp (set_kids x Nil (store d)) old))
    | None => Throw TypeError
    end.

(** [x.cloneNode(true)]: a detached deep copy of [x] made of fresh nodes. *)
Definition cloneNode (x : node_id) : M node_id :=
  fun d =>
    match lookup_node x (store d) with
    | Some (nd, k) =>
        let (c, n) := relabel (fresh d) (Node x nd k Nil) in
        Done (fresh d) (with_alloc d (fapp (store d) c) n)
    | None => Throw TypeError
    end.

Definition set_title (s : string) : M unit :=
  fun d => Done tt (with_title d s).

Definition location_reload : M unit :=
  fun d => Done tt (with_effect d Reload).

Definition scrollTo (x y : Z) : M unit :=
  fun d => Done tt (with_effect d (ScrollTo x y)).

(** [while (x.firstChild) step(x.firstChild)], with fuel. *)
Fixpoint while_firstChild (fuel : nat) (x : node_id) (step : node_id -> M unit)
  : M unit :=
  match fuel with
  | O => fun _ => OutOfFuel
  | S n =>
      let* c := firstChild x in
      match c with
      | None => ret tt
      | Some c => step c >> while_firstChild n x step
      end
  end.

(** ** The script *)

Definition Qgtb (a b : Q) : bool :=
  match (a ?= b)%Q with Gt => true | _ => false end.

(** [bestScore] starts at [-Infinity]. *)
Inductive number :=
| NegInfinity
| Finite (q : Q).

Definition gt (s : Q) (best : number) : bool :=
  match best with
  | NegInfinity => true
  | Finite b => Qgtb s b
  end.

Definition re_unlikely : regex :=
  ["comment"; "sidebar"; "widget"; "footer"; "nav"; "menu"; "ad"; "social";
   "share"; "related"].

Definition re_likely : regex :=
  ["article"; "content"; "post"; "entry"; "body"; "main"; "text"; "story"].

Definition re_strip : regex :=
  ["ad-"; "ads-"; "advert"; "sidebar"; "widget"; "share"; "social"; "comment";
   "related"; "popup"; "modal"; "overlay"; "cookie"; "banner"].

Definition removeTags : list string :=
  ["script"; "style"; "iframe"; "nav"; "aside"; "footer"; "header";
   "form"; "button"; "input"; "select"; "textarea"; "noscript"].

Definition dquote : string := String (ascii_of_nat 34) EmptyString.

Definition reader_css : string :=
  "body { font-family: Georgia, " ++ dquote ++ "Times New Roman" ++ dquote ++ ", serif; line-height: 1.8; max-width: 680px; margin: 40px auto; padding: 0 20px; color: #333; background: #fafafa; }" ++
  "@media (prefers-color-scheme: dark) { body { color: #d4d4d4; background: #1a1a1a; } a { color: #6db3f2; } }" ++
  "h1 { font-size: 1.8em; line-height: 1.3; margin-bottom: 0.5em; }" ++
  "img { max-width: 100%; height: auto; }" ++
  "pre, code { font-size: 0.9em; overflow-x: auto; }" ++
  "blockquote { border-left: 3px solid #ccc; margin-left: 0; padding-left: 1em; color: #666; }" ++
  "@media (prefers-color-scheme: dark) { blockquote { border-left-color: #555; color: #aaa; } }".

(** [((el.className || '') + ' ' + (el.id || '')).toLowerCase()] *)
Definition classId (nd : node_data) : string :=
  toLowerCase ((className nd ++ " ") ++ elemId nd)%string.

(** [textContent]: the text of the descendants of a node, in tree order. *)
Fixpoint text_of (f : forest) : string :=
  match f with
  | Nil => ""
  | Node _ d k s =>
      ((match d with Text t => t | Element _ _ => "" end ++ text_of k) ++ text_of s)%string
  end.

Definition textContent (f : forest) (x : node_id) : string :=
  match lookup_node x f with
  | Some (Text t, _) => t
  | Some (Element _ _, k) => text_of k
  | None => ""
  end.

Section Script.

(** [innerText] is computed by the host from the rendered page; the
    script only reads it on live nodes, before it changes anything. *)
Variable innerText : forest -> node_id -> string.

(** Lines 11-28. *)
Definition scoreNode (f : forest) (node : node_id) : Q :=
  let score := 0%Q in
  let text := innerText f node in
  let score := (score + Qmin (inject_Z (Z.of_nat (String.length text)) / 100) 20)%Q in
  let score :=
    (score + inject_Z (Z.of_nat (length (querySelectorAll f node [SType "p"]))) * 3)%Q in
  let tag := toLowerCase (tagName (data_of f node)) in
  let score :=
    if (tag =? "nav")%string || (tag =? "aside")%string ||
       (tag =? "footer")%string || (tag =? "header")%string
    then (score - 50)%Q else score in
  let ci := classId (data_of f node) in
  let score := if test re_unlikely ci then (score - 30)%Q else score in
  let score := if test re_likely ci then (score + 25)%Q else score in
  score.

(** Lines 35-41: the scan over [candidates], carrying [bestScore] and
    [content]. *)
Fixpoint scan (f : forest) (candidates : list node_id)
    (bestScore : number) (content : option node_id)
  : number * option node_id :=
  match candidates with
  | [] => (bestScore, content)
  | c :: rest =>
      let s := scoreNode f c in
      if gt s bestScore then scan f rest (Finite s) (Some c)
      else scan f rest bestScore content
  end.

Definition candidates (d : document) : list node_id :=
  document_querySelectorAll d [SType "div"; SType "section"; SType "td"].

(** Lines 30-46. *)
Definition locate (d : document) : node_id :=
  let content :=
    match document_querySelector d [SType "article"] with
    | Some a => Some a
    | None =>
        match document_querySelector d [SAttrEq "role" "main"] with
        | Some r => Some r
        | None => document_querySelector d [SType "main"]
        end
    end in
  let content :=
    match content with
    | Some c => Some c
    | None => (scan (store d) (candidates d) NegInfinity None).2
    end in
  match content with
  | Some c => c
  | None => doc_body d
  end.

(** Lines 49-53. *)
Definition extract_title (d : document) : string :=
  let title := doc_title d in
  match document_querySelector d [SType "h1"] with
  | Some h1 =>
      if truthy (innerText (store d) h1) then innerText (store d) h1 else title
  | None => title
  end.

(** Lines 61-63: [j] runs from the last element down to the first; the
    parent is dereferenced without a check. *)
Fixpoint remove_all (els : list node_id) : M unit :=
  match els with
  | [] => ret tt
  | el :: rest =>
      let* p := gets (fun d => parentNode (store d) el) in
      match p with
      | Some p => removeChild p el >> remove_all rest
      | None => throw TypeError
      end
  end.

(** Lines 59-64. *)
Fixpoint strip_tags (tags : list string) (clone : node_id) : M unit :=
  match tags with
  | [] => ret tt
  | t :: rest =>
      let* els := gets (fun d => querySelectorAll (store d) clone [SType t]) in
      remove_all (rev els) >> strip_tags rest clone
  end.

(** Lines 69-75: one turn of the loop over [allEls]. *)
Definition strip_class_step (el : node_id) : M unit :=
  let* classId := gets (fun d => classId (data_of (store d) el)) in
  if test re_strip classId then
    let* p := gets (fun d => parentNode (store d) el) in
    match p with
    | Some p => removeChild p el
    | None => ret tt
    end
  else ret tt.

(** Lines 68-76. *)
Fixpoint strip_classes (allEls : list node_id) : M unit :=
  match allEls with
  | [] => ret tt
  | el :: rest => strip_class_step el >> strip_classes rest
  end.

(** Lines 56-76: the clone and its two cleaning passes. *)
Definition clean (content : node_id) : M node_id :=
  let* clone := cloneNode content in
  strip_tags removeTags clone >>
  let* allEls := gets (fun d => querySelectorAll (store d) clone [SAny]) in
  strip_classes allEls >>
  ret clone.

(** Lines 30-76. *)
Definition prepare : M (string * node_id) :=
  let* content := gets locate in
  let* title := gets extract_title in
  let* clone := clean content in
  ret (title, clone).

Definition loop_fuel (d : document) : nat := S (length (ids (store d))).

(** Lines 83-94, 98-107. *)
Definition rebuild_head : M unit :=
  let* head := gets doc_head in
  let* n := gets loop_fuel in
  while_firstChild n head (removeChild head) >>
  let* meta1 := createElement "meta" in
  setAttribute meta1 "charset" "UTF-8" >>
  appendChild head meta1 >>
  let* meta2 := createElement "meta" in
  setAttribute meta2 "name" "viewport" >>
  setAttribute meta2 "content" "width=device-width, initial-scale=1.0" >>
  appendChild head meta2.

Definition rebuild_style : M unit :=
  let* head := gets doc_head in
  let* style := createElement "style" in
  set_textContent style reader_css >>
  appendChild head style.

(** Lines 110-116. *)
Definition rebuild_heading (title : string) : M unit :=
  let* body := gets doc_body in
  let* n := gets loop_fuel in
  while_firstChild n body (removeChild body) >>
  let* heading := createElement "h1" in
  set_textContent heading title >>
  appendChild body heading.

(** Lines 119-121. *)
Definition transfer (clone : node_id) : M unit :=
  let* body := gets doc_body in
  let* n := gets loop_fuel in
  while_firstChild n clone (appendChild body).

(** Lines 110-121. *)
Definition rebuild_body (title : string) (clone : node_id) : M unit :=
  rebuild_heading title >> transfer clone.

(** Lines 123-124. *)
Definition mark_and_scroll : M unit :=
  let* body := gets doc_body in
  setAttribute body "data-reader-mode" "true" >>
  scrollTo 0 0.

(** Lines 83-124. *)
Definition rebuild (title : string) (clone : node_id) : M unit :=
  rebuild_head >>
  set_title ("Reader: " ++ title)%string >>
  rebuild_style >>
  rebuild_body title clone >>
  mark_and_scroll.

(** Line 5. *)
Definition in_reader_mode : M bool :=
  let* body := gets doc_body in
  let* flag := getAttribute body "data-reader-mode" in
  ret (match flag with Some v => (v =? "true")%string | None => false end).

(** The whole script. *)
Definition reader_mode : M unit :=
  let* on := in_reader_mode in
  if on then location_reload
  else
    let* tc := prepare in
    rebuild tc.1 tc.2.

End Script.

(** ** The scoring rule as the specification words it *)

Definition indicator (b : bool) (q : Q) : Q := if b then q else 0%Q.

Section SpecScore.

Variable innerText : forest -> node_id -> string.


(** The same rule with the term for the node's own tag deleted. *)
Definition score_without_own_tag (f : forest) (node : node_id) : Q :=
  let nd := data_of f node in
  (Qmin (inject_Z (Z.of_nat (String.length (innerText f node))) / 100) 20
   + 3 * inject_Z (Z.of_nat (length (querySelectorAll f node [SType "p"])))
   - indicator (test re_unlikely (classId nd)) 30
   + indicator (test re_likely (classId nd)) 25)%Q.

End SpecScore.

(** ** The mode flag *)

(** What the guard of line 5 compares with ['true']: the attribute
    [data-reader-mode] of [document.body]. *)
Definition mode_flag (d : document) : bool :=
  match lookup_node (doc_body d) (store d) with
  | Some (nd, _) =>
      match attr "data-reader-mode" nd with
      | Some v => (v =? "true")%string
      | None => false
      end
  | None => false
  end.

(** ** The exclusion rules *)

(** An element whose tag is one of [removeTags]. *)
Definition excluded_tag (nd : node_data) : bool :=
  match nd with
  | Element t _ => existsb (String.eqb t) removeTags
  | Text _ => false
  end.

(** A node whose lower-case class+id string matches the class/id pattern. *)
Definition excluded_class (nd : node_data) : bool := test re_strip (classId nd).

(** ** Well-formed documents *)

(** Identities are unique, the allocator is ahead of all of them, and
    [document.head] and [document.body] are nodes of the store. *)
Definition well_formed (d : document) : Prop :=
  NoDup (ids (store d)) /\
  Forall (fun i => i < fresh d) (ids (store d)) /\
  doc_head d ∈ ids (store d) /\
  doc_body d ∈ ids (store d).


(** ** Invariants of a run *)

(** Identities are unique and below the allocator. *)
Definition store_ok (d : document) : Prop :=
  NoDup (ids (store d)) /\ Forall (fun i => i < fresh d) (ids (store d)).

(** The node [c] is a root of the store, with data [cd] and children [K]. *)
Definition clone_at (c : node_id) (cd : node_data) (K : forest) (f : forest)
  : Prop :=
  exists A B, f = fapp A (Node c cd K B).

(** The store is [F] followed by trees made of nodes numbered from [n0]. *)
Definition extends (n0 : node_id) (F : forest) (d : document) : Prop :=
  exists X, store d = fapp F X /\ Forall (fun i => n0 <= i) (ids X).

(** What is left of a forest after cutting the nodes of a list, in turn. *)
Definition cut_all (l : list node_id) (K : forest) : forest :=
  foldl (fun k e => cut e k) K l.

(** The state of the cleaning passes: the store is well formed, the clone
    [c] is a root with children [K], and everything that was in the store
    [F] before the clone was made is still there, unchanged. *)
Definition cleaning (n0 : node_id) (F : forest) (c : node_id) (cd : node_data)
    (K : forest) (d : document) : Prop :=
  store_ok d /\ clone_at c cd K (store d) /\ extends n0 F d.

(** The state of the rebuild: the store is well formed and the clone [c]
    is a root with children [K]. *)
Definition rebuilding (c : node_id) (cd : node_data) (K : forest) (d : document)
  : Prop :=
  store_ok d /\ clone_at c cd K (store d).

(** A node that is neither the clone nor one of its descendants. *)
Definition outside (c : node_id) (K : forest) (x : node_id) : Prop :=
  x <> c /\ x ∉ ids K.

(** The state of the transfer loop: of the children [K] of the cleaned
    clone, [K1] are already under the body, after [H], and [K2] are still
    under the clone. *)
Definition transferring (c : node_id) (cd : node_data) (K : forest)
    (body : node_id) (bd : node_data) (H K1 K2 : forest) (d : document) : Prop :=
  store_ok d /\
  clone_at c cd K2 (store d) /\
  lookup_node body (store d) = Some (bd, fapp H K1) /\
  fapp K1 K2 = K /\
  outside c K2 body.

(** The heading the rebuild puts first in the body. *)
Definition heading_tree (h : node_id) (hk rest : forest) : forest :=
  Node h (Element "h1" []) hk rest.

(** The children of an element whose [textContent] was set to [s]. *)
Definition text_child (i : node_id) (s : string) : forest :=
  if truthy s then Node i (Text s) Nil Nil else Nil.

(** ** Pages the script runs on *)

(** [p] is an element of the store. *)
Definition elem (f : forest) (p : node_id) : Prop :=
  exists t a, (p, Element t a) ∈ nodes f.

(** [x] has a parent. *)
Definition nonroot (f : forest) (x : node_id) : Prop :=
  exists p, find_parent None x f = Some (Some p).

(** A loaded page: the store is well formed and [document.head] and
    [document.body] are elements of it. *)
Definition loaded (d : document) : Prop :=
  store_ok d /\ elem (store d) (doc_head d) /\ elem (store d) (doc_body d).

(** A computation that keeps the store well formed and loses no element. *)
Definition sound {A} (m : M A) : Prop :=
  forall d a d',
    store_ok d -> m d = Done a d' ->
    store_ok d' /\ forall q, elem (store d) q -> elem (store d') q.

(** ** Projections that a run leaves alone *)

Definition preserves {A B} (g : document -> B) (m : M A) : Prop :=
  forall d a d', m d = Done a d' -> g d' = g d.

(** A projection that does not look at the store or the allocator. *)
Definition store_blind {B} (g : document -> B) : Prop :=
  (forall d f, g (with_store d f) = g d) /\
  (forall d f n, g (with_alloc d f n) = g d).

(** ** The cleaned content, declaratively *)

(** A node that the cleaning passes remove, for its tag or for its
    class+id string. *)
Definition excluded (nd : node_data) : bool :=
  excluded_tag nd || excluded_class nd.

(** [prune P f] is [f] without the nodes that satisfy [P] and without
    their subtrees. *)
Fixpoint prune (P : node_data -> bool) (f : forest) : forest :=
  match f with
  | Nil => Nil
  | Node i d k s =>
      if P d then prune P s else Node i d (prune P k) (prune P s)
  end.

(** A forest without the identities of its nodes. *)
Fixpoint shape (f : forest) : forest :=
  match f with
  | Nil => Nil
  | Node _ d k s => Node 0 d (shape k) (shape s)
  end.

(** ** Nodes made by the run *)

(** All that [p] contains was made when the allocator stood at [n0] or
    later. *)
Definition young (n0 : node_id) (f : forest) (p : node_id) : Prop :=
  Forall (fun i => n0 <= i) (ids (children_of f p)).

(** From [d] to [d'] the store stays well formed, a node that contained
    only nodes made since [n0] still does, and the nodes made before [n0]
    are all there, with their data. *)
Definition advances (n0 : node_id) (d d' : document) : Prop :=
  store_ok d' /\
  n0 <= fresh d' /\
  (forall q, young n0 (store d) q -> young n0 (store d') q) /\
  (forall x nd, x < n0 ->
     (x, nd) ∈ nodes (store d) -> (x, nd) ∈ nodes (store d')).

(** ** Sample pages *)

Module Sample.

Definition el (i : node_id) (tag : string) (a : list (string * string))
    (kids next : forest) : forest :=
  Node i (Element tag a) kids next.

Definition tx (i : node_id) (s : string) (next : forest) : forest :=
  Node i (Text s) Nil next.

Definition doc (f : forest) (n head body : node_id) (t : string) : document :=
  {| store := f; fresh := n; documentElement := 0;
     doc_head := head; doc_body := body; doc_title := t; effects := [] |}.

(** A page without semantic markers: a nav, a content div holding a
    heading, a paragraph, a script, a sidebar and an ad, and a footer. *)
Definition blog_store : forest :=
  el 0 "html" []
    (el 1 "head" []
       (el 2 "title" [] (tx 3 "Old title" Nil)
       (el 4 "style" [] Nil Nil))
    (el 5 "body" []
       (el 6 "nav" [] (tx 7 "menu" Nil)
       (el 8 "div" [("class", "Content"); ("id", "Main")]
          (el 9 "h1" [] (tx 10 "Hello" Nil)
          (el 11 "p" [] (tx 12 "para" Nil)
          (el 13 "script" [] Nil
          (el 14 "div" [("class", "SideBar")] (el 15 "p" [] Nil Nil)
          (el 16 "span" [] (el 17 "b" [("id", "ad-top")] (tx 18 "x" Nil) Nil)
           Nil)))))
       (el 19 "footer" [] Nil Nil)))
     Nil))
    Nil.

Definition blog : document := doc blog_store 20 1 5 "Old title".

(** The same page after one run of the script. *)
Definition blog_reader : document :=
  Eval vm_compute in
    match reader_mode textContent blog with
    | Done _ d => d
    | _ => blog
    end.

(** The page after the clone and the two cleaning passes. *)
Definition blog_cleaned : document :=
  Eval vm_compute in
    match prepare textContent blog with
    | Done _ d => d
    | _ => blog
    end.

(** Two candidates with the same score. *)
Definition tie_store : forest :=
  el 0 "html" []
    (el 1 "head" [] Nil
    (el 2 "body" []
       (el 3 "div" [] (el 4 "p" [] Nil Nil)
       (el 5 "section" [] (el 6 "p" [] Nil Nil)
       (el 7 "td" [("class", "sidebar")] Nil Nil)))
     Nil))
    Nil.

Definition tie : document := doc tie_store 8 1 2 "".

(** An empty article next to a div that the heuristic would prefer. *)
Definition news_store : forest :=
  el 0 "html" []
    (el 1 "head" [] Nil
    (el 2 "body" []
       (el 3 "div" [("class", "content")]
          (el 4 "p" [] Nil (el 5 "p" [] Nil Nil))
       (el 6 "article" [] Nil Nil))
     Nil))
    Nil.

Definition news : document := doc news_store 7 1 2 "News".

(** A page with a detached element whose class matches the class/id
    pattern. *)
Definition stale_store : forest :=
  fapp tie_store (el 8 "div" [("class", "ad-box")] Nil Nil).

Definition stale : document := doc stale_store 9 1 2 "".

(** A document without a body: [document.body] is [null]. *)
Definition bodiless : document :=
  doc (el 0 "svg" [] (el 1 "title" [] (tx 2 "Chart" Nil) Nil) Nil) 3 3 4 "Chart".

End Sample.
(** ** Lemmas on forests *)

Ltac list_norm :=
  repeat (progress (simpl; rewrite <- ?app_assoc)).

Lemma nodes_fapp a b : nodes (fapp a b) = nodes a ++ nodes b.
Proof.
  induction a as [|i d k _ s IH]; simpl; [done|].
  by rewrite IH, app_assoc.
Qed.

Lemma ids_fapp a b : ids (fapp a b) = ids a ++ ids b.
Proof. unfold ids. by rewrite nodes_fapp, fmap_app. Qed.

Lemma ids_Node i d k s : ids (Node i d k s) = i :: ids k ++ ids s.
Proof. unfold ids. simpl. by rewrite fmap_app. Qed.

Lemma fapp_Nil_r a : fapp a Nil = a.
Proof. induction a as [|i d k _ s IH]; simpl; congruence. Qed.

Lemma fapp_assoc a b c : fapp (fapp a b) c = fapp a (fapp b c).
Proof. induction a as [|i d k _ s IH]; simpl; congruence. Qed.

Lemma lookup_node_None x f : lookup_node x f = None <-> (x ∉ ids f).
Proof.
  induction f as [|i d k IHk s IHs]; simpl.
  - split; [intros _; apply not_elem_of_nil | done].
  - rewrite ids_Node, not_elem_of_cons, not_elem_of_app, <- IHk, <- IHs.
    destruct (Nat.eqb_spec i x) as [->|Hne].
    + split; [done | intros [? _]; congruence].
    + destruct (lookup_node x k); split; try done; try tauto.
Qed.

(** The first node named [x] in tree order, with what precedes it, its
    descendants, and what follows. *)
Lemma lookup_node_split x f d k :
  lookup_node x f = Some (d, k) ->
  exists pre post, nodes f = pre ++ (x, d) :: nodes k ++ post /\ x ∉ pre.*1.
Proof.
  induction f as [|i nd kk IHk s IHs]; simpl; [done|].
  destruct (Nat.eqb_spec i x) as [->|Hne].
  - intros [= -> ->]. exists [], (nodes s). split; [done | apply not_elem_of_nil].
  - destruct (lookup_node x kk) as [r|] eqn:Hk.
    + intros [= ->]. destruct (IHk eq_refl) as (pre & post & E & Hpre).
      exists ((i, nd) :: pre), (post ++ nodes s). split.
      * rewrite E. by list_norm.
      * simpl. rewrite not_elem_of_cons. split; [congruence | done].
    + intros Hs. destruct (IHs Hs) as (pre & post & E & Hpre).
      exists ((i, nd) :: nodes kk ++ pre), post. split.
      * rewrite E. by list_norm.
      * simpl. rewrite fmap_app, not_elem_of_cons, not_elem_of_app.
        apply lookup_node_None in Hk. split; [congruence | done].
Qed.

Lemma lookup_node_elem x f d k :
  lookup_node x f = Some (d, k) -> (x, d) ∈ nodes f.
Proof.
  intros (pre & post & -> & _)%lookup_node_split.
  rewrite elem_of_app, elem_of_cons. auto.
Qed.

Lemma lookup_node_sub x f d k :
  lookup_node x f = Some (d, k) -> nodes k ⊆ nodes f.
Proof.
  intros (pre & post & -> & _)%lookup_node_split y Hy.
  rewrite elem_of_app, elem_of_cons, elem_of_app. auto.
Qed.

Lemma lookup_node_ids_sub x f d k :
  lookup_node x f = Some (d, k) -> ids k ⊆ ids f.
Proof.
  intros H y (p & -> & Hp)%list_elem_of_fmap.
  apply list_elem_of_fmap. exists p. split; [done|].
  eapply lookup_node_sub; eauto.
Qed.

Lemma lookup_node_is_Some x f : x ∈ ids f -> is_Some (lookup_node x f).
Proof.
  intros H. destruct (lookup_node x f) eqn:E; [eauto|].
  by apply lookup_node_None in E.
Qed.

Lemma NoDup_fst_functional {A B} (l : list (A * B)) x a b :
  NoDup l.*1 -> (x, a) ∈ l -> (x, b) ∈ l -> a = b.
Proof.
  induction l as [|[y c] l IH]; simpl; intros Hnd Ha Hb.
  - by apply elem_of_nil in Ha.
  - apply NoDup_cons in Hnd as [Hy Hnd].
    apply elem_of_cons in Ha as [Ha|Ha];
      apply elem_of_cons in Hb as [Hb|Hb]; simplify_eq; auto.
    + exfalso. apply Hy. apply list_elem_of_fmap. by exists (y, b).
    + exfalso. apply Hy. apply list_elem_of_fmap. by exists (y, a).
Qed.

Lemma data_of_unique f x nd :
  NoDup (ids f) -> (x, nd) ∈ nodes f -> data_of f x = nd.
Proof.
  intros Hnd Hin. unfold data_of.
  destruct (lookup_node x f) as [[d k]|] eqn:E.
  - apply lookup_node_elem in E. eapply NoDup_fst_functional; eauto.
  - apply lookup_node_None in E. exfalso. apply E.
    apply list_elem_of_fmap. by exists (x, nd).
Qed.

Lemma select_elem sel l x :
  x ∈ select sel l <-> exists nd, (x, nd) ∈ l /\ matches sel nd = true.
Proof.
  unfold select. rewrite list_elem_of_fmap. split.
  - intros ([y nd] & -> & H). apply list_elem_of_filter in H as [? ?].
    by exists nd.
  - intros (nd & H1 & H2). exists (x, nd). split; [done|].
    by apply list_elem_of_filter.
Qed.

Lemma document_nodes_sub d : document_nodes d ⊆ nodes (store d).
Proof.
  unfold document_nodes.
  destruct (lookup_node _ _) as [[dt k]|] eqn:E; [|apply list_subseteq_nil].
  intros y [->|Hy]%elem_of_cons.
  - eapply lookup_node_elem; eauto.
  - eapply lookup_node_sub; eauto.
Qed.

(** ** Comparison of scores *)



Lemma gt_NegInfinity s : gt s NegInfinity = true.
Proof. done. Qed.

(** ** The content locator *)

Section Locator.

Variable innerText : forest -> node_id -> string.

Local Abbreviation score := (scoreNode innerText).






(** C5. The locator tries the semantic markers in a fixed order and the
    first one present wins: the first article; failing that the first
    role=main node; failing that the first main element.  Scores play no
    part in these cases, whatever the candidates would score; the scan runs
    only when all three are absent. *)
Theorem locate_semantic_priority d :
  (forall a, document_querySelector d [SType "article"] = Some a ->
             locate innerText d = a) /\
  (forall r, document_querySelector d [SType "article"] = None ->
             document_querySelector d [SAttrEq "role" "main"] = Some r ->
             locate innerText d = r) /\
  (forall m, document_querySelector d [SType "article"] = None ->
             document_querySelector d [SAttrEq "role" "main"] = None ->
             document_querySelector d [SType "main"] = Some m ->
             locate innerText d = m) /\
  (document_querySelector d [SType "article"] = None ->
   document_querySelector d [SAttrEq "role" "main"] = None ->
   document_querySelector d [SType "main"] = None ->
   locate innerText d =
   default (doc_body d) (scan innerText (store d) (candidates d) NegInfinity None).2).
Proof.
  unfold locate. repeat split.
  - by intros a ->.
  - by intros r -> ->.
  - by intros m -> -> ->.
  - intros -> -> ->. by destruct (scan _ _ _ _ _).2.
Qed.

(** A candidate is an element named div, section or td. *)
Lemma candidates_tag d c :
  NoDup (ids (store d)) ->
  c ∈ candidates d ->
  exists t a, data_of (store d) c = Element t a /\
              (t = "div" \/ t = "section" \/ t = "td").
Proof.
  intros Hnd (nd & Hin & Hm)%select_elem.
  apply document_nodes_sub in Hin.
  rewrite (data_of_unique _ _ _ Hnd Hin).
  destruct nd as [t a|]; [|done]. exists t, a. split; [done|].
  cbn in Hm. rewrite orb_false_r, !orb_true_iff, !String.eqb_eq in Hm. tauto.
Qed.

(** C10. Every node the fallback scan scores is a div, section or td, so
    the branch for an own tag of nav, aside, footer or header never fires
    there: the score is the one of the rule without that term. *)
Theorem candidate_score_has_no_own_tag_term d c :
  NoDup (ids (store d)) ->
  c ∈ candidates d ->
  (scoreNode innerText (store d) c
   == score_without_own_tag innerText (store d) c)%Q.
Proof.
  intros Hnd Hc.
  destruct (candidates_tag d c Hnd Hc) as (t & a & Hd & Ht).
  unfold scoreNode, score_without_own_tag. rewrite Hd.
  set (base := Qmin _ _). set (p := inject_Z _).
  assert (Hown : (toLowerCase (tagName (Element t a)) =? "nav")%string
                 || (toLowerCase (tagName (Element t a)) =? "aside")%string
                 || (toLowerCase (tagName (Element t a)) =? "footer")%string
                 || (toLowerCase (tagName (Element t a)) =? "header")%string
                 = false).
  { destruct Ht as [->| [->| ->]]; reflexivity. }
  rewrite Hown.
  destruct (test re_unlikely _), (test re_likely _); unfold indicator; ring.
Qed.

End Locator.

(** ** Runs of the monad *)

Lemma bind_Done {A B} (m : M A) (k : A -> M B) d b d' :
  bind m k d = Done b d' <->
  exists a d1, m d = Done a d1 /\ k a d1 = Done b d'.
Proof.
  unfold bind. destruct (m d) as [a d1| |]; split.
  - eauto.
  - by intros (? & ? & [= <- <-] & ?).
  - done.
  - by intros (? & ? & ? & _).
  - done.
  - by intros (? & ? & ? & _).
Qed.

Lemma gets_Done {A} (g : document -> A) d a d' :
  gets g d = Done a d' <-> a = g d /\ d' = d.
Proof. unfold gets. split; [by intros [= <- <-] | by intros [-> ->]]. Qed.

Lemma ret_Done {A} (x : A) d a d' :
  ret x d = Done a d' <-> a = x /\ d' = d.
Proof. unfold ret. split; [by intros [= <- <-] | by intros [-> ->]]. Qed.

(** *** Projections that a run leaves alone *)

Lemma preserves_ret {A B} (g : document -> B) (x : A) : preserves g (ret x).
Proof. by intros d a d' [_ ->]%ret_Done. Qed.

Lemma preserves_gets {A B} (g : document -> B) (h : document -> A) :
  preserves g (gets h).
Proof. by intros d a d' [_ ->]%gets_Done. Qed.

Lemma preserves_throw {A B} (g : document -> B) e : preserves g (@throw A e).
Proof. by intros d a d'. Qed.

Lemma preserves_bind {A B C} (g : document -> C) (m : M A) (k : A -> M B) :
  preserves g m -> (forall a, preserves g (k a)) -> preserves g (bind m k).
Proof.
  intros Hm Hk d b d' (a & d1 & H1 & H2)%bind_Done.
  rewrite (Hk _ _ _ _ H2). eauto.
Qed.

Section Blind.

Context {B : Type} (g : document -> B) (Hg : store_blind g).

Lemma preserves_getAttribute x k : preserves g (getAttribute x k).
Proof.
  intros d a d'. unfold getAttribute.
  destruct (lookup_node _ _) as [[[]?]|]; [|done..]. by intros [= _ <-].
Qed.

Lemma preserves_setAttribute x k v : preserves g (setAttribute x k v).
Proof.
  intros d a d'. unfold setAttribute.
  destruct (lookup_node _ _) as [[[]?]|]; [|done..]. intros [= _ <-]. apply Hg.
Qed.

Lemma preserves_firstChild x : preserves g (firstChild x).
Proof.
  intros d a d'. unfold firstChild.
  destruct (lookup_node _ _) as [[? []]|]; [| |done]; by intros [= _ <-].
Qed.

Lemma preserves_removeChild p c : preserves g (removeChild p c).
Proof.
  intros d a d'. unfold removeChild.
  destruct (find_parent _ _ _) as [[p'|]|]; [|done..].
  destruct (p' =? p)%nat; [|done]. intros [= _ <-]. apply Hg.
Qed.

Lemma preserves_appendChild p c : preserves g (appendChild p c).
Proof.
  intros d a d'. unfold appendChild.
  destruct (lookup_node p (store d)); [|done].
  destruct (lookup_node c (store d)); [|done].
  destruct (lookup_node p (cut c (store d))) as [[[]?]|]; [|done..].
  intros [= _ <-]. apply Hg.
Qed.

Lemma preserves_createElement name : preserves g (createElement name).
Proof. intros d a d' [= _ <-]. apply Hg. Qed.

Lemma preserves_set_textContent x s : preserves g (set_textContent x s).
Proof.
  intros d a d'. unfold set_textContent.
  destruct (lookup_node _ _) as [[? old]|]; [|done].
  destruct (truthy s); intros [= _ <-]; apply Hg.
Qed.

Lemma preserves_cloneNode x : preserves g (cloneNode x).
Proof.
  intros d a d'. unfold cloneNode.
  destruct (lookup_node _ _) as [[nd k]|]; [|done].
  destruct (relabel _ _) as [c n]. intros [= _ <-]. apply Hg.
Qed.

Lemma preserves_while_firstChild fuel x step :
  (forall c, preserves g (step c)) ->
  preserves g (while_firstChild fuel x step).
Proof.
  intros Hs. induction fuel as [|n IH]; simpl; [done|].
  apply preserves_bind; [apply preserves_firstChild|].
  intros [c|]; [|apply preserves_ret].
  apply preserves_bind; auto.
Qed.

Lemma preserves_remove_all els : preserves g (remove_all els).
Proof.
  induction els as [|el els IH]; simpl; [apply preserves_ret|].
  apply preserves_bind; [apply preserves_gets|].
  intros [p|]; [|apply preserves_throw].
  apply preserves_bind; [apply preserves_removeChild | auto].
Qed.

Lemma preserves_strip_tags tags clone : preserves g (strip_tags tags clone).
Proof.
  induction tags as [|t tags IH]; simpl; [apply preserves_ret|].
  apply preserves_bind; [apply preserves_gets|]. intros els.
  apply preserves_bind; [apply preserves_remove_all | auto].
Qed.

Lemma preserves_strip_class_step el : preserves g (strip_class_step el).
Proof.
  unfold strip_class_step.
  apply preserves_bind; [apply preserves_gets|]. intros ci.
  destruct (test re_strip ci); [|apply preserves_ret].
  apply preserves_bind; [apply preserves_gets|].
  intros [p|]; [apply preserves_removeChild | apply preserves_ret].
Qed.

Lemma preserves_strip_classes els : preserves g (strip_classes els).
Proof.
  induction els as [|el els IH]; simpl; [apply preserves_ret|].
  apply preserves_bind; [apply preserves_strip_class_step | auto].
Qed.

Lemma preserves_clean content : preserves g (clean content).
Proof.
  unfold clean.
  apply preserves_bind; [apply preserves_cloneNode|]. intros clone.
  apply preserves_bind; [apply preserves_strip_tags|]. intros _.
  apply preserves_bind; [apply preserves_gets|]. intros els.
  apply preserves_bind; [apply preserves_strip_classes|]. intros _.
  apply preserves_ret.
Qed.

End Blind.

Create HintDb frame.
#[export] Hint Resolve preserves_ret preserves_gets preserves_throw
  preserves_getAttribute preserves_setAttribute preserves_firstChild
  preserves_removeChild preserves_appendChild preserves_createElement
  preserves_set_textContent preserves_cloneNode preserves_while_firstChild
  preserves_remove_all preserves_strip_tags preserves_strip_class_step
  preserves_strip_classes preserves_clean : frame.

Ltac frame :=
  repeat first
    [ apply preserves_bind; [|intros ?]
    | solve [eauto with frame] ].

Lemma store_blind_body : store_blind doc_body.
Proof. by split. Qed.

Lemma store_blind_head : store_blind doc_head.
Proof. by split. Qed.

Lemma store_blind_root : store_blind documentElement.
Proof. by split. Qed.

Lemma store_blind_title : store_blind doc_title.
Proof. by split. Qed.

Lemma store_blind_effects : store_blind effects.
Proof. by split. Qed.

#[export] Hint Resolve store_blind_body store_blind_head store_blind_root
  store_blind_title store_blind_effects : frame.

Lemma preserves_set_title {B} (g : document -> B) s :
  (forall d, g (with_title d s) = g d) -> preserves g (set_title s).
Proof. intros Hg d a d' [= _ <-]. apply Hg. Qed.

Lemma preserves_scrollTo {B} (g : document -> B) x y :
  (forall d, g (with_effect d (ScrollTo x y)) = g d) -> preserves g (scrollTo x y).
Proof. intros Hg d a d' [= _ <-]. apply Hg. Qed.

#[export] Hint Resolve preserves_set_title preserves_scrollTo : frame.

Lemma preserves_rebuild_head {B} (g : document -> B) :
  store_blind g -> preserves g rebuild_head.
Proof. intros Hg. unfold rebuild_head. frame. Qed.

Lemma preserves_rebuild_style {B} (g : document -> B) :
  store_blind g -> preserves g rebuild_style.
Proof. intros Hg. unfold rebuild_style. frame. Qed.

Lemma preserves_rebuild_body {B} (g : document -> B) title clone :
  store_blind g -> preserves g (rebuild_body title clone).
Proof. intros Hg. unfold rebuild_body, rebuild_heading, transfer. frame. Qed.

#[export] Hint Resolve preserves_rebuild_head preserves_rebuild_style
  preserves_rebuild_body : frame.

(** ** Lemmas on attributes *)

Lemma assoc_assoc_set k v a : assoc k (assoc_set k v a) = Some v.
Proof.
  induction a as [|[k' v'] a IH]; simpl.
  - by rewrite String.eqb_refl.
  - destruct (String.eqb_spec k' k) as [->|Hne]; simpl.
    + by rewrite String.eqb_refl.
    + by destruct (String.eqb_spec k' k).
Qed.

Lemma lookup_node_update x y g f :
  lookup_node x (update y g f)
  = match lookup_node x f with
    | Some (d, k) => Some (if (x =? y)%nat then g d else d, update y g k)
    | None => None
    end.
Proof.
  induction f as [|i d k IHk s IHs]; simpl; [done|].
  destruct (Nat.eqb_spec i x) as [->|Hne]; [done|].
  rewrite IHk, IHs. by destruct (lookup_node x k) as [[]|].
Qed.

(** ** The guard, the title and the flag *)

Lemma in_reader_mode_run d b d' :
  in_reader_mode d = Done b d' -> b = mode_flag d /\ d' = d.
Proof.
  unfold in_reader_mode, mode_flag, getAttribute. intros H.
  apply bind_Done in H as (b0 & d0 & [-> ->]%gets_Done & H).
  apply bind_Done in H as (fl & d1 & Hget & [-> ->]%ret_Done).
  destruct (lookup_node _ _) as [[[tg al|s] k]|]; [|done..].
  by injection Hget as <- <-.
Qed.

Lemma in_reader_mode_true d :
  mode_flag d = true -> in_reader_mode d = Done true d.
Proof.
  unfold in_reader_mode, mode_flag, getAttribute, bind, gets, ret. simpl.
  destruct (lookup_node _ _) as [[[tg al|s] k]|]; [|done..].
  simpl. by intros ->.
Qed.

Lemma mark_and_scroll_flag d d' :
  mark_and_scroll d = Done tt d' ->
  mode_flag d' = true /\ doc_body d' = doc_body d.
Proof.
  unfold mark_and_scroll. intros H.
  apply bind_Done in H as (b0 & d0 & [-> ->]%gets_Done & H).
  apply bind_Done in H as ([] & d1 & Hset & H).
  unfold setAttribute in Hset.
  destruct (lookup_node _ _) as [[[tg al|s] k]|] eqn:E; [|done..].
  injection Hset as <-. injection H as <-. split; [|done].
  unfold mode_flag. cbn [store doc_body with_effect with_store].
  rewrite lookup_node_update, E, Nat.eqb_refl. simpl.
  by rewrite assoc_assoc_set.
Qed.

Section Toggle.

Variable innerText : forest -> node_id -> string.

Lemma preserves_prepare {B} (g : document -> B) :
  store_blind g -> preserves g (prepare innerText).
Proof. intros Hg. unfold prepare. frame. Qed.

Lemma prepare_title d t c d1 :
  prepare innerText d = Done (t, c) d1 -> t = extract_title innerText d.
Proof.
  unfold prepare. intros H.
  apply bind_Done in H as (c0 & d0 & [-> ->]%gets_Done & H).
  apply bind_Done in H as (t0 & d2 & [-> ->]%gets_Done & H).
  apply bind_Done in H as (c1 & d3 & _ & [[= <- _] _]%ret_Done). done.
Qed.

(** The reader-mode run of a page that is not in reader mode, in its two
    phases. *)
Lemma reader_mode_phases d d' :
  mode_flag d = false ->
  reader_mode innerText d = Done tt d' ->
  exists t c d1,
    prepare innerText d = Done (t, c) d1 /\ rebuild t c d1 = Done tt d'.
Proof.
  intros Hf H. unfold reader_mode in H.
  apply bind_Done in H as (on & d0 & Hg & H).
  apply in_reader_mode_run in Hg as [-> ->]. rewrite Hf in H.
  apply bind_Done in H as ([t c] & d1 & Hp & H). eauto.
Qed.

Lemma reader_mode_guarded d :
  mode_flag d = true ->
  reader_mode innerText d = location_reload d.
Proof.
  intros Hf. unfold reader_mode, bind.
  by rewrite (in_reader_mode_true d Hf).
Qed.

(** C2. When the mode flag reads true at invocation the run is: reload,
    return.  The store, the allocator and the title are those of the
    start, so nothing was cloned, removed, created or rebuilt. *)
Theorem reader_mode_on_reader_page_reloads d :
  mode_flag d = true ->
  reader_mode innerText d = Done tt (with_effect d Reload).
Proof. intros Hf. by rewrite reader_mode_guarded. Qed.

(** The title the script extracts: the text of the first h1 when there is
    one and its text is not empty, else the title of the document. *)
Lemma extract_title_cases d :
  (forall h, document_querySelector d [SType "h1"] = Some h ->
             innerText (store d) h <> "" ->
             extract_title innerText d = innerText (store d) h) /\
  (forall h, document_querySelector d [SType "h1"] = Some h ->
             innerText (store d) h = "" ->
             extract_title innerText d = doc_title d) /\
  (document_querySelector d [SType "h1"] = None ->
   extract_title innerText d = doc_title d).
Proof.
  unfold extract_title. repeat split.
  - intros h -> Hne. by destruct (innerText (store d) h).
  - by intros h -> ->.
  - by intros ->.
Qed.


(** C7. After a rebuild the attribute [data-reader-mode] of the body reads
    ["true"]; the body is the node it was, and the guard of the next
    invocation reads that attribute from that node and reloads. *)
Theorem rebuilt_page_is_flagged d d' :
  mode_flag d = false ->
  reader_mode innerText d = Done tt d' ->
  mode_flag d' = true /\
  doc_body d' = doc_body d /\
  in_reader_mode d' = Done true d' /\
  reader_mode innerText d' = Done tt (with_effect d' Reload).
Proof.
  intros Hf H.
  destruct (reader_mode_phases d d' Hf H) as (t & c & d1 & Hp & Hr).
  assert (Hb1 : doc_body d1 = doc_body d).
  { eapply (preserves_prepare doc_body); eauto with frame. }
  unfold rebuild in Hr.
  apply bind_Done in Hr as (? & d2 & H2 & Hr).
  apply bind_Done in Hr as (? & d3 & H3 & Hr).
  apply bind_Done in Hr as (? & d4 & H4 & Hr).
  apply bind_Done in Hr as (? & d5 & H5 & Hr).
  apply mark_and_scroll_flag in Hr as [Hflag Hb].
  assert (doc_body d2 = doc_body d1)
    by (eapply (preserves_rebuild_head doc_body); eauto with frame).
  assert (doc_body d3 = doc_body d2)
    by (unfold set_title in H3; by simplify_eq).
  assert (doc_body d4 = doc_body d3)
    by (eapply (preserves_rebuild_style doc_body); eauto with frame).
  assert (doc_body d5 = doc_body d4)
    by (eapply (preserves_rebuild_body doc_body); eauto with frame).
  split; [done|]. split; [congruence|].
  split; [by apply in_reader_mode_true|].
  by rewrite reader_mode_guarded.
Qed.

End Toggle.

(** ** The class/id pass *)

Lemma removeChild_of_parent d el p :
  parentNode (store d) el = Some p ->
  removeChild p el d
  = Done tt (with_store d (fapp (cut el (store d)) (cutoff el (store d)))).
Proof.
  unfold parentNode, removeChild.
  destruct (find_parent None el (store d)) as [[p'|]|]; [|done..].
  intros [= ->]. by rewrite Nat.eqb_refl.
Qed.

Lemma strip_class_step_runs el d :
  exists d', strip_class_step el d = Done tt d'.
Proof.
  unfold strip_class_step, bind, gets, ret.
  destruct (test re_strip _); [|eauto].
  destruct (parentNode (store d) el) as [p|] eqn:Hp; [|eauto].
  rewrite (removeChild_of_parent _ _ _ Hp). eauto.
Qed.

Lemma strip_classes_runs allEls d :
  exists d', strip_classes allEls d = Done tt d'.
Proof.
  revert d. induction allEls as [|el els IH]; intros d; simpl.
  - by exists d.
  - unfold bind. destruct (strip_class_step_runs el d) as [d1 ->].
    apply IH.
Qed.

(** C8. In the class/id pass an element whose parent reference is null is
    skipped: the step returns the document as it found it.  The pass as a
    whole never dereferences a null parent and never throws, whatever the
    store and whatever the scanned list, detached elements included. *)
Theorem strip_classes_never_throws :
  (forall el d, parentNode (store d) el = None ->
                strip_class_step el d = Done tt d) /\
  (forall allEls d, exists d', strip_classes allEls d = Done tt d').
Proof.
  split.
  - intros el d Hp. unfold strip_class_step, bind, gets, ret.
    destruct (test re_strip _); [|done]. by rewrite Hp.
  - apply strip_classes_runs.
Qed.

(** ** Cutting, grafting and updating *)

Lemma lookup_node_fapp x a b :
  lookup_node x (fapp a b)
  = match lookup_node x a with
    | Some r => Some r
    | None => lookup_node x b
    end.
Proof.
  induction a as [|i d k _ s IH]; simpl; [done|].
  destruct (i =? x)%nat; [done|]. by destruct (lookup_node x k).
Qed.

Lemma find_parent_fapp up x a b :
  find_parent up x (fapp a b)
  = match find_parent up x a with
    | Some r => Some r
    | None => find_parent up x b
    end.
Proof.
  induction a as [|i d k _ s IH]; simpl; [done|].
  destruct (i =? x)%nat; [done|]. by destruct (find_parent (Some i) x k).
Qed.

Lemma find_parent_None up x f : find_parent up x f = None <-> (x ∉ ids f).
Proof.
  revert up. induction f as [|i d k IHk s IHs]; intros up; simpl.
  - split; [intros _; apply not_elem_of_nil | done].
  - rewrite ids_Node, not_elem_of_cons, not_elem_of_app,
      <- (IHk (Some i)), <- (IHs up).
    destruct (Nat.eqb_spec i x) as [->|Hne].
    + split; [done | intros [? _]; congruence].
    + destruct (find_parent (Some i) x k); split; try done; try tauto.
Qed.

(** Inside the children of [q], the parent of a node is [q] or one of
    those children's descendants. *)
Lemma find_parent_inside q x f :
  x ∈ ids f ->
  exists p, find_parent (Some q) x f = Some (Some p) /\ (p = q \/ p ∈ ids f).
Proof.
  revert q. induction f as [|i d k IHk s IHs]; intros q Hx.
  - by apply elem_of_nil in Hx.
  - rewrite ids_Node in Hx. simpl.
    destruct (Nat.eqb_spec i x) as [->|Hne]; [by eauto|].
    apply elem_of_cons in Hx as [->|Hx]; [done|].
    destruct (find_parent (Some i) x k) as [r|] eqn:Hk.
    + assert (Hxk : x ∈ ids k).
      { destruct (decide (x ∈ ids k)) as [|Hn]; [done|].
        apply (find_parent_None (Some i)) in Hn. congruence. }
      destruct (IHk i Hxk) as (p & Hp & Hin). rewrite Hk in Hp.
      exists p. split; [done|]. right. rewrite ids_Node.
      destruct Hin as [->|Hin]; [by left|].
      right. apply elem_of_app. by left.
    + apply find_parent_None in Hk.
      apply elem_of_app in Hx as [Hx|Hx]; [done|].
      destruct (IHs q Hx) as (p & Hp & Hin). exists p. split; [done|].
      destruct Hin as [->|Hin]; [by left|].
      right. rewrite ids_Node. right. apply elem_of_app. by right.
Qed.

Lemma cut_fapp c a b : cut c (fapp a b) = fapp (cut c a) (cut c b).
Proof.
  induction a as [|i d k _ s IH]; simpl; [done|].
  destruct (i =? c)%nat; simpl; congruence.
Qed.

Lemma cutoff_fapp c a b : cutoff c (fapp a b) = fapp (cutoff c a) (cutoff c b).
Proof.
  induction a as [|i d k _ s IH]; simpl; [done|].
  destruct (i =? c)%nat; simpl; rewrite IH; [done|]. by rewrite fapp_assoc.
Qed.

Lemma graft_fapp p sub a b :
  graft p sub (fapp a b) = fapp (graft p sub a) (graft p sub b).
Proof. induction a as [|i d k _ s IH]; simpl; congruence. Qed.

Lemma update_fapp x g a b :
  update x g (fapp a b) = fapp (update x g a) (update x g b).
Proof. induction a as [|i d k _ s IH]; simpl; congruence. Qed.

Lemma set_kids_fapp x new a b :
  set_kids x new (fapp a b) = fapp (set_kids x new a) (set_kids x new b).
Proof. induction a as [|i d k _ s IH]; simpl; congruence. Qed.

Lemma not_in_Node x i d k s :
  (x ∉ ids (Node i d k s)) <-> i <> x /\ (x ∉ ids k) /\ (x ∉ ids s).
Proof.
  rewrite ids_Node, not_elem_of_cons, not_elem_of_app.
  split; intros (? & ? & ?); repeat split; auto.
Qed.

Lemma cut_not_in c f : c ∉ ids f -> cut c f = f.
Proof.
  induction f as [|i d k IHk s IHs]; simpl; [done|].
  intros (Hi & Hk & Hs)%not_in_Node.
  destruct (Nat.eqb_spec i c); [done|]. by rewrite IHk, IHs.
Qed.

Lemma cutoff_not_in c f : c ∉ ids f -> cutoff c f = Nil.
Proof.
  induction f as [|i d k IHk s IHs]; simpl; [done|].
  intros (Hi & Hk & Hs)%not_in_Node.
  destruct (Nat.eqb_spec i c); [done|]. by rewrite IHk, IHs.
Qed.

Lemma graft_not_in p sub f : p ∉ ids f -> graft p sub f = f.
Proof.
  induction f as [|i d k IHk s IHs]; simpl; [done|].
  intros (Hi & Hk & Hs)%not_in_Node.
  destruct (Nat.eqb_spec i p); [done|]. by rewrite IHk, IHs.
Qed.

Lemma update_not_in x g f : x ∉ ids f -> update x g f = f.
Proof.
  induction f as [|i d k IHk s IHs]; simpl; [done|].
  intros (Hi & Hk & Hs)%not_in_Node.
  destruct (Nat.eqb_spec i x); [done|]. by rewrite IHk, IHs.
Qed.

Lemma set_kids_not_in x new f : x ∉ ids f -> set_kids x new f = f.
Proof.
  induction f as [|i d k IHk s IHs]; simpl; [done|].
  intros (Hi & Hk & Hs)%not_in_Node.
  destruct (Nat.eqb_spec i x); [done|]. by rewrite IHk, IHs.
Qed.

(** Cutting only loses nodes, and loses every node named [c]. *)
Lemma nodes_cut_sublist c f : nodes (cut c f) `sublist_of` nodes f.
Proof.
  induction f as [|i d k IHk s IHs]; simpl; [done|].
  destruct (i =? c)%nat.
  - apply sublist_cons. etrans; [apply IHs|]. apply sublist_inserts_l. done.
  - simpl. apply sublist_skip. by apply sublist_app.
Qed.

Lemma nodes_cut_sub c f : nodes (cut c f) ⊆ nodes f.
Proof. intros x Hx. eapply elem_of_sublist; [done | apply nodes_cut_sublist]. Qed.

Lemma ids_cut_sub c f : ids (cut c f) ⊆ ids f.
Proof.
  intros x (p & -> & Hp)%list_elem_of_fmap. apply list_elem_of_fmap.
  exists p. split; [done|]. by apply nodes_cut_sub in Hp.
Qed.

Lemma cut_gone c f : c ∉ ids (cut c f).
Proof.
  induction f as [|i d k IHk s IHs]; simpl; [apply not_elem_of_nil|].
  destruct (Nat.eqb_spec i c); [done|]. by apply not_in_Node.
Qed.

Lemma nodes_cut_cutoff c f : nodes (cut c f) ++ nodes (cutoff c f) ≡ₚ nodes f.
Proof.
  induction f as [|i d k IHk s IHs]; [done|]. cbn [cut cutoff].
  destruct (i =? c)%nat.
  - cbn [nodes]. rewrite <- IHs. solve_Permutation.
  - cbn [nodes]. rewrite nodes_fapp, <- IHk, <- IHs. solve_Permutation.
Qed.

Lemma ids_cut_cutoff c f : ids (cut c f) ++ ids (cutoff c f) ≡ₚ ids f.
Proof. unfold ids. by rewrite <- fmap_app, nodes_cut_cutoff. Qed.

Lemma ids_update x g f : ids (update x g f) = ids f.
Proof.
  induction f as [|i d k IHk s IHs]; [done|]. cbn [update].
  by rewrite !ids_Node, IHk, IHs.
Qed.

Lemma NoDup_Node i d k s :
  NoDup (ids (Node i d k s)) ->
  (i ∉ ids k) /\ (i ∉ ids s) /\ NoDup (ids k) /\ NoDup (ids s) /\
  (forall x, x ∈ ids k -> x ∉ ids s).
Proof.
  rewrite ids_Node. intros [Hi Hks]%NoDup_cons.
  apply not_elem_of_app in Hi as [? ?].
  apply NoDup_app in Hks as (? & ? & ?). auto.
Qed.

Lemma nodes_graft p sub f :
  NoDup (ids f) -> p ∈ ids f -> nodes (graft p sub f) ≡ₚ nodes f ++ nodes sub.
Proof.
  induction f as [|i d k IHk s IHs]; intros Hnd Hp.
  - by apply elem_of_nil in Hp.
  - destruct (NoDup_Node _ _ _ _ Hnd) as (Hik & His & Hk & Hs & Hdis).
    rewrite ids_Node in Hp. cbn [graft].
    destruct (Nat.eqb_spec i p) as [->|Hne].
    + rewrite !graft_not_in by done. cbn [nodes]. rewrite nodes_fapp.
      solve_Permutation.
    + apply elem_of_cons in Hp as [->|Hp]; [done|].
      apply elem_of_app in Hp as [Hp|Hp].
      * rewrite (graft_not_in p sub s) by auto.
        cbn [nodes]. rewrite (IHk Hk Hp). solve_Permutation.
      * assert (p ∉ ids k) by (intros ?; by eapply Hdis).
        rewrite (graft_not_in p sub k) by done.
        cbn [nodes]. rewrite (IHs Hs Hp). solve_Permutation.
Qed.

Lemma ids_graft p sub f :
  NoDup (ids f) -> p ∈ ids f -> ids (graft p sub f) ≡ₚ ids f ++ ids sub.
Proof.
  intros Hnd Hp. unfold ids. by rewrite <- fmap_app, nodes_graft.
Qed.

Lemma lookup_node_not_self x f d k :
  NoDup (ids f) -> lookup_node x f = Some (d, k) -> x ∉ ids k.
Proof.
  intros Hnd (pre & post & E & _)%lookup_node_split Hx.
  unfold ids in Hnd. rewrite E, fmap_app, fmap_cons, fmap_app in Hnd.
  apply NoDup_app in Hnd as (_ & _ & Hnd).
  apply NoDup_cons in Hnd as [Hn _]. apply Hn.
  apply elem_of_app. by left.
Qed.

Lemma nodes_set_kids x new f d old :
  NoDup (ids f) -> lookup_node x f = Some (d, old) ->
  nodes (set_kids x new f) ++ nodes old ≡ₚ nodes f ++ nodes new.
Proof.
  induction f as [|i nd k IHk s IHs]; intros Hnd Hl; [done|].
  destruct (NoDup_Node _ _ _ _ Hnd) as (Hik & His & Hk & Hs & Hdis).
  cbn [set_kids lookup_node] in *. destruct (Nat.eqb_spec i x) as [->|Hne].
  - injection Hl as <- <-. rewrite (set_kids_not_in x new s) by done.
    cbn [nodes]. solve_Permutation.
  - destruct (lookup_node x k) as [r|] eqn:Ek.
    + injection Hl as ->.
      assert (x ∈ ids k).
      { destruct (decide (x ∈ ids k)) as [|Hn]; [done|].
        apply lookup_node_None in Hn. congruence. }
      rewrite (set_kids_not_in x new s) by auto.
      cbn [nodes].
      trans ((i, nd) :: (nodes (set_kids x new k) ++ nodes old) ++ nodes s);
        [solve_Permutation|].
      rewrite (IHk Hk eq_refl). solve_Permutation.
    + apply lookup_node_None in Ek.
      rewrite (set_kids_not_in x new k) by done.
      cbn [nodes].
      trans ((i, nd) :: nodes k ++ (nodes (set_kids x new s) ++ nodes old));
        [solve_Permutation|].
      rewrite (IHs Hs Hl). solve_Permutation.
Qed.

Lemma ids_set_kids x new f d old :
  NoDup (ids f) -> lookup_node x f = Some (d, old) ->
  ids (set_kids x new f) ++ ids old ≡ₚ ids f ++ ids new.
Proof.
  intros Hnd Hl. unfold ids. by rewrite <- !fmap_app, (nodes_set_kids _ _ _ _ _ Hnd Hl).
Qed.

Lemma relabel_ids n f :
  ids (relabel n f).1 = seq n (length (ids f)) /\
  (relabel n f).2 = n + length (ids f).
Proof.
  revert n. induction f as [|i d k IHk s IHs]; intros n; cbn [relabel].
  - split; [done | unfold ids; cbn; lia].
  - destruct (IHk (S n)) as [Ek1 Ek2]. destruct (relabel (S n) k) as [k' n1].
    destruct (IHs n1) as [Es1 Es2]. destruct (relabel n1 s) as [s' n2].
    cbn [fst snd] in *. rewrite !ids_Node, length_cons, length_app.
    rewrite Ek1, Es1, Ek2, Es2. split; [|lia].
    cbn [seq]. f_equal. by rewrite seq_app.
Qed.

(** ** What a completed host operation did *)

Lemma removeChild_Done p c d u d' :
  removeChild p c d = Done u d' ->
  find_parent None c (store d) = Some (Some p) /\
  d' = with_store d (fapp (cut c (store d)) (cutoff c (store d))).
Proof.
  unfold removeChild.
  destruct (find_parent None c (store d)) as [[p'|]|]; [|done..].
  destruct (Nat.eqb_spec p' p) as [->|]; [|done]. by intros [= _ <-].
Qed.

Lemma appendChild_Done p c d u d' :
  appendChild p c d = Done u d' ->
  (exists t a k, lookup_node p (cut c (store d)) = Some (Element t a, k)) /\
  d' = with_store d (graft p (cutoff c (store d)) (cut c (store d))).
Proof.
  unfold appendChild.
  destruct (lookup_node p (store d)); [|done].
  destruct (lookup_node c (store d)); [|done].
  destruct (lookup_node p (cut c (store d))) as [[[t a|] k]|]; [|done..].
  intros [= _ <-]. eauto.
Qed.

Lemma firstChild_Done x d r d' :
  firstChild x d = Done r d' ->
  d' = d /\
  exists nd k, lookup_node x (store d) = Some (nd, k) /\
               r = match k with Nil => None | Node c _ _ _ => Some c end.
Proof.
  unfold firstChild.
  destruct (lookup_node x (store d)) as [[nd [|c cd ck cs]]|] eqn:E; [| |done];
    intros [= <- <-]; eauto.
Qed.

Lemma setAttribute_Done x k v d u d' :
  setAttribute x k v d = Done u d' ->
  (exists t a ks, lookup_node x (store d) = Some (Element t a, ks)) /\
  d' = with_store d (update x (set_attr k v) (store d)).
Proof.
  unfold setAttribute.
  destruct (lookup_node x (store d)) as [[[t a|] ks]|]; [|done..].
  intros [= _ <-]. eauto.
Qed.

Lemma set_textContent_Done x s d u d' :
  set_textContent x s d = Done u d' ->
  exists nd old, lookup_node x (store d) = Some (nd, old) /\
    d' = if truthy s
         then with_alloc d
                (fapp (set_kids x (Node (fresh d) (Text s) Nil Nil) (store d)) old)
                (S (fresh d))
         else with_store d (fapp (set_kids x Nil (store d)) old).
Proof.
  unfold set_textContent.
  destruct (lookup_node x (store d)) as [[nd old]|]; [|done].
  destruct (truthy s); intros [= _ <-]; eauto.
Qed.

Lemma cloneNode_Done x d c d' :
  cloneNode x d = Done c d' ->
  c = fresh d /\
  exists nd k, lookup_node x (store d) = Some (nd, k) /\
    d' = with_alloc d (fapp (store d) (relabel (fresh d) (Node x nd k Nil)).1)
                    (relabel (fresh d) (Node x nd k Nil)).2.
Proof.
  unfold cloneNode.
  destruct (lookup_node x (store d)) as [[nd k]|]; [|done].
  destruct (relabel _ _) as [c0 n] eqn:E. intros [= <- <-]. split; [done|].
  exists nd, k. by rewrite E.
Qed.

(** ** The store stays well formed *)

Ltac proj :=
  cbn [store fresh documentElement doc_head doc_body doc_title effects
       with_store with_alloc with_title with_effect].

Lemma store_ok_perm d d' :
  ids (store d') ≡ₚ ids (store d) -> fresh d' = fresh d ->
  store_ok d -> store_ok d'.
Proof. intros Hp Hf [? ?]. split; rewrite Hp, ?Hf; done. Qed.

Lemma removeChild_store_ok p c d u d' :
  store_ok d -> removeChild p c d = Done u d' -> store_ok d'.
Proof.
  intros Hok [_ ->]%removeChild_Done.
  eapply store_ok_perm; [| |done]; [|done].
  proj. by rewrite ids_fapp, ids_cut_cutoff.
Qed.

Lemma appendChild_store_ok p c d u d' :
  store_ok d -> appendChild p c d = Done u d' -> store_ok d'.
Proof.
  intros Hok [(t & a & k & Hl) ->]%appendChild_Done.
  eapply store_ok_perm; [| |done]; [|done]. proj.
  destruct Hok as [Hnd _]. rewrite <- (ids_cut_cutoff c) in Hnd.
  apply NoDup_app in Hnd as (Hnd & _ & _).
  rewrite ids_graft; [apply ids_cut_cutoff | done |].
  apply lookup_node_elem in Hl. apply list_elem_of_fmap. by exists (p, Element t a).
Qed.

Lemma setAttribute_store_ok x k v d u d' :
  store_ok d -> setAttribute x k v d = Done u d' -> store_ok d'.
Proof.
  intros Hok [_ ->]%setAttribute_Done.
  eapply store_ok_perm; [| |done]; [|done]. proj. by rewrite ids_update.
Qed.

Lemma createElement_store_ok name d h d' :
  store_ok d -> createElement name d = Done h d' -> store_ok d'.
Proof.
  intros [Hnd Hlt] [= <- <-]. split; proj; rewrite ids_fapp, ids_Node.
  - apply NoDup_app. split; [done|]. split; [|apply NoDup_singleton].
    intros x Hx [->|[]%elem_of_nil]%elem_of_cons.
    rewrite Forall_forall in Hlt. specialize (Hlt _ Hx). lia.
  - apply Forall_app. split.
    + eapply Forall_impl; [done|]. simpl. lia.
    + apply Forall_singleton. lia.
Qed.

Lemma set_textContent_store_ok x s d u d' :
  store_ok d -> set_textContent x s d = Done u d' -> store_ok d'.
Proof.
  intros [Hnd Hlt] (nd & old & Hl & ->)%set_textContent_Done.
  destruct (truthy s).
  - pose proof (ids_set_kids x (Node (fresh d) (Text s) Nil Nil) _ _ _ Hnd Hl)
      as Hp.
    split; proj; rewrite ids_fapp, Hp, ids_Node.
    + apply NoDup_app. split; [done|]. split; [|apply NoDup_singleton].
      intros y Hy [->|[]%elem_of_nil]%elem_of_cons.
      rewrite Forall_forall in Hlt. specialize (Hlt _ Hy). lia.
    + apply Forall_app. split.
      * eapply Forall_impl; [done|]. simpl. lia.
      * apply Forall_singleton. lia.
  - pose proof (ids_set_kids x Nil _ _ _ Hnd Hl) as Hp.
    split; proj; rewrite ids_fapp, Hp; by rewrite app_nil_r.
Qed.

Lemma cloneNode_store_ok x d c d' :
  store_ok d -> cloneNode x d = Done c d' -> store_ok d'.
Proof.
  intros [Hnd Hlt] (-> & nd & k & Hl & ->)%cloneNode_Done.
  destruct (relabel_ids (fresh d) (Node x nd k Nil)) as [E1 E2].
  split; proj; rewrite ids_fapp, E1.
  - apply NoDup_app. split; [done|]. split; [|apply NoDup_seq].
    intros y Hy [? _]%elem_of_seq.
    rewrite Forall_forall in Hlt. specialize (Hlt _ Hy). lia.
  - rewrite E2. apply Forall_app. split.
    + eapply Forall_impl; [done|]. simpl. lia.
    + apply Forall_seq. lia.
Qed.

(** ** The clone as a root of the store *)

Lemma clone_at_cut c cd K f e :
  clone_at c cd K f -> e <> c -> clone_at c cd (cut e K) (cut e f).
Proof.
  intros (A & B & ->) Hne. exists (cut e A), (cut e B).
  rewrite cut_fapp. cbn [cut]. by destruct (Nat.eqb_spec c e).
Qed.

Lemma clone_at_fapp c cd K f Z : clone_at c cd K f -> clone_at c cd K (fapp f Z).
Proof.
  intros (A & B & ->). exists A, (fapp B Z). by rewrite fapp_assoc.
Qed.

Lemma clone_at_graft c cd K f p sub :
  clone_at c cd K f -> p <> c -> p ∉ ids K -> clone_at c cd K (graft p sub f).
Proof.
  intros (A & B & ->) Hne Hp. exists (graft p sub A), (graft p sub B).
  rewrite graft_fapp. cbn [graft]. destruct (Nat.eqb_spec c p); [done|].
  by rewrite (graft_not_in p sub K).
Qed.

Lemma clone_at_update c cd K f x g :
  clone_at c cd K f -> x <> c -> x ∉ ids K -> clone_at c cd K (update x g f).
Proof.
  intros (A & B & ->) Hne Hx. exists (update x g A), (update x g B).
  rewrite update_fapp. cbn [update]. destruct (Nat.eqb_spec c x); [done|].
  by rewrite (update_not_in x g K).
Qed.

Lemma clone_at_set_kids c cd K f x new :
  clone_at c cd K f -> x <> c -> x ∉ ids K -> clone_at c cd K (set_kids x new f).
Proof.
  intros (A & B & ->) Hne Hx. exists (set_kids x new A), (set_kids x new B).
  rewrite set_kids_fapp. cbn [set_kids]. destruct (Nat.eqb_spec c x); [done|].
  by rewrite (set_kids_not_in x new K).
Qed.

Lemma NoDup_clone_at A c cd K B :
  NoDup (ids (fapp A (Node c cd K B))) ->
  (c ∉ ids A) /\ (c ∉ ids K) /\ (forall x, x ∈ ids K -> x ∉ ids A) /\ NoDup (ids K).
Proof.
  rewrite ids_fapp. intros (_ & Hdis & Hn)%NoDup_app.
  destruct (NoDup_Node _ _ _ _ Hn) as (? & _ & ? & _ & _).
  split; [|split; [done|split; [|done]]].
  - intros Hc. apply (Hdis c Hc). rewrite ids_Node. by left.
  - intros x Hx HA. apply (Hdis x HA). rewrite ids_Node. right.
    apply elem_of_app. by left.
Qed.

Lemma NoDup_clone_at_r A c cd K B :
  NoDup (ids (fapp A (Node c cd K B))) ->
  (c ∉ ids B) /\ (forall x, x ∈ ids K -> x ∉ ids B).
Proof.
  rewrite ids_fapp. intros (_ & _ & Hn)%NoDup_app.
  destruct (NoDup_Node _ _ _ _ Hn) as (_ & ? & _ & _ & ?). done.
Qed.

Lemma clone_at_lookup c cd K f :
  NoDup (ids f) -> clone_at c cd K f -> lookup_node c f = Some (cd, K).
Proof.
  intros Hnd (A & B & ->). destruct (NoDup_clone_at _ _ _ _ _ Hnd) as (HA & _).
  apply lookup_node_None in HA. rewrite lookup_node_fapp, HA.
  cbn [lookup_node]. by rewrite Nat.eqb_refl.
Qed.

Lemma clone_at_root c cd K f :
  NoDup (ids f) -> clone_at c cd K f -> find_parent None c f = Some None.
Proof.
  intros Hnd (A & B & ->). destruct (NoDup_clone_at _ _ _ _ _ Hnd) as (HA & _).
  apply (find_parent_None None) in HA. rewrite find_parent_fapp, HA.
  cbn [find_parent]. by rewrite Nat.eqb_refl.
Qed.

Lemma clone_at_inner c cd K f x :
  NoDup (ids f) -> clone_at c cd K f -> x ∈ ids K ->
  exists p, find_parent None x f = Some (Some p) /\ (p = c \/ p ∈ ids K).
Proof.
  intros Hnd (A & B & ->) Hx.
  destruct (NoDup_clone_at _ _ _ _ _ Hnd) as (_ & HcK & HA & _).
  specialize (HA _ Hx). apply (find_parent_None None) in HA.
  rewrite find_parent_fapp, HA. cbn [find_parent].
  destruct (Nat.eqb_spec c x) as [->|_]; [done|].
  destruct (find_parent_inside c x K Hx) as (p & -> & Hp). eauto.
Qed.

(** A node whose parent is outside the clone is outside the clone. *)
Lemma clone_at_outside c cd K f x p :
  NoDup (ids f) -> clone_at c cd K f ->
  find_parent None x f = Some (Some p) ->
  p <> c -> p ∉ ids K ->
  x <> c /\ x ∉ ids K.
Proof.
  intros Hnd Hc Hp Hpc HpK. split.
  - intros ->. rewrite (clone_at_root _ _ _ _ Hnd Hc) in Hp. done.
  - intros Hx. destruct (clone_at_inner _ _ _ _ _ Hnd Hc Hx) as (q & Hq & Hin).
    rewrite Hp in Hq. injection Hq as <-. tauto.
Qed.

Lemma relabel_root n x nd k :
  (relabel n (Node x nd k Nil)).1 = Node n nd (relabel (S n) k).1 Nil.
Proof. cbn [relabel]. by destruct (relabel (S n) k). Qed.

(** ** The cleaning passes *)

Lemma elem_of_rev {A} (x : A) (l : list A) : x ∈ rev l <-> x ∈ l.
Proof. rewrite !list_elem_of_In. symmetry. apply in_rev. Qed.

Lemma nodes_cut_all_sublist l K : nodes (cut_all l K) `sublist_of` nodes K.
Proof.
  revert K. induction l as [|e l IH]; intros K; [done|].
  cbn. etrans; [apply IH | apply nodes_cut_sublist].
Qed.

Lemma cut_all_gone l K e : e ∈ l -> e ∉ ids (cut_all l K).
Proof.
  revert K. induction l as [|e' l IH]; intros K Hin.
  - by apply elem_of_nil in Hin.
  - cbn. apply elem_of_cons in Hin as [->|Hin]; [|by apply IH].
    intros (p & -> & Hp)%list_elem_of_fmap.
    apply (cut_gone p.1 K). apply list_elem_of_fmap. exists p. split; [done|].
    eapply elem_of_sublist; [done | apply nodes_cut_all_sublist].
Qed.

Section Cleaning.

Variables (n0 : node_id) (F : forest) (c : node_id) (cd : node_data).
Hypothesis F_old : Forall (fun i => i < n0) (ids F).
Hypothesis c_new : n0 <= c.

Lemma cleaning_kids K d :
  cleaning n0 F c cd K d ->
  children_of (store d) c = K /\
  Forall (fun e => n0 <= e /\ e <> c) (ids K).
Proof.
  intros ([Hnd Hlt] & Hc & X & HX & Hnew).
  pose proof (clone_at_lookup _ _ _ _ Hnd Hc) as Hl.
  split; [unfold children_of; by rewrite Hl|].
  apply Forall_forall. intros e He. split.
  - rewrite HX, lookup_node_fapp in Hl.
    destruct (lookup_node c F) as [r|] eqn:EF.
    + exfalso. assert (c ∈ ids F).
      { destruct (decide (c ∈ ids F)) as [|Hn]; [done|].
        apply lookup_node_None in Hn. congruence. }
      rewrite Forall_forall in F_old. specialize (F_old c H). lia.
    + apply lookup_node_ids_sub in Hl. rewrite Forall_forall in Hnew. auto.
  - intros ->. by apply (lookup_node_not_self _ _ _ _ Hnd Hl).
Qed.

Lemma cleaning_removeChild K d p e u d' :
  n0 <= e -> e <> c ->
  cleaning n0 F c cd K d ->
  removeChild p e d = Done u d' ->
  cleaning n0 F c cd (cut e K) d'.
Proof.
  intros He Hec (Hok & Hc & X & HX & Hnew) Hrun.
  split; [by eapply removeChild_store_ok|].
  apply removeChild_Done in Hrun as [_ ->]. proj. split.
  - apply clone_at_fapp. by apply clone_at_cut.
  - assert (e ∉ ids F).
    { intros Hin. rewrite Forall_forall in F_old. specialize (F_old e Hin). lia. }
    exists (fapp (cut e X) (cutoff e X)). split.
    + rewrite HX, cut_fapp, cutoff_fapp, cut_not_in, cutoff_not_in by done.
      cbn [fapp]. by rewrite fapp_assoc.
    + by rewrite ids_fapp, ids_cut_cutoff.
Qed.

Lemma cleaning_remove_all l K d u d' :
  Forall (fun e => n0 <= e /\ e <> c) l ->
  cleaning n0 F c cd K d ->
  remove_all l d = Done u d' ->
  cleaning n0 F c cd (cut_all l K) d'.
Proof.
  revert K d. induction l as [|e l IH]; intros K d Hl Hinv Hrun.
  - apply ret_Done in Hrun as [_ ->]. done.
  - apply Forall_cons in Hl as [[He Hec] Hl]. cbn [remove_all] in Hrun.
    apply bind_Done in Hrun as (p & d0 & [-> ->]%gets_Done & Hrun).
    destruct (parentNode (store d) e) as [p|]; [|done].
    apply bind_Done in Hrun as (? & d1 & Hrm & Hrun).
    eapply (IH (cut e K)); [done| |done].
    by eapply cleaning_removeChild.
Qed.

Lemma cleaning_strip_tags tags K d u d' :
  cleaning n0 F c cd K d ->
  strip_tags tags c d = Done u d' ->
  exists K', cleaning n0 F c cd K' d' /\
    nodes K' `sublist_of` nodes K /\
    forall i nd t, (i, nd) ∈ nodes K' -> t ∈ tags ->
                   matches [SType t] nd = false.
Proof.
  revert K d. induction tags as [|t tags IH]; intros K d Hinv Hrun.
  - apply ret_Done in Hrun as [_ ->]. exists K. split; [done|].
    split; [done|]. intros i nd t _ Ht. by apply elem_of_nil in Ht.
  - cbn [strip_tags] in Hrun.
    apply bind_Done in Hrun as (els & d0 & [-> ->]%gets_Done & Hrun).
    apply bind_Done in Hrun as (? & d1 & Hrm & Hrun).
    destruct (cleaning_kids K d Hinv) as [HK Hids].
    unfold querySelectorAll in Hrm. rewrite HK in Hrm.
    set (els := select [SType t] (nodes K)) in *.
    assert (Hels : Forall (fun e => n0 <= e /\ e <> c) (rev els)).
    { apply Forall_forall. intros e He.
      apply (proj1 (elem_of_rev _ _)) in He. unfold els in He.
      apply select_elem in He as (nd & He & _).
      rewrite Forall_forall in Hids. apply Hids.
      apply list_elem_of_fmap. by exists (e, nd). }
    pose proof (cleaning_remove_all _ _ _ _ _ Hels Hinv Hrm) as Hinv1.
    destruct (IH _ _ Hinv1 Hrun) as (K' & Hinv' & Hsub & Hclean).
    exists K'. split; [done|]. split.
    + etrans; [done | apply nodes_cut_all_sublist].
    + intros i nd t' Hin [->|Ht']%elem_of_cons; [|by eapply Hclean].
      destruct (matches [SType t] nd) eqn:Hm; [exfalso|done].
      assert (Hin1 : (i, nd) ∈ nodes (cut_all (rev els) K))
        by (by eapply elem_of_sublist).
      apply (cut_all_gone (rev els) K i).
      * apply (proj2 (elem_of_rev _ _)). unfold els.
        apply select_elem. exists nd. split; [|done].
        eapply elem_of_sublist; [done | apply nodes_cut_all_sublist].
      * apply list_elem_of_fmap. by exists (i, nd).
Qed.

Lemma cleaning_strip_class_step el K d u d' :
  n0 <= el -> el <> c ->
  cleaning n0 F c cd K d ->
  strip_class_step el d = Done u d' ->
  exists K', cleaning n0 F c cd K' d' /\
    nodes K' `sublist_of` nodes K /\
    forall nd, (el, nd) ∈ nodes K' -> excluded_class nd = false.
Proof.
  intros Hel Hec Hinv Hrun. unfold strip_class_step in Hrun.
  apply bind_Done in Hrun as (ci & d0 & [-> ->]%gets_Done & Hrun).
  assert (Hdata : forall nd, (el, nd) ∈ nodes K -> data_of (store d) el = nd).
  { intros nd Hin. destruct Hinv as ([Hnd _] & Hc & _).
    apply data_of_unique; [done|].
    eapply lookup_node_sub; [by apply clone_at_lookup | done]. }
  destruct (test re_strip (classId (data_of (store d) el))) eqn:Ht.
  - apply bind_Done in Hrun as (p & d0 & [-> ->]%gets_Done & Hrun).
    destruct (parentNode (store d) el) as [p|] eqn:Hp.
    + exists (cut el K). split; [by eapply cleaning_removeChild|].
      split; [apply nodes_cut_sublist|].
      intros nd Hin. exfalso. apply (cut_gone el K).
      apply list_elem_of_fmap. by exists (el, nd).
    + apply ret_Done in Hrun as [_ ->]. exists K. split; [done|].
      split; [done|]. intros nd Hin. exfalso.
      destruct Hinv as ([Hnd _] & Hc & _).
      assert (Hel' : el ∈ ids K) by (apply list_elem_of_fmap; by exists (el, nd)).
      destruct (clone_at_inner _ _ _ _ _ Hnd Hc Hel') as (q & Hq & _).
      unfold parentNode in Hp. by rewrite Hq in Hp.
  - apply ret_Done in Hrun as [_ ->]. exists K. split; [done|].
    split; [done|]. intros nd Hin. unfold excluded_class.
    by rewrite <- (Hdata nd Hin).
Qed.

Lemma cleaning_strip_classes l K d u d' :
  Forall (fun e => n0 <= e /\ e <> c) l ->
  cleaning n0 F c cd K d ->
  strip_classes l d = Done u d' ->
  exists K', cleaning n0 F c cd K' d' /\
    nodes K' `sublist_of` nodes K /\
    forall i nd, (i, nd) ∈ nodes K' -> i ∈ l -> excluded_class nd = false.
Proof.
  revert K d. induction l as [|el l IH]; intros K d Hl Hinv Hrun.
  - apply ret_Done in Hrun as [_ ->]. exists K. split; [done|].
    split; [done|]. intros i nd _ Hi. by apply elem_of_nil in Hi.
  - apply Forall_cons in Hl as [[Hel Hec] Hl]. cbn [strip_classes] in Hrun.
    apply bind_Done in Hrun as (? & d1 & Hstep & Hrun).
    destruct (cleaning_strip_class_step _ _ _ _ _ Hel Hec Hinv Hstep)
      as (K1 & Hinv1 & Hsub1 & Hel1).
    destruct (IH _ _ Hl Hinv1 Hrun) as (K' & Hinv' & Hsub & Hclean).
    exists K'. split; [done|]. split; [by etrans|].
    intros i nd Hin [->|Hi]%elem_of_cons; [|by eapply Hclean].
    apply Hel1. by eapply elem_of_sublist.
Qed.

End Cleaning.

Lemma excluded_tag_matches nd :
  (forall t, t ∈ removeTags -> matches [SType t] nd = false) ->
  excluded_tag nd = false.
Proof.
  intros H. destruct nd as [t0 a|s]; [|done]. unfold excluded_tag.
  destruct (existsb (String.eqb t0) removeTags) eqn:E; [|done].
  apply existsb_exists in E as (t & Ht & Heq).
  apply list_elem_of_In in Ht. specialize (H t Ht). cbn in H.
  rewrite Heq in H. done.
Qed.

Lemma excluded_class_Text s : excluded_class (Text s) = false.
Proof. reflexivity. Qed.

(** After the two passes the clone is a root of the store, everything
    older than the clone is untouched, and no descendant of the clone falls
    under an exclusion rule. *)
Lemma clean_post content d c d1 :
  store_ok d ->
  clean content d = Done c d1 ->
  c = fresh d /\
  exists cd K,
    cleaning (fresh d) (store d) c cd K d1 /\
    forall i nd, (i, nd) ∈ nodes K ->
                 excluded_tag nd = false /\ excluded_class nd = false.
Proof.
  intros Hok Hrun. unfold clean in Hrun.
  apply bind_Done in Hrun as (c0 & d0 & Hclone & Hrun).
  apply bind_Done in Hrun as (? & d2 & Htags & Hrun).
  apply bind_Done in Hrun as (allEls & d3 & [-> ->]%gets_Done & Hrun).
  apply bind_Done in Hrun as (? & d4 & Hcls & [-> ->]%ret_Done).
  pose proof (cloneNode_store_ok _ _ _ _ Hok Hclone) as Hok0.
  apply cloneNode_Done in Hclone as (-> & nd & k & Hl & Hd0).
  split; [done|]. exists nd.
  assert (Hold : Forall (fun i => i < fresh d) (ids (store d))) by apply Hok.
  set (K0 := (relabel (S (fresh d)) k).1).
  assert (Hinv0 : cleaning (fresh d) (store d) (fresh d) nd K0 d0).
  { split; [done|]. rewrite Hd0, relabel_root. proj. split.
    - by exists (store d), Nil.
    - eexists. split; [done|].
      unfold K0. rewrite <- (relabel_root (fresh d) content nd k).
      rewrite (proj1 (relabel_ids (fresh d) (Node content nd k Nil))).
      apply Forall_seq. lia. }
  destruct (cleaning_strip_tags _ _ _ _ Hold (le_n _) _ _ _ _ _ Hinv0 Htags)
    as (K1 & Hinv1 & Hsub1 & Htag).
  destruct (cleaning_kids _ _ _ _ Hold (le_n _) _ _ Hinv1) as [HK1 Hids1].
  unfold querySelectorAll in Hcls. rewrite HK1 in Hcls.
  assert (Hall : Forall (fun e => fresh d <= e /\ e <> fresh d)
                        (select [SAny] (nodes K1))).
  { apply Forall_forall. intros e (nd' & He & _)%select_elem.
    rewrite Forall_forall in Hids1. apply Hids1.
    apply list_elem_of_fmap. by exists (e, nd'). }
  destruct (cleaning_strip_classes _ _ _ _ Hold (le_n _) _ _ _ _ _ Hall Hinv1 Hcls)
    as (K2 & Hinv2 & Hsub2 & Hcl).
  exists K2. split; [done|]. intros i nd' Hin. split.
  - apply excluded_tag_matches. intros t Ht.
    eapply Htag; [|done]. by eapply elem_of_sublist.
  - destruct nd' as [t a|s]; [|apply excluded_class_Text].
    eapply Hcl; [done|]. apply select_elem. exists (Element t a).
    split; [by eapply elem_of_sublist | done].
Qed.

Section Frame.

Variable innerText : forest -> node_id -> string.

Lemma well_formed_store_ok d : well_formed d -> store_ok d.
Proof. intros (? & ? & _). by split. Qed.

Lemma prepare_post d t c d1 :
  well_formed d ->
  prepare innerText d = Done (t, c) d1 ->
  t = extract_title innerText d /\
  c = fresh d /\
  exists cd K,
    cleaning (fresh d) (store d) c cd K d1 /\
    forall i nd, (i, nd) ∈ nodes K ->
                 excluded_tag nd = false /\ excluded_class nd = false.
Proof.
  intros Hwf Hrun. split; [by eapply prepare_title|].
  unfold prepare in Hrun.
  apply bind_Done in Hrun as (c0 & d0 & [-> ->]%gets_Done & Hrun).
  apply bind_Done in Hrun as (t0 & d2 & [-> ->]%gets_Done & Hrun).
  apply bind_Done in Hrun as (c1 & d3 & Hclean & [[= _ ->] ->]%ret_Done).
  eapply clean_post; [|done]. by apply well_formed_store_ok.
Qed.

(** C9. The cleaning passes work on the clone alone.  When they are done
    the store is the store of the start followed by new trees, all made of
    nodes that did not exist before: every tree that was there (the live
    document, the subtree of the located node in it) is as it was, node for
    node, with the same parents.  The clone is new and detached.  Title,
    head, body and effects are those of the start. *)
Theorem cleanup_leaves_live_document_alone d t c d1 :
  well_formed d ->
  prepare innerText d = Done (t, c) d1 ->
  (exists X, store d1 = fapp (store d) X /\
             Forall (fun i => fresh d <= i) (ids X)) /\
  (forall x, x ∈ ids (store d) ->
     lookup_node x (store d1) = lookup_node x (store d) /\
     parentNode (store d1) x = parentNode (store d) x) /\
  fresh d <= c /\
  parentNode (store d1) c = None /\
  doc_title d1 = doc_title d /\
  documentElement d1 = documentElement d /\
  doc_head d1 = doc_head d /\
  doc_body d1 = doc_body d /\
  effects d1 = effects d.
Proof.
  intros Hwf Hrun.
  destruct (prepare_post _ _ _ _ Hwf Hrun)
    as (_ & -> & cd & K & ([Hnd _] & Hc & X & HX & Hnew) & _).
  split; [by exists X|]. split; [|split; [done|split]].
  - intros x Hx. rewrite HX. unfold parentNode.
    rewrite lookup_node_fapp, find_parent_fapp.
    destruct (lookup_node_is_Some _ _ Hx) as [r ->].
    destruct (find_parent None x (store d)) as [r'|] eqn:E; [done|].
    by apply find_parent_None in E.
  - unfold parentNode. by rewrite (clone_at_root _ _ _ _ Hnd Hc).
  - repeat split.
    + eapply (preserves_prepare innerText doc_title); eauto with frame.
    + eapply (preserves_prepare innerText documentElement); eauto with frame.
    + eapply (preserves_prepare innerText doc_head); eauto with frame.
    + eapply (preserves_prepare innerText doc_body); eauto with frame.
    + eapply (preserves_prepare innerText effects); eauto with frame.
Qed.

End Frame.

(** ** Looking a node up after an edit *)

Lemma lookup_node_graft x p sub f :
  x ∉ ids sub ->
  lookup_node x (graft p sub f)
  = match lookup_node x f with
    | Some (d, k) =>
        Some (d, if (x =? p)%nat then fapp (graft p sub k) sub else graft p sub k)
    | None => None
    end.
Proof.
  intros Hx%lookup_node_None.
  induction f as [|i d k IHk s IHs]; cbn [graft lookup_node]; [done|].
  destruct (Nat.eqb_spec i x) as [->|Hne]; [done|].
  assert (Hk : lookup_node x (if (i =? p)%nat then fapp (graft p sub k) sub
                              else graft p sub k)
               = lookup_node x (graft p sub k)).
  { destruct (i =? p)%nat; [|done]. rewrite lookup_node_fapp, Hx.
    by destruct (lookup_node x (graft p sub k)). }
  rewrite Hk, IHk, IHs. by destruct (lookup_node x k) as [[]|].
Qed.

Lemma lookup_node_cut x c f :
  x ∉ ids (cutoff c f) ->
  lookup_node x (cut c f)
  = match lookup_node x f with
    | Some (d, k) => Some (d, cut c k)
    | None => None
    end.
Proof.
  induction f as [|i d k IHk s IHs]; cbn [cut cutoff lookup_node]; [done|].
  destruct (Nat.eqb_spec i c) as [->|Hic].
  - intros (Hx & Hk & Hs)%not_in_Node.
    destruct (Nat.eqb_spec c x); [done|].
    apply lookup_node_None in Hk. rewrite Hk. auto.
  - rewrite ids_fapp. intros [Hk Hs]%not_elem_of_app.
    cbn [lookup_node]. destruct (Nat.eqb_spec i x); [done|].
    rewrite (IHk Hk), (IHs Hs). by destruct (lookup_node x k) as [[]|].
Qed.

Lemma cutoff_unique x f d k :
  NoDup (ids f) -> lookup_node x f = Some (d, k) ->
  cutoff x f = Node x d k Nil.
Proof.
  induction f as [|i nd kk IHk s IHs]; intros Hnd Hl; [done|].
  destruct (NoDup_Node _ _ _ _ Hnd) as (Hik & His & Hk & Hs & Hdis).
  cbn [cutoff lookup_node] in *. destruct (Nat.eqb_spec i x) as [->|Hne].
  - injection Hl as <- <-. by rewrite (cutoff_not_in x s).
  - destruct (lookup_node x kk) as [r|] eqn:Ek.
    + injection Hl as ->.
      assert (x ∈ ids kk).
      { destruct (decide (x ∈ ids kk)) as [|Hn]; [done|].
        apply lookup_node_None in Hn. congruence. }
      rewrite (IHk Hk eq_refl), (cutoff_not_in x s) by auto. done.
    + apply lookup_node_None in Ek.
      rewrite (cutoff_not_in x kk) by done. by apply IHs.
Qed.

Lemma ids_cutoff_sub c f : ids (cutoff c f) ⊆ ids f.
Proof.
  intros x Hx. rewrite <- (ids_cut_cutoff c f). apply elem_of_app. by right.
Qed.

Lemma NoDup_cut c f : NoDup (ids f) -> NoDup (ids (cut c f)).
Proof.
  intros Hnd. rewrite <- (ids_cut_cutoff c f) in Hnd.
  by apply NoDup_app in Hnd as (? & _ & _).
Qed.

(** ** The rebuild leaves the clone alone until the transfer *)

Lemma clone_at_ids c cd K f :
  clone_at c cd K f -> c ∈ ids f /\ ids K ⊆ ids f.
Proof.
  intros (A & B & ->). rewrite ids_fapp, ids_Node. split.
  - apply elem_of_app. right. by left.
  - intros x Hx. apply elem_of_app. right. right. apply elem_of_app. by left.
Qed.

(** The children of a node outside the clone are outside the clone. *)
Lemma clone_at_kids_outside c cd K f p pd pk :
  NoDup (ids f) -> clone_at c cd K f ->
  lookup_node p f = Some (pd, pk) -> outside c K p ->
  forall y, y ∈ ids pk -> outside c K y.
Proof.
  intros Hnd (A & B & ->) Hl [Hpc HpK] y Hy.
  destruct (NoDup_clone_at _ _ _ _ _ Hnd) as (HcA & _ & HKA & _).
  destruct (NoDup_clone_at_r _ _ _ _ _ Hnd) as (HcB & HKB).
  rewrite lookup_node_fapp in Hl.
  destruct (lookup_node p A) as [r|] eqn:EA.
  - injection Hl as ->. apply lookup_node_ids_sub in EA. apply EA in Hy.
    split; [by intros -> | intros HK; by apply (HKA y)].
  - cbn [lookup_node] in Hl. destruct (Nat.eqb_spec c p) as [|_]; [done|].
    apply lookup_node_None in HpK. rewrite HpK in Hl.
    apply lookup_node_ids_sub in Hl. apply Hl in Hy.
    split; [by intros -> | intros HK; by apply (HKB y)].
Qed.

Section Rebuilding.

Variables (c : node_id) (cd : node_data) (K : forest).

Lemma rebuilding_removeChild p x d u d' :
  rebuilding c cd K d -> outside c K p ->
  removeChild p x d = Done u d' ->
  rebuilding c cd K d'.
Proof.
  intros [Hok Hc] [Hpc HpK] Hrun. split; [by eapply removeChild_store_ok|].
  apply removeChild_Done in Hrun as [Hp ->]. proj.
  destruct (clone_at_outside _ _ _ _ _ _ (proj1 Hok) Hc Hp Hpc HpK) as [Hxc HxK].
  apply clone_at_fapp. rewrite <- (cut_not_in x K HxK). by apply clone_at_cut.
Qed.

Lemma rebuilding_appendChild p x d u d' :
  rebuilding c cd K d -> outside c K p -> outside c K x ->
  appendChild p x d = Done u d' ->
  rebuilding c cd K d'.
Proof.
  intros [Hok Hc] [Hpc HpK] [Hxc HxK] Hrun.
  split; [by eapply appendChild_store_ok|].
  apply appendChild_Done in Hrun as [_ ->]. proj.
  apply clone_at_graft; [|done..].
  rewrite <- (cut_not_in x K HxK). by apply clone_at_cut.
Qed.

Lemma fresh_outside d :
  rebuilding c cd K d -> outside c K (fresh d).
Proof.
  intros [[_ Hlt] Hc]. destruct (clone_at_ids _ _ _ _ Hc) as [Hcin HK].
  rewrite Forall_forall in Hlt. split.
  - intros E. specialize (Hlt c Hcin). lia.
  - intros Hin. specialize (Hlt _ (HK _ Hin)). lia.
Qed.

Lemma rebuilding_createElement name d h d' :
  rebuilding c cd K d ->
  createElement name d = Done h d' ->
  rebuilding c cd K d' /\ outside c K h /\ h = fresh d /\
  store d' = fapp (store d) (Node h (Element (toLowerCase name) []) Nil Nil) /\
  fresh d' = S (fresh d).
Proof.
  intros Hinv Hrun. pose proof (fresh_outside d Hinv) as Hout.
  destruct Hinv as [Hok Hc].
  split; [split; [by eapply createElement_store_ok|]|].
  - injection Hrun as <- <-. proj. by apply clone_at_fapp.
  - by injection Hrun as <- <-.
Qed.

Lemma rebuilding_setAttribute x k v d u d' :
  rebuilding c cd K d -> outside c K x ->
  setAttribute x k v d = Done u d' ->
  rebuilding c cd K d'.
Proof.
  intros [Hok Hc] [Hxc HxK] Hrun. split; [by eapply setAttribute_store_ok|].
  apply setAttribute_Done in Hrun as [_ ->]. proj. by apply clone_at_update.
Qed.

Lemma rebuilding_set_textContent x s d u d' :
  rebuilding c cd K d -> outside c K x ->
  set_textContent x s d = Done u d' ->
  rebuilding c cd K d'.
Proof.
  intros [Hok Hc] [Hxc HxK] Hrun.
  split; [by eapply set_textContent_store_ok|].
  apply set_textContent_Done in Hrun as (nd & old & _ & ->).
  destruct (truthy s); proj; by apply clone_at_fapp, clone_at_set_kids.
Qed.

(** [while (p.firstChild) p.removeChild(p.firstChild)] on a node outside
    the clone ends with [p] childless. *)
Lemma rebuilding_clear p fuel d u d' :
  rebuilding c cd K d -> outside c K p ->
  while_firstChild fuel p (removeChild p) d = Done u d' ->
  rebuilding c cd K d' /\ exists pd, lookup_node p (store d') = Some (pd, Nil).
Proof.
  intros Hinv Hout. revert d Hinv.
  induction fuel as [|n IH]; intros d Hinv Hrun; [done|].
  cbn [while_firstChild] in Hrun.
  apply bind_Done in Hrun as (r & d0 & Hfc & Hrun).
  apply firstChild_Done in Hfc as (-> & nd & k & Hl & ->).
  destruct k as [|x xd xk xs].
  - apply ret_Done in Hrun as [_ ->]. eauto.
  - apply bind_Done in Hrun as (? & d1 & Hrm & Hrun).
    eapply IH; [|done]. by eapply rebuilding_removeChild.
Qed.

Lemma rebuilding_rebuild_head d u d' :
  rebuilding c cd K d -> outside c K (doc_head d) ->
  rebuild_head d = Done u d' ->
  rebuilding c cd K d'.
Proof.
  intros Hinv Hout Hrun. unfold rebuild_head in Hrun.
  apply bind_Done in Hrun as (hd & d0 & [-> ->]%gets_Done & Hrun).
  apply bind_Done in Hrun as (n & d0 & [-> ->]%gets_Done & Hrun).
  apply bind_Done in Hrun as (? & d1 & Hclear & Hrun).
  apply bind_Done in Hrun as (m1 & d2 & Hm1 & Hrun).
  apply bind_Done in Hrun as (? & d3 & Ha1 & Hrun).
  apply bind_Done in Hrun as (? & d4 & Hp1 & Hrun).
  apply bind_Done in Hrun as (m2 & d5 & Hm2 & Hrun).
  apply bind_Done in Hrun as (? & d6 & Ha2 & Hrun).
  apply bind_Done in Hrun as (? & d7 & Ha3 & Hrun).
  destruct (rebuilding_clear _ _ _ _ _ Hinv Hout Hclear) as [Hinv1 _].
  destruct (rebuilding_createElement _ _ _ _ Hinv1 Hm1) as (Hinv2 & Ho1 & _).
  pose proof (rebuilding_setAttribute _ _ _ _ _ _ Hinv2 Ho1 Ha1) as Hinv3.
  pose proof (rebuilding_appendChild _ _ _ _ _ Hinv3 Hout Ho1 Hp1) as Hinv4.
  destruct (rebuilding_createElement _ _ _ _ Hinv4 Hm2) as (Hinv5 & Ho2 & _).
  pose proof (rebuilding_setAttribute _ _ _ _ _ _ Hinv5 Ho2 Ha2) as Hinv6.
  pose proof (rebuilding_setAttribute _ _ _ _ _ _ Hinv6 Ho2 Ha3) as Hinv7.
  exact (rebuilding_appendChild _ _ _ _ _ Hinv7 Hout Ho2 Hrun).
Qed.

Lemma rebuilding_rebuild_style d u d' :
  rebuilding c cd K d -> outside c K (doc_head d) ->
  rebuild_style d = Done u d' ->
  rebuilding c cd K d'.
Proof.
  intros Hinv Hout Hrun. unfold rebuild_style in Hrun.
  apply bind_Done in Hrun as (hd & d0 & [-> ->]%gets_Done & Hrun).
  apply bind_Done in Hrun as (st & d1 & Hst & Hrun).
  apply bind_Done in Hrun as (? & d2 & Htx & Hrun).
  destruct (rebuilding_createElement _ _ _ _ Hinv Hst) as (Hinv1 & Ho1 & _).
  pose proof (rebuilding_set_textContent _ _ _ _ _ Hinv1 Ho1 Htx) as Hinv2.
  exact (rebuilding_appendChild _ _ _ _ _ Hinv2 Hout Ho1 Hrun).
Qed.

End Rebuilding.

(** ** The transfer *)

Lemma clone_at_first c cd x xd xk K' f :
  NoDup (ids f) -> clone_at c cd (Node x xd xk K') f ->
  lookup_node x f = Some (xd, xk).
Proof.
  intros Hnd (A & B & ->).
  destruct (NoDup_clone_at _ _ _ _ _ Hnd) as (_ & HcK & HKA & _).
  assert (Hx : x ∈ ids (Node x xd xk K')) by (rewrite ids_Node; by left).
  specialize (HKA x Hx). apply lookup_node_None in HKA.
  rewrite lookup_node_fapp, HKA. cbn [lookup_node].
  destruct (Nat.eqb_spec c x) as [->|_]; [done|]. by rewrite Nat.eqb_refl.
Qed.

Section Transfer.

Variables (c : node_id) (cd : node_data) (K : forest).
Variables (body : node_id) (bd : node_data) (H : forest).

Lemma transferring_step K1 x xd xk K2 d u d' :
  transferring c cd K body bd H K1 (Node x xd xk K2) d ->
  appendChild body x d = Done u d' ->
  transferring c cd K body bd H (fapp K1 (Node x xd xk Nil)) K2 d'.
Proof.
  intros (Hok & Hc & Hb & HK & [Hbc HbK]) Hrun.
  pose proof (appendChild_store_ok _ _ _ _ _ Hok Hrun) as Hok'.
  apply appendChild_Done in Hrun as [_ ->].
  destruct Hok as [Hnd Hlt].
  pose proof (clone_at_first _ _ _ _ _ _ _ Hnd Hc) as Hlx.
  pose proof (cutoff_unique _ _ _ _ Hnd Hlx) as Hoff.
  assert (HndK : NoDup (ids (Node x xd xk K2))).
  { destruct Hc as (A & B & E). rewrite E in Hnd.
    by destruct (NoDup_clone_at _ _ _ _ _ Hnd) as (_ & _ & _ & ?). }
  destruct (NoDup_Node _ _ _ _ HndK) as (Hxk & HxK2 & _).
  assert (HbK2 : body ∉ ids K2).
  { intros Hin. apply HbK. rewrite ids_Node. right. apply elem_of_app. by right. }
  assert (Hbsub : body ∉ ids (Node x xd xk Nil)).
  { intros Hin. apply HbK. rewrite ids_Node in Hin |- *.
    apply elem_of_cons in Hin as [->|Hin]; [by left|]. right.
    rewrite elem_of_app in Hin |- *. destruct Hin as [?|Hin]; [by left|].
    by apply elem_of_nil in Hin. }
  assert (Hcut : clone_at c cd K2 (cut x (store d))).
  { assert (E : cut x (Node x xd xk K2) = K2).
    { cbn [cut]. rewrite Nat.eqb_refl. by apply cut_not_in. }
    rewrite <- E. apply clone_at_cut; [done|].
    intros ->. destruct Hc as (A & B & E'). rewrite E' in Hnd.
    destruct (NoDup_clone_at _ _ _ _ _ Hnd) as (_ & HcK & _).
    apply HcK. rewrite ids_Node. by left. }
  assert (Hxb : x ∉ ids (fapp H K1)).
  { intros Hin.
    destruct (clone_at_kids_outside _ _ _ _ _ _ _ Hnd Hc Hb (conj Hbc HbK) x Hin)
      as [_ Hx].
    apply Hx. rewrite ids_Node. by left. }
  split; [done|]. proj. rewrite Hoff.
  split; [by apply clone_at_graft|].
  split; [|split; [|done]].
  - rewrite (lookup_node_graft _ _ _ _ Hbsub).
    rewrite lookup_node_cut by (by rewrite Hoff).
    rewrite Hb, Nat.eqb_refl, (cut_not_in x _ Hxb).
    rewrite (graft_not_in _ _ _ (lookup_node_not_self _ _ _ _ Hnd Hb)).
    by rewrite fapp_assoc.
  - by rewrite fapp_assoc.
Qed.

Lemma transferring_loop fuel K1 K2 d u d' :
  transferring c cd K body bd H K1 K2 d ->
  while_firstChild fuel c (appendChild body) d = Done u d' ->
  transferring c cd K body bd H K Nil d'.
Proof.
  revert K1 K2 d. induction fuel as [|n IH]; intros K1 K2 d Hinv Hrun; [done|].
  cbn [while_firstChild] in Hrun.
  apply bind_Done in Hrun as (r & d0 & Hfc & Hrun).
  apply firstChild_Done in Hfc as (-> & nd & k & Hl & ->).
  assert (k = K2) as ->.
  { destruct Hinv as ([Hnd _] & Hc & _).
    rewrite (clone_at_lookup _ _ _ _ Hnd Hc) in Hl. by injection Hl. }
  destruct K2 as [|x xd xk K2].
  - apply ret_Done in Hrun as [_ ->].
    destruct Hinv as (? & ? & ? & HK & ?). rewrite fapp_Nil_r in HK.
    subst K1. split; [done|]. split; [done|]. split; [done|].
    split; [apply fapp_Nil_r | done].
  - apply bind_Done in Hrun as (? & d1 & Hstep & Hrun).
    eapply IH; [|done]. by eapply transferring_step.
Qed.

End Transfer.

(** Clearing a node moves nodes, and neither makes nor loses any. *)
Lemma clear_nodes p fuel d u d' :
  while_firstChild fuel p (removeChild p) d = Done u d' ->
  nodes (store d') ≡ₚ nodes (store d).
Proof.
  revert d. induction fuel as [|n IH]; intros d Hrun; [done|].
  cbn [while_firstChild] in Hrun.
  apply bind_Done in Hrun as (r & d0 & Hfc & Hrun).
  apply firstChild_Done in Hfc as (-> & nd & k & Hl & ->).
  destruct k as [|x xd xk xs].
  - by apply ret_Done in Hrun as [_ ->].
  - apply bind_Done in Hrun as (? & d2 & Hrm & Hrun).
    rewrite (IH _ Hrun).
    apply removeChild_Done in Hrm as [_ ->]. proj.
    by rewrite nodes_fapp, nodes_cut_cutoff.
Qed.

(** After [rebuild_heading] the heading, with the title as its text, is the
    only child of the body, and the clone is as it was. *)
Lemma rebuild_heading_post c cd K title d u d' :
  rebuilding c cd K d -> outside c K (doc_body d) ->
  rebuild_heading title d = Done u d' ->
  exists bd h i,
    transferring c cd K (doc_body d) bd
      (heading_tree h (text_child i title) Nil) Nil K d' /\
    (elem (store d) (doc_body d) -> is_element bd = true).
Proof.
  intros Hinv Hout Hrun. unfold rebuild_heading in Hrun.
  apply bind_Done in Hrun as (b & d0 & [-> ->]%gets_Done & Hrun).
  apply bind_Done in Hrun as (n & d0 & [-> ->]%gets_Done & Hrun).
  apply bind_Done in Hrun as (? & d1 & Hclear & Hrun).
  apply bind_Done in Hrun as (h & d2 & Hh & Hrun).
  apply bind_Done in Hrun as (? & d3 & Htx & Happ).
  destruct (rebuilding_clear _ _ _ _ _ _ _ _ Hinv Hout Hclear) as [Hinv1 [bd Hb1]].
  destruct (rebuilding_createElement _ _ _ _ _ _ _ Hinv1 Hh)
    as (Hinv2 & Hoh & -> & Hs2 & Hf2).
  pose proof (rebuilding_set_textContent _ _ _ _ _ _ _ _ Hinv2 Hoh Htx) as Hinv3.
  pose proof (rebuilding_appendChild _ _ _ _ _ _ _ _ Hinv3 Hout Hoh Happ) as Hinv4.
  assert (Hfresh : forall y, y ∈ ids (store d1) -> y < fresh d1).
  { destruct Hinv1 as [[_ Hlt] _]. by apply Forall_forall. }
  assert (Hh1 : fresh d1 ∉ ids (store d1)).
  { intros Hin. specialize (Hfresh _ Hin). lia. }
  assert (Hbin : doc_body d ∈ ids (store d1)).
  { apply lookup_node_elem in Hb1. apply list_elem_of_fmap. by eexists (_, _). }
  (* the heading, with its text, is the last root of the store *)
  assert (Hs3 : store d3 = fapp (store d1)
                 (heading_tree (fresh d1) (text_child (fresh d2) title) Nil)).
  { apply set_textContent_Done in Htx as (nd & old & Hl & ->).
    rewrite Hs2, lookup_node_fapp in Hl.
    rewrite (proj2 (lookup_node_None _ _) Hh1) in Hl.
    cbn [lookup_node] in Hl. rewrite Nat.eqb_refl in Hl.
    injection Hl as <- <-. unfold text_child, heading_tree.
    destruct (truthy title); proj; rewrite Hs2, fapp_Nil_r, set_kids_fapp,
      (set_kids_not_in _ _ _ Hh1); cbn [set_kids]; by rewrite Nat.eqb_refl. }
  assert (Hbsub : doc_body d ∉
            ids (heading_tree (fresh d1) (text_child (fresh d2) title) Nil)).
  { specialize (Hfresh _ Hbin). unfold heading_tree, text_child.
    rewrite Hf2. destruct (truthy title); rewrite !ids_Node;
      change (ids Nil) with (@nil node_id); list_norm;
      rewrite ?not_elem_of_cons; repeat split; try lia; apply not_elem_of_nil. }
  assert (Hb4 : lookup_node (doc_body d) (store d')
          = Some (bd, heading_tree (fresh d1) (text_child (fresh d2) title) Nil)).
  { apply appendChild_Done in Happ as [_ ->]. proj. rewrite Hs3.
    rewrite cut_fapp, cutoff_fapp, (cut_not_in _ _ Hh1), (cutoff_not_in _ _ Hh1).
    unfold heading_tree at 1 2. cbn [cut cutoff fapp].
    rewrite Nat.eqb_refl. cbn [cut cutoff fapp]. rewrite fapp_Nil_r.
    rewrite (lookup_node_graft _ _ _ _ Hbsub), Hb1, Nat.eqb_refl. done. }
  exists bd, (fresh d1), (fresh d2). split.
  - destruct Hinv4 as [Hok4 Hc4]. split; [done|]. split; [done|].
    split; [by rewrite fapp_Nil_r|]. done.
  - intros (t & a & Hel).
    assert (Hel1 : (doc_body d, Element t a) ∈ nodes (store d1))
      by (by rewrite (clear_nodes _ _ _ _ _ Hclear)).
    destruct Hinv1 as [[Hnd1 _] _].
    pose proof (lookup_node_elem _ _ _ _ Hb1) as Hb1'.
    by rewrite (NoDup_fst_functional _ _ _ _ Hnd1 Hb1' Hel1).
Qed.

Lemma transfer_post c cd K bd H K1 K2 d u d' :
  transferring c cd K (doc_body d) bd H K1 K2 d ->
  transfer c d = Done u d' ->
  transferring c cd K (doc_body d) bd H K Nil d'.
Proof.
  intros Hinv Hrun. unfold transfer in Hrun.
  apply bind_Done in Hrun as (b & d0 & [-> ->]%gets_Done & Hrun).
  apply bind_Done in Hrun as (n & d0 & [-> ->]%gets_Done & Hrun).
  by eapply transferring_loop.
Qed.

(** The body after [rebuild_body]: the heading, then the children of the
    clone. *)
Lemma rebuild_body_post c cd K title d u d' :
  rebuilding c cd K d -> outside c K (doc_body d) ->
  rebuild_body title c d = Done u d' ->
  store_ok d' /\
  exists bd h i,
    lookup_node (doc_body d) (store d')
    = Some (bd, heading_tree h (text_child i title) K).
Proof.
  intros Hinv Hout Hrun. unfold rebuild_body in Hrun.
  apply bind_Done in Hrun as (? & d1 & Hhead & Hrun).
  destruct (rebuild_heading_post _ _ _ _ _ _ _ Hinv Hout Hhead)
    as (bd & h & i & Htr & _).
  assert (Hb : doc_body d1 = doc_body d).
  { assert (Hpres : preserves doc_body (rebuild_heading title))
      by (unfold rebuild_heading; frame).
    exact (Hpres _ _ _ Hhead). }
  rewrite <- Hb in Htr.
  destruct (transfer_post _ _ _ _ _ _ _ _ _ _ Htr Hrun) as (Hok' & _ & Hb' & _).
  split; [done|]. exists bd, h, i. by rewrite <- Hb, Hb'.
Qed.

(** ** The rebuilt body *)


Section Rebuilt.

Variable innerText : forest -> node_id -> string.


End Rebuilt.


(** ** The run completes on every loaded page *)

Lemma elem_in_ids f p : elem f p -> p ∈ ids f.
Proof.
  intros (t & a & Hin). apply list_elem_of_fmap. by exists (p, Element t a).
Qed.

Lemma elem_lookup f p :
  NoDup (ids f) -> elem f p ->
  exists t a k, lookup_node p f = Some (Element t a, k).
Proof.
  intros Hnd (t & a & Hin).
  destruct (lookup_node_is_Some p f) as [[nd k] Hl].
  { apply list_elem_of_fmap. by exists (p, Element t a). }
  pose proof (lookup_node_elem _ _ _ _ Hl) as Hin'.
  rewrite (NoDup_fst_functional _ _ _ _ Hnd Hin' Hin) in Hl. eauto.
Qed.

Lemma elem_sub f f' p : nodes f ⊆ nodes f' -> elem f p -> elem f' p.
Proof. intros Hsub (t & a & Hin). exists t, a. by apply Hsub. Qed.

Lemma elem_perm f f' p : nodes f' ≡ₚ nodes f -> elem f p -> elem f' p.
Proof. intros Hp. apply elem_sub. intros x. by rewrite Hp. Qed.

Lemma nodes_update x g f :
  nodes (update x g f)
  = (fun p => (p.1, if (p.1 =? x)%nat then g p.2 else p.2)) <$> nodes f.
Proof.
  induction f as [|i d k IHk s IHs]; [done|]. cbn [update nodes].
  by rewrite fmap_cons, fmap_app, IHk, IHs.
Qed.

Lemma elem_update x k v f p : elem f p -> elem (update x (set_attr k v) f) p.
Proof.
  intros (t & a & Hin). unfold elem. rewrite nodes_update.
  destruct (Nat.eqb_spec p x) as [->|Hne].
  - exists t, (assoc_set k v a). apply list_elem_of_fmap.
    exists (x, Element t a). cbn. by rewrite Nat.eqb_refl.
  - exists t, a. apply list_elem_of_fmap. exists (p, Element t a). cbn.
    by destruct (Nat.eqb_spec p x).
Qed.

(** Every host operation keeps the elements of the store. *)
Lemma removeChild_elem p c d u d' q :
  removeChild p c d = Done u d' -> elem (store d) q -> elem (store d') q.
Proof.
  intros [_ ->]%removeChild_Done. proj. apply elem_perm.
  by rewrite nodes_fapp, nodes_cut_cutoff.
Qed.

Lemma appendChild_elem p c d u d' q :
  store_ok d ->
  appendChild p c d = Done u d' -> elem (store d) q -> elem (store d') q.
Proof.
  intros [Hnd _] [(t & a & k & Hl) ->]%appendChild_Done. proj. apply elem_perm.
  rewrite nodes_graft; [apply nodes_cut_cutoff | by apply NoDup_cut |].
  apply lookup_node_elem in Hl. apply list_elem_of_fmap. by exists (p, Element t a).
Qed.

Lemma setAttribute_elem x k v d u d' q :
  setAttribute x k v d = Done u d' -> elem (store d) q -> elem (store d') q.
Proof. intros [_ ->]%setAttribute_Done. proj. apply elem_update. Qed.

Lemma createElement_elem name d h d' q :
  createElement name d = Done h d' -> elem (store d) q -> elem (store d') q.
Proof.
  intros [= _ <-]. proj. apply elem_sub. rewrite nodes_fapp. intros x Hx.
  apply elem_of_app. by left.
Qed.

Lemma set_textContent_elem x s d u d' q :
  store_ok d ->
  set_textContent x s d = Done u d' -> elem (store d) q -> elem (store d') q.
Proof.
  intros [Hnd _] (nd & old & Hl & ->)%set_textContent_Done.
  destruct (truthy s); proj; apply elem_sub; rewrite nodes_fapp;
    intros y Hy; rewrite (nodes_set_kids _ _ _ _ _ Hnd Hl);
    apply elem_of_app; by left.
Qed.

(** *** A node with a parent keeps one while other nodes are removed *)

Lemma find_parent_cut up e y f :
  e ∉ ids (cutoff y f) ->
  find_parent up e (cut y f) = find_parent up e f.
Proof.
  revert up. induction f as [|i d k IHk s IHs]; intros up; [done|].
  cbn [cut cutoff find_parent]. destruct (Nat.eqb_spec i y) as [->|Hiy].
  - intros (Hx & Hk & Hs)%not_in_Node.
    destruct (Nat.eqb_spec y e); [done|].
    apply (find_parent_None (Some y)) in Hk. rewrite Hk. auto.
  - rewrite ids_fapp. intros [Hk Hs]%not_elem_of_app.
    cbn [find_parent]. destruct (Nat.eqb_spec i e); [done|].
    by rewrite (IHk _ Hk), (IHs _ Hs).
Qed.

Lemma find_parent_cutoff e y f :
  e ∈ ids (cutoff y f) -> e <> y ->
  exists p, find_parent None e (cutoff y f) = Some (Some p).
Proof.
  intros Hin Hne. induction f as [|i d k IHk s IHs].
  - by apply elem_of_nil in Hin.
  - cbn [cutoff] in *. destruct (Nat.eqb_spec i y) as [->|Hiy].
    + cbn [find_parent]. destruct (Nat.eqb_spec y e) as [|_]; [congruence|].
      rewrite ids_Node in Hin.
      apply elem_of_cons in Hin as [?|Hin]; [congruence|].
      destruct (decide (e ∈ ids k)) as [Hk|Hk].
      * destruct (find_parent_inside y e k Hk) as (p & -> & _). eauto.
      * apply elem_of_app in Hin as [?|Hin]; [done|].
        apply (find_parent_None (Some y)) in Hk. rewrite Hk. auto.
    + rewrite ids_fapp in Hin. rewrite find_parent_fapp.
      destruct (decide (e ∈ ids (cutoff y k))) as [Hk|Hk].
      * destruct (IHk Hk) as (p & ->). eauto.
      * apply elem_of_app in Hin as [?|Hin]; [done|].
        apply (find_parent_None None) in Hk. rewrite Hk. auto.
Qed.

Lemma nonroot_cut f e y :
  NoDup (ids f) -> nonroot f e -> e <> y ->
  nonroot (fapp (cut y f) (cutoff y f)) e.
Proof.
  intros Hnd [p Hp] Hne. unfold nonroot. rewrite find_parent_fapp.
  destruct (decide (e ∈ ids (cutoff y f))) as [Hin|Hin].
  - assert (Hcut : e ∉ ids (cut y f)).
    { rewrite <- (ids_cut_cutoff y f) in Hnd.
      apply NoDup_app in Hnd as (_ & Hdis & _). intros ?. by eapply Hdis. }
    apply (find_parent_None None) in Hcut. rewrite Hcut.
    by apply find_parent_cutoff.
  - rewrite (find_parent_cut None e y f Hin), Hp. eauto.
Qed.

Lemma remove_all_runs l d :
  store_ok d -> NoDup l ->
  (forall e, e ∈ l -> nonroot (store d) e) ->
  exists d', remove_all l d = Done tt d'.
Proof.
  revert d. induction l as [|e l IH]; intros d Hok Hnd Hall.
  - by exists d.
  - apply NoDup_cons in Hnd as [He Hnd]. cbn [remove_all]. unfold bind, gets.
    destruct (Hall e) as [p Hp]; [by left|].
    unfold parentNode. rewrite Hp.
    assert (Hrm : removeChild p e d
                  = Done tt (with_store d (fapp (cut e (store d)) (cutoff e (store d))))).
    { apply removeChild_of_parent. unfold parentNode. by rewrite Hp. }
    rewrite Hrm. apply IH; [by eapply removeChild_store_ok | done|].
    intros e' He'. proj. apply nonroot_cut; [apply Hok | | ].
    + apply Hall. by right.
    + intros ->. done.
Qed.

Lemma select_sublist sel l : select sel l `sublist_of` l.*1.
Proof. unfold select. apply fmap_sublist, sublist_filter. Qed.

Section CleaningRuns.

Variables (n0 : node_id) (F : forest) (c : node_id) (cd : node_data).
Hypothesis F_old : Forall (fun i => i < n0) (ids F).
Hypothesis c_new : n0 <= c.

Lemma strip_tags_runs tags K d :
  cleaning n0 F c cd K d ->
  exists d', strip_tags tags c d = Done tt d'.
Proof.
  revert K d. induction tags as [|t tags IH]; intros K d Hinv.
  - by exists d.
  - cbn [strip_tags]. unfold bind at 1. unfold gets.
    destruct (cleaning_kids _ _ _ _ F_old c_new _ _ Hinv) as [HK Hids].
    unfold querySelectorAll. rewrite HK.
    set (els := select [SType t] (nodes K)).
    destruct Hinv as (Hok & Hc & Hext).
    assert (HndK : NoDup (ids K)).
    { destruct Hc as (A & B & E). destruct Hok as [Hnd _]. rewrite E in Hnd.
      by destruct (NoDup_clone_at _ _ _ _ _ Hnd) as (_ & _ & _ & ?). }
    destruct (remove_all_runs (rev els) d) as [d1 Hrm]; [done| | |].
    + rewrite <- Permutation_rev.
      eapply sublist_NoDup; [done | apply select_sublist].
    + intros e He. apply (proj1 (elem_of_rev _ _)) in He.
      apply select_elem in He as (nd & He & _).
      destruct (clone_at_inner _ _ _ _ e (proj1 Hok) Hc) as (p & Hp & _).
      { apply list_elem_of_fmap. by exists (e, nd). }
      by exists p.
    + unfold bind. rewrite Hrm.
      eapply (IH (cut_all (rev els) K)).
      eapply cleaning_remove_all; [done..| |split; [done|split; done]|done].
      apply Forall_forall. intros e He. apply (proj1 (elem_of_rev _ _)) in He.
      apply select_elem in He as (nd & He & _).
      rewrite Forall_forall in Hids. apply Hids.
      apply list_elem_of_fmap. by exists (e, nd).
Qed.

End CleaningRuns.

Lemma cloneNode_cleaning x d c d0 :
  store_ok d ->
  cloneNode x d = Done c d0 ->
  c = fresh d /\ exists cd K, cleaning (fresh d) (store d) c cd K d0.
Proof.
  intros Hok Hclone.
  pose proof (cloneNode_store_ok _ _ _ _ Hok Hclone) as Hok0.
  apply cloneNode_Done in Hclone as (-> & nd & k & Hl & ->).
  split; [done|]. exists nd, (relabel (S (fresh d)) k).1.
  split; [done|]. rewrite relabel_root. proj. split.
  - by exists (store d), Nil.
  - eexists. split; [done|].
    rewrite <- (relabel_root (fresh d) x nd k).
    rewrite (proj1 (relabel_ids (fresh d) (Node x nd k Nil))).
    apply Forall_seq. lia.
Qed.

Lemma clean_runs content d :
  store_ok d -> content ∈ ids (store d) ->
  exists c d', clean content d = Done c d'.
Proof.
  intros Hok Hin. unfold clean, bind at 1.
  destruct (lookup_node_is_Some _ _ Hin) as [[nd k] Hl].
  destruct (cloneNode content d) as [c d0| |] eqn:Hclone;
    [|unfold cloneNode in Hclone; rewrite Hl in Hclone;
      by destruct (relabel _ _)..].
  destruct (cloneNode_cleaning _ _ _ _ Hok Hclone) as (-> & cd & K & Hinv).
  assert (Hold : Forall (fun i => i < fresh d) (ids (store d))) by apply Hok.
  destruct (strip_tags_runs _ _ _ _ Hold (le_n _) removeTags _ _ Hinv)
    as [d1 Htags].
  unfold bind at 1. rewrite Htags. unfold bind at 1. unfold gets.
  destruct (strip_classes_runs
              (querySelectorAll (store d1) (fresh d) [SAny]) d1) as [d2 Hcls].
  unfold bind, ret. rewrite Hcls. eauto.
Qed.

Section Completes.

Variable innerText : forest -> node_id -> string.

Lemma scan_in f l b c0 c :
  (scan innerText f l b c0).2 = Some c -> c ∈ l \/ c0 = Some c.
Proof.
  revert b c0. induction l as [|x l IH]; intros b c0; cbn [scan].
  - by right.
  - destruct (gt _ _); intros [Hc|Hc]%IH.
    + left. by right.
    + left. injection Hc as ->. by left.
    + left. by right.
    + by right.
Qed.

Lemma document_querySelectorAll_in d sel x :
  x ∈ document_querySelectorAll d sel -> x ∈ ids (store d).
Proof.
  intros (nd & Hin & _)%select_elem. apply document_nodes_sub in Hin.
  apply list_elem_of_fmap. by exists (x, nd).
Qed.

Lemma document_querySelector_in d sel x :
  document_querySelector d sel = Some x -> x ∈ ids (store d).
Proof.
  unfold document_querySelector.
  destruct (document_querySelectorAll d sel) as [|y l] eqn:E; [done|].
  intros [= ->]. apply (document_querySelectorAll_in d sel). rewrite E. by left.
Qed.

Lemma locate_in_store d :
  doc_body d ∈ ids (store d) -> locate innerText d ∈ ids (store d).
Proof.
  intros Hb. unfold locate.
  destruct (document_querySelector d [SType "article"]) as [a|] eqn:Ea;
    [by eapply document_querySelector_in|].
  destruct (document_querySelector d [SAttrEq "role" "main"]) as [r|] eqn:Er;
    [by eapply document_querySelector_in|].
  destruct (document_querySelector d [SType "main"]) as [m|] eqn:Em;
    [by eapply document_querySelector_in|].
  destruct (scan _ _ _ _ _).2 as [c|] eqn:Es; [|done].
  apply scan_in in Es as [Hc|?]; [|done].
  by eapply document_querySelectorAll_in.
Qed.

Lemma prepare_runs d :
  loaded d -> exists t c d', prepare innerText d = Done (t, c) d'.
Proof.
  intros (Hok & _ & Hb). unfold prepare, bind at 1. unfold gets.
  unfold bind at 1. unfold gets.
  destruct (clean_runs (locate innerText d) d Hok) as (c & d' & Hc).
  { apply locate_in_store. by apply elem_in_ids. }
  unfold bind, ret. rewrite Hc. eauto.
Qed.

End Completes.

(** *** The loops stay within their fuel *)

Lemma bind_runs {A B} (m : M A) (k : A -> M B) d a d1 b :
  m d = Done a d1 ->
  (exists d', k a d1 = Done b d') ->
  exists d', bind m k d = Done b d'.
Proof. intros Hm [d' Hk]. exists d'. unfold bind. by rewrite Hm. Qed.

Lemma find_parent_top up x g :
  NoDup (ids g) -> x ∈ tops g -> find_parent up x g = Some up.
Proof.
  induction g as [|j d k IHk s IHs]; intros Hnd Hx.
  - by apply elem_of_nil in Hx.
  - destruct (NoDup_Node _ _ _ _ Hnd) as (Hjk & Hjs & Hk & Hs & Hdis).
    cbn [tops find_parent] in *. destruct (Nat.eqb_spec j x) as [|Hne]; [done|].
    apply elem_of_cons in Hx as [->|Hx]; [done|].
    assert (Hxs : x ∈ ids s).
    { clear -Hx. induction s as [|i d' k' _ s' IH]; [by apply elem_of_nil in Hx|].
      cbn [tops] in Hx. rewrite ids_Node.
      apply elem_of_cons in Hx as [->|Hx]; [by left|].
      right. apply elem_of_app. right. by apply IH. }
    assert (Hxk : x ∉ ids k) by (intros ?; by eapply Hdis).
    apply (find_parent_None (Some j)) in Hxk. rewrite Hxk. by apply IHs.
Qed.

Lemma tops_sub g : tops g ⊆ ids g.
Proof.
  induction g as [|j d k _ s IHs]; [done|].
  cbn [tops]. rewrite ids_Node. intros x [->|Hx]%elem_of_cons; [by left|].
  right. apply elem_of_app. right. by apply IHs.
Qed.

Lemma find_parent_child up p pd k x f :
  NoDup (ids f) -> lookup_node p f = Some (pd, k) -> x ∈ tops k ->
  find_parent up x f = Some (Some p).
Proof.
  revert up. induction f as [|i d kk IHk s IHs]; intros up Hnd Hl Hx; [done|].
  destruct (NoDup_Node _ _ _ _ Hnd) as (Hik & His & Hk & Hs & Hdis).
  cbn [lookup_node find_parent] in *.
  destruct (Nat.eqb_spec i p) as [->|Hip].
  - injection Hl as <- <-.
    destruct (Nat.eqb_spec p x) as [->|_].
    { exfalso. apply Hik. by apply tops_sub. }
    by rewrite (find_parent_top (Some p) x kk Hk Hx).
  - destruct (lookup_node p kk) as [r|] eqn:Ek.
    + injection Hl as ->.
      assert (Hxkk : x ∈ ids kk).
      { eapply lookup_node_ids_sub; [done|]. by apply tops_sub. }
      destruct (Nat.eqb_spec i x) as [->|_]; [done|].
      by rewrite (IHk (Some i) Hk eq_refl Hx).
    + assert (Hxs : x ∈ ids s).
      { eapply lookup_node_ids_sub; [done|]. by apply tops_sub. }
      destruct (Nat.eqb_spec i x) as [->|_]; [done|].
      assert (Hxk : x ∉ ids kk) by (intros ?; by eapply Hdis).
      apply (find_parent_None (Some i)) in Hxk. rewrite Hxk.
      by apply IHs.
Qed.

(** A node that occurs under [p] is cut off under [p]. *)
Lemma cutoff_under p pd k x f :
  NoDup (ids f) -> lookup_node p f = Some (pd, k) -> x ∈ ids k ->
  cutoff x f = cutoff x k.
Proof.
  induction f as [|i d kk IHk s IHs]; intros Hnd Hl Hx; [done|].
  destruct (NoDup_Node _ _ _ _ Hnd) as (Hik & His & Hk & Hs & Hdis).
  cbn [lookup_node cutoff] in *.
  destruct (Nat.eqb_spec i p) as [->|Hip].
  - injection Hl as <- <-.
    destruct (Nat.eqb_spec p x) as [->|_]; [done|].
    rewrite (cutoff_not_in x s) by (by apply Hdis). apply fapp_Nil_r.
  - destruct (lookup_node p kk) as [r|] eqn:Ek.
    + injection Hl as ->.
      assert (Hxkk : x ∈ ids kk) by (by eapply lookup_node_ids_sub).
      destruct (Nat.eqb_spec i x) as [->|_]; [done|].
      rewrite (cutoff_not_in x s) by (by apply Hdis).
      rewrite fapp_Nil_r. by apply IHk.
    + assert (Hxs : x ∈ ids s) by (by eapply lookup_node_ids_sub).
      destruct (Nat.eqb_spec i x) as [->|_]; [done|].
      assert (Hxk : x ∉ ids kk) by (intros ?; by eapply Hdis).
      rewrite (cutoff_not_in x kk Hxk). by apply IHs.
Qed.

Lemma children_length f p : length (ids (children_of f p)) <= length (ids f).
Proof.
  unfold children_of. destruct (lookup_node p f) as [[pd k]|] eqn:E.
  - apply lookup_node_split in E as (pre & post & E & _).
    unfold ids. rewrite E, !length_fmap, length_app, length_cons, length_app. lia.
  - unfold ids at 1. cbn. lia.
Qed.

Lemma clear_runs p fuel d :
  store_ok d -> p ∈ ids (store d) ->
  length (ids (children_of (store d) p)) < fuel ->
  exists d', while_firstChild fuel p (removeChild p) d = Done tt d'.
Proof.
  revert d. induction fuel as [|n IH]; intros d Hok Hp Hlen; [lia|].
  destruct (lookup_node_is_Some _ _ Hp) as [[pd k] Hl].
  unfold children_of in Hlen. rewrite Hl in Hlen.
  cbn [while_firstChild]. unfold bind at 1, firstChild. rewrite Hl.
  destruct k as [|x xd xk xs]; [by exists d|].
  destruct Hok as [Hnd Hlt].
  pose proof (lookup_node_not_self _ _ _ _ Hnd Hl) as Hpk.
  assert (Hxk : x ∈ ids (Node x xd xk xs)) by (rewrite ids_Node; by left).
  assert (Hpar : parentNode (store d) x = Some p).
  { unfold parentNode.
    rewrite (find_parent_child None p pd (Node x xd xk xs) x); [done..|].
    cbn [tops]. by left. }
  eapply bind_runs; [by apply removeChild_of_parent|].
  apply IH.
  - eapply removeChild_store_ok; [by split | by apply removeChild_of_parent].
  - proj. rewrite ids_fapp, ids_cut_cutoff. done.
  - proj. unfold children_of.
    assert (Hoff : cutoff x (store d) = cutoff x (Node x xd xk xs))
      by (by eapply cutoff_under).
    assert (Hpoff : p ∉ ids (cutoff x (store d))).
    { rewrite Hoff. intros Hin. by apply ids_cutoff_sub in Hin. }
    rewrite lookup_node_fapp, (lookup_node_cut _ _ _ Hpoff), Hl.
    pose proof (ids_cut_cutoff x (Node x xd xk xs)) as Hperm.
    apply Permutation_length in Hperm. rewrite length_app in Hperm.
    cbn [cutoff] in Hperm. rewrite Nat.eqb_refl, (ids_Node x) in Hperm.
    cbn [length] in Hperm. lia.
Qed.

Lemma tops_length g : length (tops g) <= length (ids g).
Proof.
  induction g as [|j d k _ s IHs]; [done|].
  cbn [tops]. rewrite ids_Node. cbn [length]. rewrite length_app. lia.
Qed.

Lemma transfer_runs c cd K body t a H fuel K1 K2 d :
  transferring c cd K body (Element t a) H K1 K2 d ->
  length (tops K2) < fuel ->
  exists d', while_firstChild fuel c (appendChild body) d = Done tt d'.
Proof.
  revert K1 K2 d. induction fuel as [|n IH]; intros K1 K2 d Hinv Hlen; [lia|].
  pose proof Hinv as (Hok & Hc & Hb & HK & [Hbc HbK]).
  destruct Hok as [Hnd Hlt].
  pose proof (clone_at_lookup _ _ _ _ Hnd Hc) as Hlc.
  cbn [while_firstChild]. unfold bind at 1, firstChild. rewrite Hlc.
  destruct K2 as [|x xd xk K2]; [by exists d|].
  pose proof (clone_at_first _ _ _ _ _ _ _ Hnd Hc) as Hlx.
  pose proof (cutoff_unique _ _ _ _ Hnd Hlx) as Hoff.
  assert (Hbsub : body ∉ ids (cutoff x (store d))).
  { rewrite Hoff. intros Hin. apply HbK. rewrite ids_Node in Hin |- *.
    apply elem_of_cons in Hin as [->|Hin]; [by left|]. right.
    rewrite elem_of_app in Hin |- *. destruct Hin as [?|Hin]; [by left|].
    by apply elem_of_nil in Hin. }
  assert (Happ : appendChild body x d
                 = Done tt (with_store d
                     (graft body (cutoff x (store d)) (cut x (store d))))).
  { unfold appendChild. rewrite Hb, Hlx, (lookup_node_cut _ _ _ Hbsub), Hb. done. }
  eapply bind_runs; [exact Happ|].
  eapply IH.
  - eapply transferring_step; [exact Hinv | exact Happ].
  - cbn [tops length] in Hlen. lia.
Qed.

(** *** Every phase keeps the page loaded *)

Lemma sound_ret {A} (x : A) : sound (ret x).
Proof. by intros d a d' Hok [_ ->]%ret_Done. Qed.

Lemma sound_gets {A} (g : document -> A) : sound (gets g).
Proof. by intros d a d' Hok [_ ->]%gets_Done. Qed.

Lemma sound_bind {A B} (m : M A) (k : A -> M B) :
  sound m -> (forall a, sound (k a)) -> sound (bind m k).
Proof.
  intros Hm Hk d b d' Hok (a & d1 & H1 & H2)%bind_Done.
  destruct (Hm _ _ _ Hok H1) as [Hok1 He1].
  destruct (Hk a _ _ _ Hok1 H2) as [Hok2 He2]. auto.
Qed.

Lemma sound_firstChild x : sound (firstChild x).
Proof. by intros d a d' Hok [-> _]%firstChild_Done. Qed.

Lemma sound_removeChild p c : sound (removeChild p c).
Proof.
  intros d a d' Hok H. split; [by eapply removeChild_store_ok|].
  intros q. by eapply removeChild_elem.
Qed.

Lemma sound_appendChild p c : sound (appendChild p c).
Proof.
  intros d a d' Hok H. split; [by eapply appendChild_store_ok|].
  intros q. by eapply appendChild_elem.
Qed.

Lemma sound_setAttribute x k v : sound (setAttribute x k v).
Proof.
  intros d a d' Hok H. split; [by eapply setAttribute_store_ok|].
  intros q. by eapply setAttribute_elem.
Qed.

Lemma sound_createElement name : sound (createElement name).
Proof.
  intros d a d' Hok H. split; [by eapply createElement_store_ok|].
  intros q. by eapply createElement_elem.
Qed.

Lemma sound_set_textContent x s : sound (set_textContent x s).
Proof.
  intros d a d' Hok H. split; [by eapply set_textContent_store_ok|].
  intros q. by eapply set_textContent_elem.
Qed.

Lemma sound_while_firstChild fuel x step :
  (forall c, sound (step c)) -> sound (while_firstChild fuel x step).
Proof.
  intros Hs. induction fuel as [|n IH]; cbn [while_firstChild]; [done|].
  apply sound_bind; [apply sound_firstChild|].
  intros [c|]; [|apply sound_ret]. apply sound_bind; auto.
Qed.

Create HintDb sound.
#[export] Hint Resolve sound_ret sound_gets sound_firstChild sound_removeChild
  sound_appendChild sound_setAttribute sound_createElement
  sound_set_textContent sound_while_firstChild : sound.

Ltac sound :=
  repeat first
    [ apply sound_bind; [|intros ?]
    | solve [eauto with sound] ].

Lemma sound_rebuild_head : sound rebuild_head.
Proof. unfold rebuild_head. sound. Qed.

Lemma sound_rebuild_style : sound rebuild_style.
Proof. unfold rebuild_style. sound. Qed.

Lemma sound_rebuild_heading title : sound (rebuild_heading title).
Proof. unfold rebuild_heading. sound. Qed.

Lemma sound_transfer clone : sound (transfer clone).
Proof. unfold transfer. sound. Qed.

(** *** Building a new element and appending it *)

Section LastRoot.

Variables (f1 : forest) (m : node_id).
Hypothesis m_new : m ∉ ids f1.

Lemma lookup_last md mk :
  lookup_node m (fapp f1 (Node m md mk Nil)) = Some (md, mk).
Proof.
  rewrite lookup_node_fapp, (proj2 (lookup_node_None _ _) m_new).
  cbn [lookup_node]. by rewrite Nat.eqb_refl.
Qed.

Lemma setAttribute_last t a k v d :
  store d = fapp f1 (Node m (Element t a) Nil Nil) ->
  setAttribute m k v d
  = Done tt (with_store d (fapp f1 (Node m (Element t (assoc_set k v a)) Nil Nil))).
Proof.
  intros Hs. unfold setAttribute. rewrite Hs, lookup_last.
  rewrite update_fapp, (update_not_in _ _ _ m_new). cbn [update set_attr].
  by rewrite Nat.eqb_refl.
Qed.

Lemma set_textContent_last md s d :
  store d = fapp f1 (Node m md Nil Nil) ->
  exists d', set_textContent m s d = Done tt d' /\
    store d' = fapp f1 (Node m md (text_child (fresh d) s) Nil).
Proof.
  intros Hs. unfold set_textContent, text_child. rewrite Hs, lookup_last.
  destruct (truthy s); eexists; (split; [done|]); proj;
    rewrite fapp_Nil_r, set_kids_fapp, (set_kids_not_in _ _ _ m_new);
    cbn [set_kids]; by rewrite Nat.eqb_refl.
Qed.

Lemma appendChild_last md mk p d :
  store d = fapp f1 (Node m md mk Nil) ->
  NoDup (ids f1) -> elem f1 p ->
  appendChild p m d = Done tt (with_store d (graft p (Node m md mk Nil) f1)).
Proof.
  intros Hs Hnd Hp. destruct (elem_lookup _ _ Hnd Hp) as (t & a & k & Hl).
  unfold appendChild. rewrite Hs, lookup_last, lookup_node_fapp, Hl.
  rewrite cut_fapp, cutoff_fapp, (cut_not_in _ _ m_new), (cutoff_not_in _ _ m_new).
  cbn [cut cutoff fapp]. rewrite Nat.eqb_refl. cbn [cut cutoff fapp].
  by rewrite fapp_Nil_r, Hl.
Qed.

End LastRoot.

Lemma fresh_new d : store_ok d -> fresh d ∉ ids (store d).
Proof.
  intros [_ Hlt] Hin. rewrite Forall_forall in Hlt. specialize (Hlt _ Hin). lia.
Qed.


Lemma createElement_runs name d :
  exists d', createElement name d = Done (fresh d) d' /\
    store d' = fapp (store d) (Node (fresh d) (Element (toLowerCase name) []) Nil Nil) /\
    fresh d' = S (fresh d).
Proof. by eexists. Qed.

Lemma loop_fuel_enough d p :
  length (ids (children_of (store d) p)) < loop_fuel d.
Proof. unfold loop_fuel. pose proof (children_length (store d) p). lia. Qed.

Ltac run_step H := eapply bind_runs; [exact H|].

Lemma rebuild_head_runs d :
  store_ok d -> elem (store d) (doc_head d) ->
  exists d', rebuild_head d = Done tt d'.
Proof.
  intros Hok Hel. unfold rebuild_head.
  eapply bind_runs; [reflexivity|]. eapply bind_runs; [reflexivity|].
  destruct (clear_runs (doc_head d) (loop_fuel d) d Hok (elem_in_ids _ _ Hel)
              (loop_fuel_enough _ _)) as [d1 H1].
  run_step H1.
  destruct (sound_while_firstChild _ _ _ (sound_removeChild _) _ _ _ Hok H1)
    as [Hok1 Hk1].
  (* the first meta *)
  destruct (createElement_runs "meta" d1) as (d2 & H2 & Hs2 & _). run_step H2.
  pose proof (setAttribute_last _ _ (fresh_new _ Hok1) _ _ "charset" "UTF-8" _ Hs2)
    as H3.
  run_step H3.
  match type of H3 with _ = Done _ ?d => set (d3 := d) in * end.
  pose proof (appendChild_last _ _ (fresh_new _ Hok1) _ _ (doc_head d) d3
                eq_refl (proj1 Hok1) (Hk1 _ Hel)) as H4.
  run_step H4.
  destruct (sound_createElement _ _ _ _ Hok1 H2) as [Hok2 Hk2].
  destruct (sound_setAttribute _ _ _ _ _ _ Hok2 H3) as [Hok3 Hk3].
  destruct (sound_appendChild _ _ _ _ _ Hok3 H4) as [Hok4 Hk4].
  assert (Hel4 := Hk4 _ (Hk3 _ (Hk2 _ (Hk1 _ Hel)))).
  (* the second meta *)
  match type of H4 with _ = Done _ ?d => set (d4 := d) in * end.
  destruct (createElement_runs "meta" d4) as (d5 & H5 & Hs5 & _). run_step H5.
  pose proof (setAttribute_last _ _ (fresh_new _ Hok4) _ _ "name" "viewport" _ Hs5)
    as H6.
  run_step H6.
  match type of H6 with _ = Done _ ?d => set (d6 := d) in * end.
  pose proof (setAttribute_last _ _ (fresh_new _ Hok4) _ _
                "content" "width=device-width, initial-scale=1.0" d6 eq_refl) as H7.
  run_step H7.
  match type of H7 with _ = Done _ ?d => set (d7 := d) in * end.
  pose proof (appendChild_last _ _ (fresh_new _ Hok4) _ _ (doc_head d) d7
                eq_refl (proj1 Hok4) Hel4) as H8.
  eexists. exact H8.
Qed.

Lemma rebuild_style_runs d :
  store_ok d -> elem (store d) (doc_head d) ->
  exists d', rebuild_style d = Done tt d'.
Proof.
  intros Hok Hel. unfold rebuild_style.
  eapply bind_runs; [reflexivity|].
  destruct (createElement_runs "style" d) as (d2 & H2 & Hs2 & _). run_step H2.
  destruct (set_textContent_last _ _ (fresh_new _ Hok) _ reader_css _ Hs2)
    as (d3 & H3 & Hs3).
  run_step H3.
  pose proof (appendChild_last _ _ (fresh_new _ Hok) _ _ (doc_head d) _
                Hs3 (proj1 Hok) Hel) as H4.
  eexists. exact H4.
Qed.

Lemma rebuild_heading_runs title d :
  store_ok d -> elem (store d) (doc_body d) ->
  exists d', rebuild_heading title d = Done tt d'.
Proof.
  intros Hok Hel. unfold rebuild_heading.
  eapply bind_runs; [reflexivity|]. eapply bind_runs; [reflexivity|].
  destruct (clear_runs (doc_body d) (loop_fuel d) d Hok (elem_in_ids _ _ Hel)
              (loop_fuel_enough _ _)) as [d1 H1].
  run_step H1.
  destruct (sound_while_firstChild _ _ _ (sound_removeChild _) _ _ _ Hok H1)
    as [Hok1 Hk1].
  destruct (createElement_runs "h1" d1) as (d2 & H2 & Hs2 & _). run_step H2.
  destruct (set_textContent_last _ _ (fresh_new _ Hok1) _ title _ Hs2)
    as (d3 & H3 & Hs3).
  run_step H3.
  pose proof (appendChild_last _ _ (fresh_new _ Hok1) _ _ (doc_body d) _
                Hs3 (proj1 Hok1) (Hk1 _ Hel)) as H4.
  eexists. exact H4.
Qed.

Lemma transfer_runs_from c cd K t a H K1 K2 d :
  transferring c cd K (doc_body d) (Element t a) H K1 K2 d ->
  exists d', transfer c d = Done tt d'.
Proof.
  intros Hinv. unfold transfer.
  eapply bind_runs; [reflexivity|]. eapply bind_runs; [reflexivity|].
  eapply transfer_runs; [exact Hinv|].
  destruct Hinv as ([Hnd _] & Hc & _).
  pose proof (clone_at_lookup _ _ _ _ Hnd Hc) as Hl.
  pose proof (children_length (store d) c) as Hlen.
  unfold children_of in Hlen. rewrite Hl in Hlen.
  pose proof (tops_length K2). unfold loop_fuel. lia.
Qed.

Lemma mark_and_scroll_runs d :
  store_ok d -> elem (store d) (doc_body d) ->
  exists d', mark_and_scroll d = Done tt d'.
Proof.
  intros [Hnd _] Hel. destruct (elem_lookup _ _ Hnd Hel) as (t & a & k & Hl).
  unfold mark_and_scroll.
  eapply bind_runs; [reflexivity|].
  eapply bind_runs; [unfold setAttribute; by rewrite Hl|].
  by eexists.
Qed.

Lemma in_reader_mode_runs d :
  store_ok d -> elem (store d) (doc_body d) ->
  in_reader_mode d = Done (mode_flag d) d.
Proof.
  intros [Hnd _] Hel. destruct (elem_lookup _ _ Hnd Hel) as (t & a & k & Hl).
  unfold in_reader_mode, mode_flag, bind, gets, getAttribute, ret.
  by rewrite Hl.
Qed.

Section Total.

Variable innerText : forest -> node_id -> string.

Lemma loaded_well_formed d : loaded d -> well_formed d.
Proof.
  intros ([Hnd Hlt] & Hh & Hb).
  split; [done|]. split; [done|]. split; by apply elem_in_ids.
Qed.

(** On a loaded page that is not in reader mode the script runs to its
    end: no host fault, and no loop exhausts its fuel. *)
Theorem reader_mode_completes d :
  loaded d -> mode_flag d = false ->
  exists d', reader_mode innerText d = Done tt d'.
Proof.
  intros Hld Hf. pose proof (loaded_well_formed d Hld) as Hwf.
  destruct Hld as (Hok & Hh & Hb). unfold reader_mode.
  run_step (in_reader_mode_runs d Hok Hb). rewrite Hf.
  destruct (prepare_runs innerText d) as (t & c & d1 & Hp); [by split|].
  run_step Hp. cbn [fst snd].
  destruct (prepare_post innerText _ _ _ _ Hwf Hp)
    as (-> & -> & cd & K & Hcl & _).
  destruct Hwf as (Hnd0 & Hlt0 & _ & _).
  destruct (cleaning_kids _ _ _ _ Hlt0 (le_n _) _ _ Hcl) as [_ HidsK].
  assert (Hinv1 : rebuilding (fresh d) cd K d1) by (destruct Hcl as (? & ? & _); by split).
  assert (Hout : forall x, elem (store d) x -> outside (fresh d) K x).
  { intros x Hx%elem_in_ids. rewrite Forall_forall in Hlt0, HidsK.
    specialize (Hlt0 x Hx). split; [lia|].
    intros Hin. destruct (HidsK x Hin). lia. }
  assert (Hk1 : forall q, elem (store d) q -> elem (store d1) q).
  { destruct Hcl as (_ & _ & X & HX & _). intros q. apply elem_sub.
    rewrite HX, nodes_fapp. intros y Hy. apply elem_of_app. by left. }
  assert (Hh1 : doc_head d1 = doc_head d)
    by (eapply (preserves_prepare innerText doc_head); eauto with frame).
  assert (Hb1 : doc_body d1 = doc_body d)
    by (eapply (preserves_prepare innerText doc_body); eauto with frame).
  unfold rebuild.
  (* head *)
  destruct (rebuild_head_runs d1) as [d2 H2];
    [apply Hinv1 | rewrite Hh1; auto |].
  run_step H2.
  assert (Hinv2 : rebuilding (fresh d) cd K d2).
  { eapply rebuilding_rebuild_head; [done| |done]. rewrite Hh1. auto. }
  destruct (sound_rebuild_head _ _ _ (proj1 Hinv1) H2) as [_ Hk2].
  assert (Hh2 : doc_head d2 = doc_head d).
  { rewrite (preserves_rebuild_head doc_head store_blind_head _ _ _ H2). done. }
  assert (Hb2 : doc_body d2 = doc_body d).
  { rewrite (preserves_rebuild_head doc_body store_blind_body _ _ _ H2). done. }
  (* title and style *)
  eapply bind_runs; [reflexivity|].
  set (d3 := with_title d2 ("Reader: " ++ extract_title innerText d)%string).
  assert (Hinv3 : rebuilding (fresh d) cd K d3) by done.
  destruct (rebuild_style_runs d3) as [d4 H4];
    [apply Hinv3 | unfold d3; proj; rewrite Hh2; auto |].
  run_step H4.
  assert (Hinv4 : rebuilding (fresh d) cd K d4).
  { eapply rebuilding_rebuild_style; [done| |done].
    unfold d3. proj. rewrite Hh2. auto. }
  destruct (sound_rebuild_style _ _ _ (proj1 Hinv3) H4) as [_ Hk4].
  assert (Hb4 : doc_body d4 = doc_body d).
  { rewrite (preserves_rebuild_style doc_body store_blind_body _ _ _ H4). done. }
  assert (Hel4 : elem (store d4) (doc_body d4)).
  { rewrite Hb4. apply Hk4. unfold d3. proj. auto. }
  (* body *)
  destruct (rebuild_heading_runs (extract_title innerText d) d4) as [d5 H5];
    [apply Hinv4 | done |].
  assert (Ho4 : outside (fresh d) K (doc_body d4)) by (rewrite Hb4; auto).
  destruct (rebuild_heading_post _ _ _ _ _ _ _ Hinv4 Ho4 H5)
    as (bd & h & i & Htr & Hbd).
  specialize (Hbd Hel4). destruct bd as [tb ab|]; [|done].
  assert (Hb5 : doc_body d5 = doc_body d4).
  { assert (Hpres : preserves doc_body (rebuild_heading (extract_title innerText d)))
      by (unfold rebuild_heading; frame).
    exact (Hpres _ _ _ H5). }
  rewrite <- Hb5 in Htr.
  destruct (transfer_runs_from _ _ _ _ _ _ _ _ _ Htr) as [d6 H6].
  assert (Hbody : rebuild_body (extract_title innerText d) (fresh d) d4 = Done tt d6).
  { unfold rebuild_body, bind. by rewrite H5. }
  run_step Hbody.
  (* flag *)
  apply mark_and_scroll_runs.
  - by destruct (transfer_post _ _ _ _ _ _ _ _ _ _ Htr H6) as (? & _).
  - destruct (sound_rebuild_heading _ _ _ _ (proj1 Hinv4) H5) as [Hok5 Hk5].
    destruct (sound_transfer _ _ _ _ Hok5 H6) as [_ Hk6].
    assert (Hb6 : doc_body d6 = doc_body d5).
    { assert (Hpres : preserves doc_body (transfer (fresh d)))
        by (unfold transfer; frame).
      exact (Hpres _ _ _ H6). }
    rewrite Hb6, Hb5. auto.
Qed.


End Total.

(** * More properties of the script *)

(** ** The cleaning passes as a pruning *)

Lemma cut_all_Nil l : cut_all l Nil = Nil.
Proof. induction l as [|e l IH]; [done|]. exact IH. Qed.

Lemma cut_all_Node l i d k s :
  cut_all l (Node i d k s)
  = if bool_decide (i ∈ l) then cut_all l s
    else Node i d (cut_all l k) (cut_all l s).
Proof.
  revert k s. induction l as [|e l IH]; intros k s.
  - by rewrite bool_decide_eq_false_2 by apply not_elem_of_nil.
  - change (cut_all (e :: l) (Node i d k s))
      with (cut_all l (cut e (Node i d k s))).
    cbn [cut]. destruct (Nat.eqb_spec i e) as [->|Hne].
    + by rewrite bool_decide_eq_true_2 by left.
    + rewrite IH. destruct (decide (i ∈ l)) as [Hin|Hin].
      * rewrite !bool_decide_eq_true_2; [done | by right | done].
      * rewrite !bool_decide_eq_false_2; [done | | done].
        by intros [?|?]%elem_of_cons.
Qed.

Lemma cut_all_prune P l K :
  (forall i nd, (i, nd) ∈ nodes K -> i ∈ l <-> P nd = true) ->
  cut_all l K = prune P K.
Proof.
  induction K as [|i d k IHk s IHs]; intros H; [apply cut_all_Nil|].
  rewrite cut_all_Node. cbn [prune].
  assert (Hk : cut_all l k = prune P k).
  { apply IHk. intros j nd Hin. apply H. cbn [nodes]. right.
    apply elem_of_app. by left. }
  assert (Hs : cut_all l s = prune P s).
  { apply IHs. intros j nd Hin. apply H. cbn [nodes]. right.
    apply elem_of_app. by right. }
  rewrite Hk, Hs. specialize (H i d (ltac:(cbn [nodes]; by left))).
  destruct (P d).
  - by rewrite bool_decide_eq_true_2 by (by apply H).
  - rewrite bool_decide_eq_false_2; [done|]. intros Hin. by apply H in Hin.
Qed.

Lemma prune_prune P Q K :
  prune Q (prune P K) = prune (fun nd => P nd || Q nd) K.
Proof.
  induction K as [|i d k IHk s IHs]; [done|]. cbn [prune].
  destruct (P d); cbn [orb]; [done|]. cbn [prune].
  destruct (Q d); [done|]. by rewrite IHk, IHs.
Qed.

Lemma prune_ext P Q K :
  (forall nd, P nd = Q nd) -> prune P K = prune Q K.
Proof.
  intros H. induction K as [|i d k IHk s IHs]; [done|]. cbn [prune].
  by rewrite H, IHk, IHs.
Qed.

Lemma prune_none P K :
  Forall (fun p => P p.2 = false) (nodes K) -> prune P K = K.
Proof.
  induction K as [|i d k IHk s IHs]; intros H; [done|]. cbn [nodes] in H.
  apply Forall_cons in H as [Hd [Hk Hs]%Forall_app]. cbn [prune].
  cbn in Hd. by rewrite Hd, IHk, IHs.
Qed.

Lemma nodes_prune_sublist P K : nodes (prune P K) `sublist_of` nodes K.
Proof.
  induction K as [|i d k IHk s IHs]; [done|]. cbn [prune nodes].
  destruct (P d); cbn [nodes].
  - apply sublist_cons. etrans; [done|]. apply sublist_inserts_l. done.
  - apply sublist_skip. by apply sublist_app.
Qed.

Lemma shape_prune P K : shape (prune P K) = prune P (shape K).
Proof.
  induction K as [|i d k IHk s IHs]; [done|]. cbn [prune shape].
  destruct (P d); [done|]. cbn [shape]. by rewrite IHk, IHs.
Qed.

Lemma shape_relabel n K : shape (relabel n K).1 = shape K.
Proof.
  revert n. induction K as [|i d k IHk s IHs]; intros n; [done|].
  cbn [relabel]. specialize (IHk (S n)).
  destruct (relabel (S n) k) as [k' n1]. specialize (IHs n1).
  destruct (relabel n1 s) as [s' n2]. cbn [fst shape] in *.
  by rewrite IHk, IHs.
Qed.

Lemma excluded_tag_existsb nd :
  existsb (fun t => matches [SType t] nd) removeTags = excluded_tag nd.
Proof.
  destruct nd as [t0 a|s]; [|by vm_compute].
  unfold excluded_tag. generalize removeTags as l.
  induction l as [|t l IH]; [done|].
  cbn [existsb matches matches1] in *. by rewrite IH, orb_false_r.
Qed.

Lemma data_of_perm f f' x :
  NoDup (ids f) -> nodes f' ≡ₚ nodes f -> data_of f' x = data_of f x.
Proof.
  intros Hnd Hp.
  assert (Hnd' : NoDup (ids f')) by (unfold ids; by rewrite Hp).
  destruct (lookup_node x f) as [[nd k]|] eqn:E.
  - transitivity nd; [|unfold data_of; by rewrite E].
    apply data_of_unique; [done|]. rewrite Hp. by eapply lookup_node_elem.
  - unfold data_of at 2. rewrite E. apply lookup_node_None in E.
    assert (E' : x ∉ ids f') by (unfold ids in *; by rewrite Hp).
    apply lookup_node_None in E'. unfold data_of. by rewrite E'.
Qed.

Section CleaningExact.

Variables (n0 : node_id) (F : forest) (c : node_id) (cd : node_data).
Hypothesis F_old : Forall (fun i => i < n0) (ids F).
Hypothesis c_new : n0 <= c.

Lemma cleaning_NoDup K d : cleaning n0 F c cd K d -> NoDup (ids K).
Proof.
  intros ([Hnd _] & (A & B & E) & _). rewrite E in Hnd.
  by destruct (NoDup_clone_at _ _ _ _ _ Hnd) as (_ & _ & _ & ?).
Qed.

(** The tag pass removes the descendants of the clone that carry one of
    the tags, with all they contain, and nothing else. *)
Lemma strip_tags_prune tags K d u d' :
  cleaning n0 F c cd K d ->
  strip_tags tags c d = Done u d' ->
  cleaning n0 F c cd
    (prune (fun nd => existsb (fun t => matches [SType t] nd) tags) K) d'.
Proof.
  revert K d. induction tags as [|t tags IH]; intros K d Hinv Hrun.
  - apply ret_Done in Hrun as [_ ->]. rewrite prune_none; [done|].
    by apply Forall_forall.
  - cbn [strip_tags] in Hrun.
    apply bind_Done in Hrun as (els & d0 & [-> ->]%gets_Done & Hrun).
    apply bind_Done in Hrun as (? & d1 & Hrm & Hrun).
    destruct (cleaning_kids _ _ _ _ F_old c_new K d Hinv) as [HK Hids].
    pose proof (cleaning_NoDup K d Hinv) as HndK.
    unfold querySelectorAll in Hrm. rewrite HK in Hrm.
    set (els := select [SType t] (nodes K)) in *.
    assert (Hels : Forall (fun e => n0 <= e /\ e <> c) (rev els)).
    { apply Forall_forall. intros e He.
      apply (proj1 (elem_of_rev _ _)) in He. unfold els in He.
      apply select_elem in He as (nd & He & _).
      rewrite Forall_forall in Hids. apply Hids.
      apply list_elem_of_fmap. by exists (e, nd). }
    pose proof (cleaning_remove_all _ _ _ _ F_old c_new _ _ _ _ _ Hels Hinv Hrm)
      as Hinv1.
    rewrite (cut_all_prune (fun nd => matches [SType t] nd)) in Hinv1.
    + specialize (IH _ _ Hinv1 Hrun). by rewrite prune_prune in IH.
    + intros i nd Hin. rewrite elem_of_rev. unfold els. rewrite select_elem.
      split; [|by exists nd].
      intros (nd' & Hin' & Hm).
      by rewrite (NoDup_fst_functional _ _ _ _ HndK Hin Hin').
Qed.

Lemma strip_class_step_exact el K d u d' :
  n0 <= el -> el <> c ->
  cleaning n0 F c cd K d ->
  strip_class_step el d = Done u d' ->
  cleaning n0 F c cd
    (if excluded_class (data_of (store d) el) then cut el K else K) d' /\
  forall x, data_of (store d') x = data_of (store d) x.
Proof.
  intros Hel Hec Hinv Hrun. unfold strip_class_step in Hrun.
  apply bind_Done in Hrun as (ci & d0 & [-> ->]%gets_Done & Hrun).
  unfold excluded_class.
  destruct (test re_strip (classId (data_of (store d) el))) eqn:Ht.
  - apply bind_Done in Hrun as (p & d0 & [-> ->]%gets_Done & Hrun).
    destruct (parentNode (store d) el) as [p|] eqn:Hp.
    + split; [by eapply cleaning_removeChild|].
      intros y. destruct Hinv as ([Hnd _] & _).
      apply removeChild_Done in Hrun as [_ ->]. proj.
      apply data_of_perm; [done|]. by rewrite nodes_fapp, nodes_cut_cutoff.
    + apply ret_Done in Hrun as [_ ->]. split; [|done].
      rewrite cut_not_in; [done|]. intros Hin.
      destruct Hinv as ([Hnd _] & Hc & _).
      destruct (clone_at_inner _ _ _ _ _ Hnd Hc Hin) as (q & Hq & _).
      unfold parentNode in Hp. by rewrite Hq in Hp.
  - by apply ret_Done in Hrun as [_ ->].
Qed.

Lemma strip_classes_exact g l K d u d' :
  (forall x, data_of (store d) x = g x) ->
  Forall (fun e => n0 <= e /\ e <> c) l ->
  cleaning n0 F c cd K d ->
  strip_classes l d = Done u d' ->
  cleaning n0 F c cd
    (cut_all (filter (fun e => excluded_class (g e) = true) l) K) d'.
Proof.
  revert K d. induction l as [|el l IH]; intros K d Hg Hl Hinv Hrun.
  - by apply ret_Done in Hrun as [_ ->].
  - apply Forall_cons in Hl as [[Hel Hec] Hl]. cbn [strip_classes] in Hrun.
    apply bind_Done in Hrun as (? & d1 & Hstep & Hrun).
    destruct (strip_class_step_exact _ _ _ _ _ Hel Hec Hinv Hstep)
      as [Hinv1 Hdata].
    assert (Hg1 : forall y, data_of (store d1) y = g y)
      by (intros y; by rewrite Hdata).
    specialize (IH _ _ Hg1 Hl Hinv1 Hrun). rewrite Hg in IH.
    rewrite filter_cons. destruct (excluded_class (g el)) eqn:E.
    + by rewrite decide_True by done.
    + by rewrite decide_False by done.
Qed.

End CleaningExact.

(** The clone after the two passes: a root of the store that carries the
    data of the cloned node; its children are the copies of the children of
    that node, without the excluded nodes and what they contain. *)
Lemma clean_exact content d c d1 :
  store_ok d ->
  clean content d = Done c d1 ->
  c = fresh d /\
  exists nd k,
    lookup_node content (store d) = Some (nd, k) /\
    cleaning (fresh d) (store d) c nd
      (prune excluded (relabel (S (fresh d)) k).1) d1.
Proof.
  intros Hok Hrun. unfold clean in Hrun.
  apply bind_Done in Hrun as (c0 & d0 & Hclone & Hrun).
  apply bind_Done in Hrun as (? & d2 & Htags & Hrun).
  apply bind_Done in Hrun as (allEls & d3 & [-> ->]%gets_Done & Hrun).
  apply bind_Done in Hrun as (? & d4 & Hcls & [-> ->]%ret_Done).
  pose proof (cloneNode_store_ok _ _ _ _ Hok Hclone) as Hok0.
  apply cloneNode_Done in Hclone as (-> & nd & k & Hl & Hd0).
  split; [done|]. exists nd, k. split; [done|].
  assert (Hold : Forall (fun i => i < fresh d) (ids (store d))) by apply Hok.
  set (K0 := (relabel (S (fresh d)) k).1).
  assert (Hinv0 : cleaning (fresh d) (store d) (fresh d) nd K0 d0).
  { split; [done|]. rewrite Hd0, relabel_root. proj. split.
    - by exists (store d), Nil.
    - eexists. split; [done|].
      unfold K0. rewrite <- (relabel_root (fresh d) content nd k).
      rewrite (proj1 (relabel_ids (fresh d) (Node content nd k Nil))).
      apply Forall_seq. lia. }
  pose proof (strip_tags_prune _ _ _ _ Hold (le_n _) _ _ _ _ _ Hinv0 Htags)
    as Hinv1.
  rewrite (prune_ext _ excluded_tag) in Hinv1 by apply excluded_tag_existsb.
  set (K1 := prune excluded_tag K0) in *.
  destruct (cleaning_kids _ _ _ _ Hold (le_n _) _ _ Hinv1) as [HK1 Hids1].
  pose proof (cleaning_NoDup _ _ _ _ _ _ Hinv1) as HndK1.
  unfold querySelectorAll in Hcls. rewrite HK1 in Hcls.
  assert (Hall : Forall (fun e => fresh d <= e /\ e <> fresh d)
                        (select [SAny] (nodes K1))).
  { apply Forall_forall. intros e (nd' & He & _)%select_elem.
    rewrite Forall_forall in Hids1. apply Hids1.
    apply list_elem_of_fmap. by exists (e, nd'). }
  pose proof (strip_classes_exact _ _ _ _ Hold (le_n _) (data_of (store d2))
                _ _ _ _ _ (fun _ => eq_refl) Hall Hinv1 Hcls) as Hinv2.
  rewrite (cut_all_prune excluded_class) in Hinv2.
  - unfold K1 in Hinv2. by rewrite prune_prune in Hinv2.
  - intros i nd' Hin.
    assert (Hd : data_of (store d2) i = nd').
    { destruct Hinv1 as ([Hnd _] & Hc & _). apply data_of_unique; [done|].
      eapply lookup_node_sub; [by apply clone_at_lookup | done]. }
    rewrite list_elem_of_filter, Hd, select_elem. split; [by intros [? _]|].
    intros He. split; [done|]. exists nd'. split; [done|].
    destruct nd'; [done|]. by rewrite excluded_class_Text in He.
Qed.


Section ReaderView.

Variable innerText : forest -> node_id -> string.

(** The body after the rebuild: the heading, then what the clone held
    when the rebuild began. *)
Lemma rebuild_body_of_clone d t c d1 d' :
  well_formed d ->
  prepare innerText d = Done (t, c) d1 ->
  rebuild t c d1 = Done tt d' ->
  exists h i,
    children_of (store d') (doc_body d')
    = heading_tree h (text_child i t) (children_of (store d1) c).
Proof.
  intros Hwf Hp Hr.
  destruct (prepare_post innerText _ _ _ _ Hwf Hp)
    as (_ & -> & cd & K & Hcl & _).
  destruct Hwf as (Hnd0 & Hlt0 & Hhead & Hbody).
  destruct (cleaning_kids _ _ _ _ Hlt0 (le_n _) _ _ Hcl) as [HK HidsK].
  assert (Hinv1 : rebuilding (fresh d) cd K d1)
    by (destruct Hcl as (? & ? & _); by split).
  assert (Hout : forall x, x ∈ ids (store d) -> outside (fresh d) K x).
  { intros x Hx. rewrite Forall_forall in Hlt0, HidsK.
    specialize (Hlt0 x Hx). split; [lia|].
    intros Hin. destruct (HidsK x Hin). lia. }
  assert (Hh1 : doc_head d1 = doc_head d)
    by (eapply (preserves_prepare innerText doc_head); eauto with frame).
  assert (Hb1 : doc_body d1 = doc_body d)
    by (eapply (preserves_prepare innerText doc_body); eauto with frame).
  unfold rebuild in Hr.
  apply bind_Done in Hr as (? & d2 & H2 & Hr).
  apply bind_Done in Hr as (? & d3 & H3 & Hr).
  apply bind_Done in Hr as (? & d4 & H4 & Hr).
  apply bind_Done in Hr as (? & d5 & H5 & Hr).
  assert (Hinv2 : rebuilding (fresh d) cd K d2).
  { eapply rebuilding_rebuild_head; [done| |done]. rewrite Hh1. auto. }
  assert (Hh2 : doc_head d2 = doc_head d1)
    by (eapply (preserves_rebuild_head doc_head); eauto with frame).
  assert (d3 = with_title d2 ("Reader: " ++ t)%string)
    as -> by (unfold set_title in H3; congruence).
  assert (Hinv4 : rebuilding (fresh d) cd K d4).
  { assert (Hinv3 : rebuilding (fresh d) cd K
                       (with_title d2 ("Reader: " ++ t)%string)) by done.
    eapply rebuilding_rebuild_style; [exact Hinv3| |done]. proj.
    rewrite Hh2, Hh1. auto. }
  assert (Hb4 : doc_body d4 = doc_body d).
  { rewrite (preserves_rebuild_style doc_body store_blind_body _ _ _ H4). proj.
    rewrite (preserves_rebuild_head doc_body store_blind_body _ _ _ H2).
    done. }
  assert (Ho4 : outside (fresh d) K (doc_body d4)) by (rewrite Hb4; auto).
  destruct (rebuild_body_post _ _ _ _ _ _ _ Hinv4 Ho4 H5)
    as ([Hnd5 _] & bd & h & i & Hl5).
  assert (Hb5 : doc_body d5 = doc_body d4)
    by (eapply (preserves_rebuild_body doc_body); eauto with frame).
  unfold mark_and_scroll in Hr.
  apply bind_Done in Hr as (b & d6 & [-> ->]%gets_Done & Hr).
  apply bind_Done in Hr as (? & d7 & Hset & Hr).
  apply setAttribute_Done in Hset as [_ ->]. injection Hr as <-.
  exists h, i. proj. unfold children_of at 1.
  rewrite lookup_node_update, Hb5, Hl5, HK.
  rewrite update_not_in; [done|]. by eapply lookup_node_not_self.
Qed.

(** A run on a loaded page that is not in reader mode: it completes, and
    the body holds the heading and then the pruned copy of the children of
    the located node. *)
Lemma run_view d :
  loaded d -> mode_flag d = false ->
  exists d' nd k h i,
    reader_mode innerText d = Done tt d' /\
    lookup_node (locate innerText d) (store d) = Some (nd, k) /\
    children_of (store d') (doc_body d')
    = heading_tree h (text_child i (extract_title innerText d))
        (prune excluded (relabel (S (fresh d)) k).1).
Proof.
  intros Hld Hf.
  destruct (reader_mode_completes innerText d Hld Hf) as [d' Hrun].
  destruct (reader_mode_phases innerText d d' Hf Hrun) as (t & c & d1 & Hp & Hr).
  pose proof (loaded_well_formed d Hld) as Hwf.
  destruct (rebuild_body_of_clone _ _ _ _ _ Hwf Hp Hr) as (h & i & Hkids).
  pose proof (prepare_title innerText _ _ _ _ Hp) as ->.
  unfold prepare in Hp.
  apply bind_Done in Hp as (c0 & d0 & [-> ->]%gets_Done & Hp).
  apply bind_Done in Hp as (t0 & d2 & [-> ->]%gets_Done & Hp).
  apply bind_Done in Hp as (c1 & d3 & Hclean & [[= ->] ->]%ret_Done).
  destruct Hwf as (Hnd0 & Hlt0 & _).
  destruct (clean_exact _ _ _ _ (conj Hnd0 Hlt0) Hclean)
    as (-> & nd & k & Hl & Hinv).
  destruct (cleaning_kids _ _ _ _ Hlt0 (le_n _) _ _ Hinv) as [HK _].
  exists d', nd, k, h, i. split; [done|]. split; [done|].
  by rewrite Hkids, HK.
Qed.


(** X3. When no descendant of the located node falls under an exclusion
    rule, what follows the heading is a copy of all its children. *)
Theorem clean_content_is_copied_whole d :
  loaded d -> mode_flag d = false ->
  Forall (fun p => excluded p.2 = false)
         (nodes (children_of (store d) (locate innerText d))) ->
  exists d' h hk rest,
    reader_mode innerText d = Done tt d' /\
    children_of (store d') (doc_body d') = heading_tree h hk rest /\
    shape rest = shape (children_of (store d) (locate innerText d)).
Proof.
  intros Hld Hf Hno.
  destruct (run_view d Hld Hf) as (d' & nd & k & h & i & Hrun & Hl & Hkids).
  exists d', h, (text_child i (extract_title innerText d)),
    (prune excluded (relabel (S (fresh d)) k).1).
  split; [done|]. split; [done|].
  rewrite shape_prune, shape_relabel, <- shape_prune. f_equal.
  unfold children_of in *. rewrite Hl in *. by apply prune_none.
Qed.

End ReaderView.



Section EmptyView.

Variable innerText : forest -> node_id -> string.


End EmptyView.

Section WholeRun.

Variable innerText : forest -> node_id -> string.


(** X6. When [document.body] is [null] the script ends at the guard of
    line 5, with a TypeError. *)
Theorem reader_mode_without_body d :
  doc_body d ∉ ids (store d) ->
  reader_mode innerText d = Throw TypeError.
Proof.
  intros Hb%lookup_node_None.
  unfold reader_mode, in_reader_mode, bind, gets, getAttribute.
  by rewrite Hb.
Qed.

Lemma preserves_rebuild {B} (g : document -> B) t c :
  store_blind g ->
  (forall d s, g (with_title d s) = g d) ->
  (forall d e, g (with_effect d e) = g d) ->
  preserves g (rebuild t c).
Proof.
  intros Hg Ht He. unfold rebuild, mark_and_scroll.
  repeat first
    [ apply preserves_bind; [|intros ?]
    | solve [eauto with frame]
    | (intros d ? d' [= <-]; apply Ht)
    | (intros d ? d' [= <-]; apply He) ].
Qed.

(** X7. A run on a loaded page that is not in reader mode asks the
    window for one scroll to the top and for nothing else, no reload in
    particular; [document.body], [document.head] and the document element
    are the nodes they were. *)
Theorem rebuild_scrolls_and_does_not_reload d :
  loaded d -> mode_flag d = false ->
  exists d',
    reader_mode innerText d = Done tt d' /\
    effects d' = effects d ++ [ScrollTo 0 0] /\
    doc_body d' = doc_body d /\
    doc_head d' = doc_head d /\
    documentElement d' = documentElement d.
Proof.
  intros Hld Hf.
  destruct (reader_mode_completes innerText d Hld Hf) as [d' Hrun].
  exists d'. split; [done|].
  destruct (reader_mode_phases innerText d d' Hf Hrun) as (t & c & d1 & Hp & Hr).
  assert (He1 : effects d1 = effects d)
    by (eapply (preserves_prepare innerText effects); eauto with frame).
  assert (Hb1 : doc_body d1 = doc_body d)
    by (eapply (preserves_prepare innerText doc_body); eauto with frame).
  assert (Hh1 : doc_head d1 = doc_head d)
    by (eapply (preserves_prepare innerText doc_head); eauto with frame).
  assert (Hr1 : documentElement d1 = documentElement d)
    by (eapply (preserves_prepare innerText documentElement); eauto with frame).
  rewrite <- Hb1, <- Hh1, <- Hr1, <- He1.
  split; [|by repeat split;
             eapply (preserves_rebuild _ t c); eauto with frame].
  unfold rebuild in Hr.
  apply bind_Done in Hr as (? & d2 & H2 & Hr).
  apply bind_Done in Hr as (? & d3 & H3 & Hr).
  apply bind_Done in Hr as (? & d4 & H4 & Hr).
  apply bind_Done in Hr as (? & d5 & H5 & Hr).
  unfold mark_and_scroll in Hr.
  apply bind_Done in Hr as (b & d6 & [-> ->]%gets_Done & Hr).
  apply bind_Done in Hr as (? & d7 & Hset & Hr).
  injection Hr as <-. proj. f_equal.
  rewrite (preserves_setAttribute effects store_blind_effects _ _ _ _ _ _ Hset).
  rewrite (preserves_rebuild_body effects _ _ store_blind_effects _ _ _ H5).
  rewrite (preserves_rebuild_style effects store_blind_effects _ _ _ H4).
  assert (d3 = with_title d2 ("Reader: " ++ t)%string)
    as -> by (unfold set_title in H3; congruence).
  proj. by rewrite (preserves_rebuild_head effects store_blind_effects _ _ _ H2).
Qed.

End WholeRun.

(** ** The patterns *)

Lemma prefix_spec lit s :
  String.prefix lit s = true <-> exists b, s = (lit ++ b)%string.
Proof.
  revert s. induction lit as [|c l IH]; intros s.
  - split; [by exists s | by destruct s].
  - destruct s as [|x r]; cbn [String.prefix].
    { split; [done|]. intros [b Hb]. cbn in Hb. discriminate. }
    destruct (ascii_dec c x) as [->|Hne].
    + rewrite IH. split; intros [b Hb]; exists b; cbn in *; congruence.
    + split; [done|]. intros [b Hb]. cbn in Hb. congruence.
Qed.

Lemma includes_spec lit s :
  includes lit s = true <-> exists a b, s = (a ++ lit ++ b)%string.
Proof.
  split.
  - induction s as [|c r IH]; cbn [includes];
      intros [Hp|Hr]%orb_true_iff; try done.
    + apply prefix_spec in Hp as [b ->]. by exists "", b.
    + apply prefix_spec in Hp as [b ->]. by exists "", b.
    + destruct (IH Hr) as (a & b & ->). by exists (String c a), b.
  - intros (a & b & ->). induction a as [|c a IH].
    + assert (Hp : String.prefix lit (lit ++ b) = true)
        by (apply prefix_spec; by exists b).
      cbn [String.append]. destruct (lit ++ b)%string; cbn [includes];
        by rewrite Hp.
    + cbn [String.append includes]. rewrite IH. apply orb_true_r.
Qed.

Lemma prefix_before_space lit a b :
  includes " " lit = false ->
  String.prefix lit (a ++ String " " b) = String.prefix lit a.
Proof.
  revert lit. induction a as [|x a IH]; intros [|c l] Hl; try done.
  - cbn [String.append String.prefix].
    destruct (ascii_dec c " ") as [->|]; [|done]. by destruct l.
  - cbn [String.append String.prefix].
    destruct (ascii_dec c x); [|done]. apply IH.
    cbn [includes] in Hl. by apply orb_false_iff in Hl as [_ ?].
Qed.

(** A literal without a space occurs in [a ++ " " ++ b] only inside [a]
    or inside [b]. *)
Lemma includes_across_space lit a b :
  includes " " lit = false -> lit <> "" ->
  includes lit (a ++ String " " b) = includes lit a || includes lit b.
Proof.
  intros Hl Hne. induction a as [|x a IH].
  - cbn [String.append includes].
    rewrite (prefix_before_space lit "" b Hl : String.prefix lit (String " " b) = _).
    by destruct lit.
  - cbn [String.append includes].
    rewrite (prefix_before_space lit (String x a) b Hl
               : String.prefix lit (String x (a ++ String " " b)) = _).
    by rewrite IH, orb_assoc.
Qed.

Lemma test_across_space re a b :
  Forall (fun lit => includes " " lit = false /\ lit <> "") re ->
  test re (a ++ String " " b) = test re a || test re b.
Proof.
  unfold test. induction 1 as [|lit re [Hl Hne] _ IH]; [done|].
  cbn [existsb]. rewrite IH, includes_across_space by done.
  by destruct (includes lit a), (includes lit b),
    (existsb (fun lit => includes lit a) re).
Qed.

Lemma toLowerCase_app a b :
  toLowerCase (a ++ b) = (toLowerCase a ++ toLowerCase b)%string.
Proof. induction a as [|c a IH]; [done|]. cbn. by rewrite IH. Qed.

Lemma classId_split nd :
  classId nd
  = (toLowerCase (className nd) ++ String " " (toLowerCase (elemId nd)))%string.
Proof.
  unfold classId. rewrite !toLowerCase_app.
  generalize (toLowerCase (className nd)) as a. intros a.
  induction a as [|c a IH]; [done|]. cbn [String.append]. by rewrite IH.
Qed.

Ltac spaceless :=
  repeat (apply Forall_cons; split; [split; [by vm_compute | done]|]);
  apply Forall_nil_2.

(** X8. A pattern of the script holds of the class+id string exactly when
    it holds of the lower-cased class alone or of the lower-cased id alone:
    the space that joins them cannot be part of a match, and no match can
    begin in the class and end in the id. *)
Theorem patterns_match_class_or_id nd :
  let cls := toLowerCase (className nd) in
  let id := toLowerCase (elemId nd) in
  test re_unlikely (classId nd) = test re_unlikely cls || test re_unlikely id /\
  test re_likely (classId nd) = test re_likely cls || test re_likely id /\
  test re_strip (classId nd) = test re_strip cls || test re_strip id.
Proof.
  cbv zeta. rewrite classId_split.
  repeat split; apply test_across_space; spaceless.
Qed.

(** X9. A pattern of the script holds of a string exactly when one of its
    alternatives occurs in it as a contiguous part, at any position. *)
Theorem test_is_occurrence re s :
  test re s = true <->
  exists lit a b, lit ∈ re /\ s = (a ++ lit ++ b)%string.
Proof.
  unfold test. rewrite existsb_exists. split.
  - intros (lit & Hin%list_elem_of_In & (a & b & ->)%includes_spec).
    by exists lit, a, b.
  - intros (lit & a & b & Hin%list_elem_of_In & ->).
    exists lit. split; [done|]. apply includes_spec. by exists a, b.
Qed.

(** ** The range of the scores *)

Section ScoreRange.

Variable innerText : forest -> node_id -> string.

Lemma text_term_range n :
  (0 <= Qmin (inject_Z (Z.of_nat n) / 100) 20 <= 20)%Q.
Proof.
  split; [|apply Q.le_min_r].
  apply Q.min_glb; [|done].
  apply Qle_shift_div_l; [done|]. rewrite Qmult_0_l.
  change 0%Q with (inject_Z 0). rewrite <- Zle_Qle. lia.
Qed.

(** X10. The text of a node counts for at most 20, however long it is, and
    the marks for tag, class and id for between -80 and +25: a score lies
    between [3p - 80] and [3p + 45], where [p] is the number of paragraph
    descendants. *)
Theorem scoreNode_range f node :
  let p := inject_Z (Z.of_nat (length (querySelectorAll f node [SType "p"]))) in
  (3 * p - 80 <= scoreNode innerText f node <= 3 * p + 45)%Q.
Proof.
  cbv zeta. unfold scoreNode.
  pose proof (text_term_range (String.length (innerText f node))) as [H0 H20].
  set (m := Qmin _ _) in *.
  set (p := inject_Z _).
  destruct (_ || _), (test re_unlikely _), (test re_likely _); lra.
Qed.

End ScoreRange.

(** ** What the rebuild leaves of the page *)

Lemma lookup_in_kids c q f cd ck :
  NoDup (ids f) -> lookup_node c f = Some (cd, ck) -> q ∈ ids ck ->
  lookup_node q f = lookup_node q ck.
Proof.
  intros Hnd Hl Hq.
  induction f as [|i d k IHk s IHs]; [done|].
  destruct (NoDup_Node _ _ _ _ Hnd) as (Hik & His & Hk & Hs & Hdis).
  cbn [lookup_node] in *. destruct (Nat.eqb_spec i c) as [->|Hic].
  - injection Hl as <- <-. destruct (Nat.eqb_spec c q) as [->|_]; [done|].
    destruct (lookup_node_is_Some _ _ Hq) as [r ->]. done.
  - destruct (lookup_node c k) as [r|] eqn:Ek.
    + injection Hl as ->. specialize (IHk Hk eq_refl).
      assert (Hqk : q ∈ ids k) by (eapply lookup_node_ids_sub; eauto).
      destruct (Nat.eqb_spec i q) as [->|_]; [done|].
      rewrite IHk. destruct (lookup_node_is_Some _ _ Hq) as [r ->]. done.
    + specialize (IHs Hs Hl).
      assert (Hqs : q ∈ ids s) by (eapply lookup_node_ids_sub; eauto).
      destruct (Nat.eqb_spec i q) as [->|_]; [done|].
      assert (Hqk : q ∉ ids k) by (intros ?; by apply (Hdis q)).
      apply lookup_node_None in Hqk. by rewrite Hqk.
Qed.

Lemma young_None n0 f q : q ∉ ids f -> young n0 f q.
Proof.
  intros Hq%lookup_node_None. unfold young, children_of. rewrite Hq.
  apply Forall_nil_2.
Qed.

Lemma young_lookup n0 f q d k :
  lookup_node q f = Some (d, k) ->
  young n0 f q <-> Forall (fun i => n0 <= i) (ids k).
Proof. intros Hl. unfold young, children_of. by rewrite Hl. Qed.

Lemma NoDup_cut_cutoff c f :
  NoDup (ids f) -> forall x, x ∈ ids (cutoff c f) -> x ∉ ids (cut c f).
Proof.
  intros Hnd x Hx Hx'. rewrite <- (ids_cut_cutoff c f) in Hnd.
  apply NoDup_app in Hnd as (_ & Hdis & _). by apply (Hdis x).
Qed.

Lemma young_cut n0 c f q :
  NoDup (ids f) -> young n0 f q -> young n0 (cut c f) q.
Proof.
  intros Hnd Hy. destruct (decide (q ∈ ids (cutoff c f))) as [Hin|Hout].
  - apply young_None. by apply NoDup_cut_cutoff.
  - unfold young, children_of in *. rewrite (lookup_node_cut _ _ _ Hout).
    destruct (lookup_node q f) as [[d k]|]; [|done].
    eapply Forall_impl; [|done]. eapply Forall_forall. intros x Hx.
    rewrite Forall_forall in Hy. apply Hy. by eapply ids_cut_sub.
Qed.

(** The subtree of [c], once cut off, is as it was. *)
Lemma lookup_cutoff c f q :
  NoDup (ids f) -> q ∈ ids (cutoff c f) ->
  lookup_node q (cutoff c f) = lookup_node q f.
Proof.
  intros Hnd Hq.
  destruct (lookup_node c f) as [[cd ck]|] eqn:Ec.
  - rewrite (cutoff_unique _ _ _ _ Hnd Ec) in *. rewrite ids_Node in Hq.
    cbn [lookup_node]. destruct (Nat.eqb_spec c q) as [->|Hne]; [done|].
    apply elem_of_cons in Hq as [->|Hq]; [done|].
    change (ids Nil) with (@nil node_id) in Hq. rewrite app_nil_r in Hq.
    rewrite (lookup_in_kids _ _ _ _ _ Hnd Ec Hq).
    by destruct (lookup_node q ck).
  - apply lookup_node_None in Ec. rewrite (cutoff_not_in _ _ Ec) in Hq.
    by apply elem_of_nil in Hq.
Qed.

Lemma young_moved n0 c f q :
  NoDup (ids f) -> young n0 f q ->
  young n0 (fapp (cut c f) (cutoff c f)) q.
Proof.
  intros Hnd Hy. destruct (decide (q ∈ ids (cutoff c f))) as [Hin|Hout].
  - unfold young, children_of in *. rewrite lookup_node_fapp.
    rewrite (proj2 (lookup_node_None _ _) (NoDup_cut_cutoff _ _ Hnd _ Hin)).
    by rewrite lookup_cutoff.
  - pose proof (young_cut n0 c f q Hnd Hy) as Hc.
    unfold young, children_of in *. rewrite lookup_node_fapp.
    destruct (lookup_node q (cut c f)) as [r|]; [done|].
    by rewrite (proj2 (lookup_node_None _ _) Hout).
Qed.

Lemma ids_graft_sub p sub f : ids (graft p sub f) ⊆ ids f ++ ids sub.
Proof.
  induction f as [|i d k IHk s IHs].
  { intros x Hx. by apply elem_of_nil in Hx. }
  cbn [graft].
  rewrite !ids_Node. intros x [->|Hx]%elem_of_cons; [by left|].
  apply elem_of_app in Hx as [Hx|Hx].
  - assert (Hx' : x ∈ ids k ++ ids sub).
    { destruct (i =? p)%nat; [|by apply IHk].
      rewrite ids_fapp in Hx. apply elem_of_app in Hx as [Hx|Hx].
      - by apply IHk. - apply elem_of_app. by right. }
    apply elem_of_app in Hx' as [?|?]; apply elem_of_app;
      [left; right; apply elem_of_app; by left | by right].
  - apply IHs in Hx. apply elem_of_app in Hx as [?|?]; apply elem_of_app;
      [left; right; apply elem_of_app; by right | by right].
Qed.

Lemma lookup_node_graft_in q p sub f :
  q ∉ ids f -> p ∈ ids f ->
  lookup_node q (graft p sub f) = lookup_node q sub.
Proof.
  intros Hq Hp.
  assert (H : lookup_node q (graft p sub f)
              = if decide (p ∈ ids f) then lookup_node q sub else None);
    [|by rewrite decide_True in H].
  clear Hp. induction f as [|i d k IHk s IHs]; [done|].
  apply not_in_Node in Hq as (Hiq & Hqk & Hqs).
  specialize (IHk Hqk). specialize (IHs Hqs).
  cbn [graft lookup_node]. destruct (Nat.eqb_spec i q) as [|_]; [done|].
  rewrite ids_Node. remember (lookup_node q sub) as L eqn:EL.
  assert (Hkids : lookup_node q (if (i =? p)%nat then fapp (graft p sub k) sub
                                 else graft p sub k)
                  = if decide (i = p \/ p ∈ ids k) then L else None).
  { destruct (Nat.eqb_spec i p) as [->|Hip].
    - rewrite decide_True by (by left).
      rewrite lookup_node_fapp, IHk, <- EL.
      destruct (decide (p ∈ ids k)); by destruct L.
    - rewrite IHk. destruct (decide (p ∈ ids k)).
      + by rewrite decide_True by (by right).
      + rewrite decide_False; [done|]. by intros [?|?]. }
  rewrite Hkids, IHs.
  destruct (decide (i = p \/ p ∈ ids k)) as [H1|H1],
    (decide (p ∈ ids s)) as [H2|H2].
  - rewrite decide_True; [by destruct L|].
    destruct H1 as [->|?]; [by left | right; apply elem_of_app; by left].
  - rewrite decide_True; [by destruct L|].
    destruct H1 as [->|?]; [by left | right; apply elem_of_app; by left].
  - rewrite decide_True; [done|]. right; apply elem_of_app; by right.
  - rewrite decide_False; [done|].
    intros [->|[?|?]%elem_of_app]%elem_of_cons; auto.
Qed.

Lemma young_graft n0 p sub f q :
  Forall (fun i => n0 <= i) (ids sub) ->
  (forall y, y ∈ ids sub -> y ∉ ids f) ->
  p ∈ ids f ->
  young n0 f q -> young n0 (graft p sub f) q.
Proof.
  intros Hsub Hdis Hp Hy. destruct (decide (q ∈ ids sub)) as [Hin|Hout].
  - unfold young, children_of.
    rewrite (lookup_node_graft_in _ _ _ _ (Hdis _ Hin) Hp).
    destruct (lookup_node q sub) as [[d k]|] eqn:E; [|done].
    apply lookup_node_ids_sub in E. rewrite Forall_forall in Hsub |- *. auto.
  - unfold young, children_of in *. rewrite (lookup_node_graft _ _ _ _ Hout).
    destruct (lookup_node q f) as [[d k]|]; [|done].
    rewrite Forall_forall in Hy, Hsub |- *. intros x Hx.
    assert (Hx' : x ∈ ids k ++ ids sub).
    { destruct (q =? p)%nat; [|by apply ids_graft_sub in Hx].
      rewrite ids_fapp in Hx. apply elem_of_app in Hx as [Hx|Hx].
      - by apply ids_graft_sub in Hx. - apply elem_of_app. by right. }
    apply elem_of_app in Hx' as [?|?]; auto.
Qed.

Section Advances.

Variable n0 : node_id.

Lemma advances_refl d : store_ok d -> n0 <= fresh d -> advances n0 d d.
Proof. intros Hok Hf. split; [done|]. split; [done|]. by split. Qed.

Lemma advances_trans d1 d2 d3 :
  advances n0 d1 d2 -> advances n0 d2 d3 -> advances n0 d1 d3.
Proof.
  intros (_ & _ & Hy1 & Ho1) (Hok & Hf & Hy2 & Ho2).
  split; [done|]. split; [done|]. split; [by auto|].
  intros x nd Hx Hin. by apply Ho2, Ho1.
Qed.

Lemma advances_removeChild p c d u d' :
  store_ok d -> n0 <= fresh d ->
  removeChild p c d = Done u d' ->
  advances n0 d d'.
Proof.
  intros Hok Hf Hrun. split; [by eapply removeChild_store_ok|].
  apply removeChild_Done in Hrun as [_ ->]. proj.
  split; [done|]. split.
  - intros q. apply young_moved, Hok.
  - intros x nd _ Hin. by rewrite nodes_fapp, nodes_cut_cutoff.
Qed.

Lemma advances_appendChild p c d u d' :
  store_ok d -> n0 <= fresh d ->
  n0 <= c -> young n0 (store d) c ->
  appendChild p c d = Done u d' ->
  advances n0 d d'.
Proof.
  intros Hok Hf Hc Hyc Hrun. split; [by eapply appendChild_store_ok|].
  apply appendChild_Done in Hrun as [(t & a & k & Hp) ->]. proj.
  destruct Hok as [Hnd Hlt].
  assert (Hpin : p ∈ ids (cut c (store d))).
  { apply lookup_node_elem in Hp. apply list_elem_of_fmap. by eexists (_, _). }
  split; [done|]. split.
  - intros q Hq. apply young_graft; [| |done|by apply young_cut].
    + destruct (lookup_node c (store d)) as [[cd ck]|] eqn:Ec.
      * rewrite (cutoff_unique _ _ _ _ Hnd Ec), ids_Node.
        apply (young_lookup _ _ _ _ _ Ec) in Hyc.
        change (ids Nil) with (@nil node_id). rewrite app_nil_r.
        by apply Forall_cons.
      * apply lookup_node_None in Ec. rewrite (cutoff_not_in _ _ Ec).
        apply Forall_nil_2.
    + intros y. by apply NoDup_cut_cutoff.
  - intros x nd _ Hin.
    rewrite (nodes_graft _ _ _ (NoDup_cut _ _ Hnd) Hpin).
    by rewrite nodes_cut_cutoff.
Qed.

Lemma advances_createElement name d h d' :
  store_ok d -> n0 <= fresh d ->
  createElement name d = Done h d' ->
  advances n0 d d' /\ n0 <= h /\ young n0 (store d') h /\
  h = fresh d /\
  store d' = fapp (store d) (Node h (Element (toLowerCase name) []) Nil Nil).
Proof.
  intros Hok Hf Hrun.
  pose proof (createElement_store_ok _ _ _ _ Hok Hrun) as Hok'.
  pose proof (fresh_new d Hok) as Hnew.
  injection Hrun as <- <-. proj.
  assert (Hy : forall q, young n0 (store d) q ->
     young n0 (fapp (store d)
                 (Node (fresh d) (Element (toLowerCase name) []) Nil Nil)) q).
  { intros q Hq. unfold young, children_of in *. rewrite lookup_node_fapp.
    destruct (lookup_node q (store d)) as [r|]; [done|].
    cbn [lookup_node]. destruct (fresh d =? q)%nat; done. }
  split; [|split; [done|split; [|done]]].
  - split; [done|]. proj. split; [lia|]. split; [done|].
    intros x nd _ Hin. rewrite nodes_fapp. apply elem_of_app. by left.
  - apply Hy. by apply young_None.
Qed.

Lemma advances_setAttribute x k v d u d' :
  store_ok d -> n0 <= fresh d -> n0 <= x ->
  setAttribute x k v d = Done u d' ->
  advances n0 d d'.
Proof.
  intros Hok Hf Hx Hrun. split; [by eapply setAttribute_store_ok|].
  apply setAttribute_Done in Hrun as [_ ->]. proj.
  split; [done|]. split.
  - intros q Hq. unfold young, children_of in *. rewrite lookup_node_update.
    destruct (lookup_node q (store d)) as [[nd ks]|]; [|done].
    by rewrite ids_update.
  - intros y nd Hy Hin. rewrite nodes_update. apply list_elem_of_fmap.
    exists (y, nd). split; [|done]. cbn.
    destruct (Nat.eqb_spec y x); [lia|done].
Qed.

Lemma advances_set_textContent_new f1 x xd s d u d' :
  store_ok d -> n0 <= fresh d ->
  store d = fapp f1 (Node x xd Nil Nil) ->
  set_textContent x s d = Done u d' ->
  advances n0 d d'.
Proof.
  intros Hok Hf Hs Hrun.
  split; [by eapply set_textContent_store_ok|].
  assert (Hx : x ∉ ids f1).
  { destruct Hok as [Hnd _]. rewrite Hs in Hnd.
    by destruct (NoDup_clone_at _ _ _ _ _ Hnd) as (? & _). }
  destruct (set_textContent_last f1 x Hx xd s d Hs) as (d2 & Hrun2 & Hs2).
  assert (d2 = d') as -> by congruence.
  assert (Hfr : fresh d <= fresh d').
  { apply set_textContent_Done in Hrun as (? & ? & _ & ->).
    destruct (truthy s); proj; lia. }
  split; [lia|]. rewrite Hs2, Hs. split.
  - intros q Hq. unfold young, children_of in *.
    rewrite lookup_node_fapp in Hq |- *.
    destruct (lookup_node q f1) as [r|]; [done|]. cbn [lookup_node] in *.
    destruct (x =? q)%nat.
    + unfold text_child. destruct (truthy s); [|done].
      rewrite ids_Node. apply Forall_cons. split; [lia|done].
    + unfold text_child. destruct (truthy s); [|done]. cbn [lookup_node].
      by destruct (fresh d =? q)%nat.
  - intros y nd _. rewrite !nodes_fapp. cbn [nodes app].
    intros [?|Hin]%elem_of_app; apply elem_of_app; [by left|right].
    apply elem_of_cons in Hin as [->|Hin]; [by left|].
    by apply elem_of_nil in Hin.
Qed.

(** Clearing [p] keeps all this, and leaves [p] without content. *)
Lemma advances_clear p fuel d u d' :
  store_ok d -> n0 <= fresh d ->
  while_firstChild fuel p (removeChild p) d = Done u d' ->
  advances n0 d d' /\ young n0 (store d') p.
Proof.
  revert d. induction fuel as [|n IH]; intros d Hok Hf Hrun; [done|].
  cbn [while_firstChild] in Hrun.
  apply bind_Done in Hrun as (r & d0 & Hfc & Hrun).
  apply firstChild_Done in Hfc as (-> & nd & k & Hl & ->).
  destruct k as [|x xd xk xs].
  - apply ret_Done in Hrun as [_ ->]. split; [by apply advances_refl|].
    apply (young_lookup _ _ _ _ _ Hl). apply Forall_nil_2.
  - apply bind_Done in Hrun as (? & d1 & Hrm & Hrun).
    pose proof (advances_removeChild _ _ _ _ _ Hok Hf Hrm) as Ha.
    destruct (IH d1 (proj1 Ha) (proj1 (proj2 Ha)) Hrun) as [Ha' Hy].
    split; [by eapply advances_trans | done].
Qed.

(** Moving the children of a node made since [n0] keeps all this. *)
Lemma advances_move c body fuel d u d' :
  store_ok d -> n0 <= fresh d ->
  young n0 (store d) c ->
  while_firstChild fuel c (appendChild body) d = Done u d' ->
  advances n0 d d'.
Proof.
  revert d. induction fuel as [|n IH]; intros d Hok Hf Hyc Hrun; [done|].
  cbn [while_firstChild] in Hrun.
  apply bind_Done in Hrun as (r & d0 & Hfc & Hrun).
  apply firstChild_Done in Hfc as (-> & nd & k & Hl & ->).
  destruct k as [|x xd xk xs].
  - apply ret_Done in Hrun as [_ ->]. by apply advances_refl.
  - apply bind_Done in Hrun as (? & d1 & Happ & Hrun).
    pose proof (proj1 (young_lookup _ _ _ _ _ Hl) Hyc) as HK.
    rewrite ids_Node in HK. apply Forall_cons in HK as [Hx [Hxk _]%Forall_app].
    assert (Hlx : lookup_node x (store d) = Some (xd, xk)).
    { rewrite (lookup_in_kids _ _ _ _ _ (proj1 Hok) Hl)
        by (rewrite ids_Node; by left).
      cbn [lookup_node]. by rewrite Nat.eqb_refl. }
    assert (Hyx : young n0 (store d) x) by (by apply (young_lookup _ _ _ _ _ Hlx)).
    pose proof (advances_appendChild _ _ _ _ _ Hok Hf Hx Hyx Happ) as Ha.
    destruct Ha as (Hok1 & Hf1 & Hy1 & Ho1).
    pose proof (IH d1 Hok1 Hf1 (Hy1 _ Hyc) Hrun) as Ha'.
    eapply advances_trans; [|done]. split; [done|]. split; [done|]. by split.
Qed.

End Advances.

Ltac chain :=
  repeat first [ eassumption | eapply advances_trans; [eassumption|] ].

Section AdvancesRun.

Variable n0 : node_id.

Lemma advances_young d d' q :
  advances n0 d d' -> young n0 (store d) q -> young n0 (store d') q.
Proof. intros (_ & _ & Hy & _). apply Hy. Qed.

(** Making an element, setting it up and appending it: the steps that the
    rebuild repeats for each node it adds. *)
Lemma advances_append_new p h d u d' :
  advances n0 d d -> n0 <= h -> young n0 (store d) h ->
  appendChild p h d = Done u d' ->
  advances n0 d d'.
Proof. intros (Hok & Hf & _). by apply advances_appendChild. Qed.

Lemma advances_rebuild_head d u d' :
  store_ok d -> n0 <= fresh d ->
  rebuild_head d = Done u d' ->
  advances n0 d d' /\ young n0 (store d') (doc_head d).
Proof.
  intros Hok Hf Hrun. unfold rebuild_head in Hrun.
  apply bind_Done in Hrun as (hd & d0 & [-> ->]%gets_Done & Hrun).
  apply bind_Done in Hrun as (n & d0 & [-> ->]%gets_Done & Hrun).
  apply bind_Done in Hrun as (? & d1 & Hclear & Hrun).
  apply bind_Done in Hrun as (m1 & d2 & Hm1 & Hrun).
  apply bind_Done in Hrun as (? & d3 & Ha1 & Hrun).
  apply bind_Done in Hrun as (? & d4 & Hp1 & Hrun).
  apply bind_Done in Hrun as (m2 & d5 & Hm2 & Hrun).
  apply bind_Done in Hrun as (? & d6 & Ha2 & Hrun).
  apply bind_Done in Hrun as (? & d7 & Ha3 & Hp2).
  destruct (advances_clear n0 _ _ _ _ _ Hok Hf Hclear) as [A1 Y1].
  destruct (advances_createElement n0 _ _ _ _ (proj1 A1) (proj1 (proj2 A1)) Hm1)
    as (A2 & Hn1 & Yn1 & _).
  pose proof (advances_setAttribute n0 _ _ _ _ _ _
                (proj1 A2) (proj1 (proj2 A2)) Hn1 Ha1) as A3.
  pose proof (advances_appendChild n0 _ _ _ _ _
                (proj1 A3) (proj1 (proj2 A3)) Hn1
                (advances_young _ _ _ A3 Yn1) Hp1) as A4.
  destruct (advances_createElement n0 _ _ _ _ (proj1 A4) (proj1 (proj2 A4)) Hm2)
    as (A5 & Hn2 & Yn2 & _).
  pose proof (advances_setAttribute n0 _ _ _ _ _ _
                (proj1 A5) (proj1 (proj2 A5)) Hn2 Ha2) as A6.
  pose proof (advances_setAttribute n0 _ _ _ _ _ _
                (proj1 A6) (proj1 (proj2 A6)) Hn2 Ha3) as A7.
  pose proof (advances_appendChild n0 _ _ _ _ _
                (proj1 A7) (proj1 (proj2 A7)) Hn2
                (advances_young _ _ _ A7 (advances_young _ _ _ A6 Yn2)) Hp2)
    as A8.
  assert (A18 : advances n0 d1 d').
  { chain. }
  split; [by eapply advances_trans|]. by eapply advances_young.
Qed.

Lemma advances_rebuild_style d u d' :
  store_ok d -> n0 <= fresh d ->
  rebuild_style d = Done u d' ->
  advances n0 d d'.
Proof.
  intros Hok Hf Hrun. unfold rebuild_style in Hrun.
  apply bind_Done in Hrun as (hd & d0 & [-> ->]%gets_Done & Hrun).
  apply bind_Done in Hrun as (st & d1 & Hst & Hrun).
  apply bind_Done in Hrun as (? & d2 & Htx & Happ).
  destruct (advances_createElement n0 _ _ _ _ Hok Hf Hst)
    as (A1 & Hn & Yn & _ & Hs1).
  pose proof (advances_set_textContent_new n0 _ _ _ _ _ _ _
                (proj1 A1) (proj1 (proj2 A1)) Hs1 Htx) as A2.
  pose proof (advances_appendChild n0 _ _ _ _ _
                (proj1 A2) (proj1 (proj2 A2)) Hn
                (advances_young _ _ _ A2 Yn) Happ) as A3.
  eapply advances_trans; [done|]. by eapply advances_trans.
Qed.

Lemma advances_rebuild_heading title d u d' :
  store_ok d -> n0 <= fresh d ->
  rebuild_heading title d = Done u d' ->
  advances n0 d d' /\ young n0 (store d') (doc_body d).
Proof.
  intros Hok Hf Hrun. unfold rebuild_heading in Hrun.
  apply bind_Done in Hrun as (b & d0 & [-> ->]%gets_Done & Hrun).
  apply bind_Done in Hrun as (n & d0 & [-> ->]%gets_Done & Hrun).
  apply bind_Done in Hrun as (? & d1 & Hclear & Hrun).
  apply bind_Done in Hrun as (h & d2 & Hh & Hrun).
  apply bind_Done in Hrun as (? & d3 & Htx & Happ).
  destruct (advances_clear n0 _ _ _ _ _ Hok Hf Hclear) as [A1 Y1].
  destruct (advances_createElement n0 _ _ _ _ (proj1 A1) (proj1 (proj2 A1)) Hh)
    as (A2 & Hn & Yn & _ & Hs2).
  pose proof (advances_set_textContent_new n0 _ _ _ _ _ _ _
                (proj1 A2) (proj1 (proj2 A2)) Hs2 Htx) as A3.
  pose proof (advances_appendChild n0 _ _ _ _ _
                (proj1 A3) (proj1 (proj2 A3)) Hn
                (advances_young _ _ _ A3 Yn) Happ) as A4.
  assert (A14 : advances n0 d1 d').
  { chain. }
  split; [by eapply advances_trans|]. by eapply advances_young.
Qed.

Lemma advances_transfer c d u d' :
  store_ok d -> n0 <= fresh d ->
  young n0 (store d) c ->
  transfer c d = Done u d' ->
  advances n0 d d'.
Proof.
  intros Hok Hf Hy Hrun. unfold transfer in Hrun.
  apply bind_Done in Hrun as (b & d0 & [-> ->]%gets_Done & Hrun).
  apply bind_Done in Hrun as (n & d0 & [-> ->]%gets_Done & Hrun).
  by eapply advances_move.
Qed.

End AdvancesRun.

Section Remains.

Variable innerText : forest -> node_id -> string.

Lemma advances_prepare d t c d1 :
  well_formed d ->
  prepare innerText d = Done (t, c) d1 ->
  advances (fresh d) d d1 /\ young (fresh d) (store d1) c.
Proof.
  intros Hwf Hp.
  destruct (prepare_post innerText _ _ _ _ Hwf Hp)
    as (_ & -> & cd & K & Hcl & _).
  destruct Hwf as (Hnd0 & Hlt0 & _).
  destruct (cleaning_kids _ _ _ _ Hlt0 (le_n _) _ _ Hcl) as [HK HidsK].
  destruct Hcl as (Hok1 & Hc & X & HX & Hnew). split.
  - split; [done|]. split.
    + destruct (clone_at_ids _ _ _ _ Hc) as [Hcin _].
      destruct Hok1 as [_ Hlt1]. rewrite Forall_forall in Hlt1.
      specialize (Hlt1 _ Hcin). lia.
    + rewrite HX. split.
      * intros q Hq. unfold young, children_of in *. rewrite lookup_node_fapp.
        destruct (lookup_node q (store d)) as [r|]; [done|].
        destruct (lookup_node q X) as [[qd qk]|] eqn:E; [|done].
        apply lookup_node_ids_sub in E.
        rewrite Forall_forall in Hnew |- *. auto.
      * intros x nd _ Hin. rewrite nodes_fapp. apply elem_of_app. by left.
  - unfold young. rewrite HK. eapply Forall_impl; [done|]. by intros ? [? _].
Qed.

(** The store on which the last statements of the script work. *)
Lemma run_advances d d' :
  well_formed d -> mode_flag d = false ->
  reader_mode innerText d = Done tt d' ->
  exists d5,
    advances (fresh d) d d5 /\
    young (fresh d) (store d5) (doc_head d) /\
    young (fresh d) (store d5) (doc_body d) /\
    store d' = update (doc_body d) (set_attr "data-reader-mode" "true") (store d5).
Proof.
  intros Hwf Hf Hrun.
  destruct (reader_mode_phases innerText d d' Hf Hrun) as (t & c & d1 & Hp & Hr).
  destruct (advances_prepare _ _ _ _ Hwf Hp) as [A1 Yc].
  assert (Hh1 : doc_head d1 = doc_head d)
    by (eapply (preserves_prepare innerText doc_head); eauto with frame).
  assert (Hb1 : doc_body d1 = doc_body d)
    by (eapply (preserves_prepare innerText doc_body); eauto with frame).
  unfold rebuild in Hr.
  apply bind_Done in Hr as (? & d2 & H2 & Hr).
  apply bind_Done in Hr as (? & d3 & H3 & Hr).
  apply bind_Done in Hr as (? & d4 & H4 & Hr).
  apply bind_Done in Hr as (? & d5 & H5 & Hr).
  assert (d3 = with_title d2 ("Reader: " ++ t)%string)
    as -> by (unfold set_title in H3; congruence).
  destruct (advances_rebuild_head _ _ _ _ (proj1 A1) (proj1 (proj2 A1)) H2)
    as [A2 Yh].
  assert (A3 : advances (fresh d) d2 (with_title d2 ("Reader: " ++ t)%string))
    by (apply (advances_refl _ d2); apply A2).
  pose proof (advances_rebuild_style _ _ _ _
                (proj1 A3) (proj1 (proj2 A3)) H4) as A4.
  assert (Hb4 : doc_body d4 = doc_body d).
  { rewrite (preserves_rebuild_style doc_body store_blind_body _ _ _ H4). proj.
    rewrite (preserves_rebuild_head doc_body store_blind_body _ _ _ H2).
    done. }
  assert (Hb5 : doc_body d5 = doc_body d).
  { by rewrite (preserves_rebuild_body doc_body t c store_blind_body _ _ _ H5). }
  unfold rebuild_body in H5.
  apply bind_Done in H5 as (? & d45 & H45 & H5).
  destruct (advances_rebuild_heading _ _ _ _ _
              (proj1 A4) (proj1 (proj2 A4)) H45) as [A45 Yb].
  assert (Yc45 : young (fresh d) (store d45) c).
  { eapply advances_young; [exact A45|].
    eapply advances_young; [exact A4|].
    eapply advances_young; [exact A3|].
    eapply advances_young; [exact A2 | exact Yc]. }
  pose proof (advances_transfer _ _ _ _ _
                (proj1 A45) (proj1 (proj2 A45)) Yc45 H5) as A5.
  unfold mark_and_scroll in Hr.
  apply bind_Done in Hr as (b & d6 & [-> ->]%gets_Done & Hr).
  apply bind_Done in Hr as (? & d7 & Hset & Hr).
  apply setAttribute_Done in Hset as [_ ->]. injection Hr as <-.
  exists d5. proj. rewrite Hb5. split; [|split; [|split; [|done]]].
  - chain.
  - rewrite <- Hh1. eapply advances_young; [exact A5|].
    eapply advances_young; [exact A45|].
    eapply advances_young; [exact A4|].
    eapply advances_young; [exact A3 | exact Yh].
  - rewrite <- Hb4. eapply advances_young; [exact A5 | exact Yb].
Qed.

(** X11. After a run on a loaded page that is not in reader mode nothing
    that [document.head] or [document.body] contains is a node of the page
    as it was: all of it was made by the run. *)
Theorem head_and_body_hold_new_nodes_only d :
  loaded d -> mode_flag d = false ->
  exists d',
    reader_mode innerText d = Done tt d' /\
    forall x, x ∈ ids (store d) ->
      (x ∉ ids (children_of (store d') (doc_head d'))) /\
      (x ∉ ids (children_of (store d') (doc_body d'))).
Proof.
  intros Hld Hf.
  destruct (reader_mode_completes innerText d Hld Hf) as [d' Hrun].
  exists d'. split; [done|].
  pose proof (loaded_well_formed d Hld) as Hwf.
  destruct (run_advances d d' Hwf Hf Hrun) as (d5 & _ & Yh & Yb & Hs).
  destruct (reader_mode_phases innerText d d' Hf Hrun) as (t & c & d1 & Hp & Hr).
  assert (Hh : doc_head d' = doc_head d).
  { rewrite (preserves_rebuild doc_head t c store_blind_head
               (fun _ _ => eq_refl) (fun _ _ => eq_refl) _ _ _ Hr).
    eapply (preserves_prepare innerText doc_head); eauto with frame. }
  assert (Hb : doc_body d' = doc_body d).
  { rewrite (preserves_rebuild doc_body t c store_blind_body
               (fun _ _ => eq_refl) (fun _ _ => eq_refl) _ _ _ Hr).
    eapply (preserves_prepare innerText doc_body); eauto with frame. }
  assert (Hnew : forall p x, young (fresh d) (store d5) p ->
            x ∈ ids (store d) -> x ∉ ids (children_of (store d') p)).
  { intros p x Hy Hx Hin. destruct Hwf as (_ & Hlt & _).
    rewrite Forall_forall in Hlt. specialize (Hlt x Hx).
    unfold young, children_of in *. rewrite Hs, lookup_node_update in Hin.
    destruct (lookup_node p (store d5)) as [[pd pk]|];
      [|by apply elem_of_nil in Hin].
    rewrite ids_update in Hin. rewrite Forall_forall in Hy.
    specialize (Hy x Hin). lia. }
  intros x Hx. rewrite Hh, Hb. split; by apply Hnew.
Qed.

(** X12. A run on a loaded page that is not in reader mode gives
    [document.body] the attribute [data-reader-mode] and changes the tag,
    the attributes or the text of no other node that the page had,
    attached or not. *)
Theorem page_nodes_keep_their_data d :
  loaded d -> mode_flag d = false ->
  exists d',
    reader_mode innerText d = Done tt d' /\
    forall x nd, (x, nd) ∈ nodes (store d) ->
      (x, if (x =? doc_body d)%nat
          then set_attr "data-reader-mode" "true" nd else nd)
      ∈ nodes (store d').
Proof.
  intros Hld Hf.
  destruct (reader_mode_completes innerText d Hld Hf) as [d' Hrun].
  exists d'. split; [done|].
  pose proof (loaded_well_formed d Hld) as Hwf.
  destruct (run_advances d d' Hwf Hf Hrun) as (d5 & (_ & _ & _ & Hold) & _ & _ & Hs).
  intros x nd Hin. rewrite Hs, nodes_update. apply list_elem_of_fmap.
  exists (x, nd). split; [done|]. apply Hold; [|done].
  destruct Hwf as (_ & Hlt & _). rewrite Forall_forall in Hlt. apply Hlt.
  apply list_elem_of_fmap. by exists (x, nd).
Qed.

End Remains.

(** ** The unguarded loop *)





(** ** The properties on the sample pages *)

Import Sample.

Ltac by_computation := apply (bool_decide_unpack _); vm_compute; exact I.

Lemma blog_well_formed : well_formed blog.
Proof. unfold well_formed. repeat split; by_computation. Defined.


Lemma reload_on_blog_reader :
  mode_flag blog_reader = true /\
  reader_mode textContent blog_reader = Done tt (with_effect blog_reader Reload).
Proof.
  split; [reflexivity|].
  apply (reader_mode_on_reader_page_reloads textContent blog_reader).
  reflexivity.
Defined.

(** Both class/id terms of the score on one node: ["main-nav"] contains
    [nav] and [main]. *)
Example score_with_penalty_and_bonus :
  (scoreNode textContent
     (el 0%nat "div" [("class", "main-nav")] Nil Nil) 0%nat == -5)%Q.
Proof. reflexivity. Qed.


Lemma locate_on_news :
  candidates news = [3] /\
  (scoreNode textContent (store news) 6%nat
   < scoreNode textContent (store news) 3%nat)%Q /\
  locate textContent news = 6.
Proof.
  split; [reflexivity|]. split; [reflexivity|].
  apply (proj1 (locate_semantic_priority textContent news)). reflexivity.
Defined.

Lemma blog_loaded : loaded blog.
Proof.
  split; [split; by_computation|].
  split; [exists "head", [] | exists "body", []];
    apply list_elem_of_In; vm_compute; auto 10.
Defined.


Example blog_title : doc_title blog_reader = "Reader: Hello".
Proof. reflexivity. Qed.

Lemma flag_on_blog_reader :
  mode_flag blog = false /\
  mode_flag blog_reader = true /\
  doc_body blog_reader = doc_body blog /\
  in_reader_mode blog_reader = Done true blog_reader /\
  reader_mode textContent blog_reader = Done tt (with_effect blog_reader Reload).
Proof.
  split; [reflexivity|].
  apply (rebuilt_page_is_flagged textContent blog blog_reader).
  - reflexivity.
  - vm_compute. reflexivity.
Defined.

Lemma strip_classes_on_stale :
  test re_strip (classId (data_of (store stale) 8)) = true /\
  parentNode (store stale) 8 = None /\
  strip_class_step 8 stale = Done tt stale.
Proof.
  split; [reflexivity|]. split; [reflexivity|].
  apply (proj1 strip_classes_never_throws 8 stale). reflexivity.
Defined.

Lemma cleanup_on_blog :
  (exists X, store blog_cleaned = fapp (store blog) X /\
             Forall (fun i => fresh blog <= i) (ids X)) /\
  (forall x, x ∈ ids (store blog) ->
     lookup_node x (store blog_cleaned) = lookup_node x (store blog) /\
     parentNode (store blog_cleaned) x = parentNode (store blog) x) /\
  fresh blog <= 20 /\
  parentNode (store blog_cleaned) 20 = None /\
  doc_title blog_cleaned = doc_title blog /\
  documentElement blog_cleaned = documentElement blog /\
  doc_head blog_cleaned = doc_head blog /\
  doc_body blog_cleaned = doc_body blog /\
  effects blog_cleaned = effects blog.
Proof.
  apply (cleanup_leaves_live_document_alone textContent blog "Hello" 20 blog_cleaned).
  - exact blog_well_formed.
  - vm_compute. reflexivity.
Defined.

Lemma candidate_score_on_blog :
  (scoreNode textContent (store blog) 8%nat
   == score_without_own_tag textContent (store blog) 8%nat)%Q.
Proof.
  apply (candidate_score_has_no_own_tag_term textContent blog 8).
  - by_computation.
  - by_computation.
Defined.

(** ** More properties on the sample pages *)


Lemma tie_loaded : loaded tie.
Proof.
  split; [split; by_computation|].
  split; [exists "head", [] | exists "body", []];
    apply list_elem_of_In; vm_compute; auto 10.
Defined.



(** Of the content of the sample page the script, the sidebar and the
    element whose id begins with [ad-] are dropped, each with what it
    holds; the heading, the paragraph and the span stay. *)
Example blog_pruned :
  nodes (prune excluded (children_of (store blog) 8))
  = [(9, Element "h1" []); (10, Text "Hello");
     (11, Element "p" []); (12, Text "para"); (16, Element "span" [])].
Proof. reflexivity. Qed.


Lemma whole_copy_on_tie :
  exists d' h hk rest,
    reader_mode textContent tie = Done tt d' /\
    children_of (store d') (doc_body d') = heading_tree h hk rest /\
    shape rest = shape (children_of (store tie) (locate textContent tie)).
Proof.
  apply (clean_content_is_copied_whole textContent tie).
  - exact tie_loaded.
  - reflexivity.
  - by_computation.
Defined.



Lemma fault_on_bodiless :
  reader_mode textContent bodiless = Throw TypeError.
Proof. apply (reader_mode_without_body textContent bodiless). by_computation. Defined.

Lemma scroll_on_blog :
  exists d',
    reader_mode textContent blog = Done tt d' /\
    effects d' = effects blog ++ [ScrollTo 0 0] /\
    doc_body d' = doc_body blog /\
    doc_head d' = doc_head blog /\
    documentElement d' = documentElement blog.
Proof.
  apply (rebuild_scrolls_and_does_not_reload textContent blog).
  - exact blog_loaded.
  - reflexivity.
Defined.

Lemma new_nodes_on_blog :
  exists d',
    reader_mode textContent blog = Done tt d' /\
    forall x, x ∈ ids (store blog) ->
      (x ∉ ids (children_of (store d') (doc_head d'))) /\
      (x ∉ ids (children_of (store d') (doc_body d'))).
Proof.
  apply (head_and_body_hold_new_nodes_only textContent blog).
  - exact blog_loaded.
  - reflexivity.
Defined.

Lemma data_kept_on_blog :
  exists d',
    reader_mode textContent blog = Done tt d' /\
    forall x nd, (x, nd) ∈ nodes (store blog) ->
      (x, if (x =? doc_body blog)%nat
          then set_attr "data-reader-mode" "true" nd else nd)
      ∈ nodes (store d').
Proof.
  apply (page_nodes_keep_their_data textContent blog).
  - exact blog_loaded.
  - reflexivity.
Defined.


(** The detached element makes the loop throw; without it the loop runs. *)
Example remove_all_stale_throws : remove_all [3; 8] stale = Throw TypeError.
Proof. reflexivity. Qed.

(** ["shadow"] contains [ad], and the class+id string of an element
    without class and id is one space. *)
Example unlikely_inside_a_word :
  test re_unlikely "shadow" = true /\
  classId (Element "div" []) = " ".
Proof. split; reflexivity. Qed.
